(** * finance-tracker: balance parsing, the observation store and the chart series

    A shallow embedding of [app.py] (the Flask application) and [import.py]
    (the CSV importer), together with the parts of the Python standard
    library they call: [str] methods, [decimal.Decimal], [datetime.strptime]
    and [csv.DictReader].

    Conventions.
    - A Python [str] is a [string] whose characters are the code points
      below 256.
    - An exception is a value of [exn]; a call that may raise returns
      [result].
    - The database is a record of two tables, each a list of rows in rowid
      order; a handler maps a store to a store. *)

From stdpp Require Import base option list strings gmap sorting.
From Stdlib Require Import ZArith NArith Ascii String Lia.

Open Scope string_scope.
Open Scope Z_scope.

#[global] Arguments String.append !_ _ / : simpl nomatch.

(** ** Exceptions *)

Inductive exn : Type :=
| ValueError (msg : string)
| InvalidOperation
| AttributeError (msg : string)
| KeyError (key : string)
| NotFound.

Inductive result (A : Type) : Type :=
| OK (a : A)
| Raise (e : exn).
Arguments OK {A} a.
Arguments Raise {A} e.

#[global] Instance result_bind : MBind result := λ A B k r,
  match r with
  | OK a => k a
  | Raise e => Raise e
  end.

(** [try: r except InvalidOperation: raise ValueError(msg)] *)
Definition except_InvalidOperation {A} (r : result A) (msg : string) : result A :=
  match r with
  | Raise InvalidOperation => Raise (ValueError msg)
  | _ => r
  end.

(** [try: r except ValueError: raise ValueError(msg)] *)
Definition except_ValueError {A} (r : result A) (msg : string) : result A :=
  match r with
  | Raise (ValueError _) => Raise (ValueError msg)
  | _ => r
  end.

(** ** Python [str] methods *)

Module Str.

Definition code (c : ascii) : N := N_of_ascii c.

(** [str.isspace] on the code points below 256. *)
Definition isspace (c : ascii) : bool :=
  let n := code c in
  ((9 <=? n) && (n <=? 13) || (28 <=? n) && (n <=? 32)
   || (n =? 133) || (n =? 160))%N.

Definition isdigit (c : ascii) : bool :=
  let n := code c in ((48 <=? n) && (n <=? 57))%N.

Fixpoint lstrip (s : string) : string :=
  match s with
  | String c s' => if isspace c then lstrip s' else s
  | EmptyString => EmptyString
  end.

Fixpoint rstrip (s : string) : string :=
  match s with
  | String c s' =>
      match rstrip s' with
      | EmptyString => if isspace c then EmptyString else String c EmptyString
      | r => String c r
      end
  | EmptyString => EmptyString
  end.

Definition strip (s : string) : string := rstrip (lstrip s).

(** [c in s] for a one-character [c]. *)
Fixpoint contains (c : ascii) (s : string) : bool :=
  match s with
  | String a s' => Ascii.eqb a c || contains c s'
  | EmptyString => false
  end.

Fixpoint rfind_from (c : ascii) (s : string) (i last : Z) : Z :=
  match s with
  | String a s' => rfind_from c s' (i + 1) (if Ascii.eqb a c then i else last)
  | EmptyString => last
  end.

(** [s.rfind(c)]: the highest index of [c], or [-1]. *)
Definition rfind (c : ascii) (s : string) : Z := rfind_from c s 0 (-1).

(** [s.replace(old, new)] for a one-character [old]. *)
Fixpoint replace (old : ascii) (new : string) (s : string) : string :=
  match s with
  | String a s' =>
      if Ascii.eqb a old then new +:+ replace old new s'
      else String a (replace old new s')
  | EmptyString => EmptyString
  end.

Definition lower_char (c : ascii) : ascii :=
  let n := code c in
  if ((65 <=? n) && (n <=? 90)
      || (192 <=? n) && (n <=? 222) && negb (n =? 215))%N
  then ascii_of_N (n + 32) else c.

Fixpoint lower (s : string) : string :=
  match s with
  | String a s' => String (lower_char a) (lower s')
  | EmptyString => EmptyString
  end.

(** The longest prefix of decimal digits, and the rest. *)
Fixpoint span_digits (s : string) : string * string :=
  match s with
  | String a s' =>
      if isdigit a
      then let '(d, r) := span_digits s' in (String a d, r)
      else (EmptyString, s)
  | EmptyString => (EmptyString, EmptyString)
  end.

Definition digit_val (c : ascii) : N := (code c - 48)%N.

Fixpoint int_acc (s : string) (acc : N) : N :=
  match s with
  | String a s' => int_acc s' (acc * 10 + digit_val a)%N
  | EmptyString => acc
  end.

(** [int(s)] for a string of decimal digits (the empty string never
    reaches [int] in the code below; it maps to 0 here). *)
Definition int (s : string) : N := int_acc s 0.

Definition digit_char (n : N) : ascii := ascii_of_N (48 + n).

Fixpoint of_N_aux (fuel : nat) (n : N) (acc : string) : string :=
  match fuel with
  | S fuel' =>
      if (n <? 10)%N then String (digit_char n) acc
      else of_N_aux fuel' (n / 10)%N (String (digit_char (n mod 10)%N) acc)
  | O => acc
  end.

(** [str(n)] for a non-negative integer: no leading zero, ["0"] for 0.
    The fuel is the bit length, which bounds the number of digits. *)
Definition of_N (n : N) : string :=
  of_N_aux (S (N.to_nat (N.size n))) n EmptyString.


Fixpoint repeat0 (n : nat) : string :=
  match n with
  | S n' => String "0" (repeat0 n')
  | O => EmptyString
  end.

(** Every character of [s] satisfies [P]. *)
Fixpoint all (P : ascii → bool) (s : string) : bool :=
  match s with
  | String a s' => P a && all P s'
  | EmptyString => true
  end.


Fixpoint drop (n : nat) (s : string) : string :=
  match n, s with
  | S n', String _ s' => drop n' s'
  | _, _ => s
  end.

End Str.

(** ** [decimal.Decimal]

    The number model of Python's [decimal] module as its reference
    implementation ([_pydecimal]) has it: a sign, a coefficient and an
    exponent, or a special value.  The coefficient, a digit string in the
    library, is the number it denotes; [len c] is the length of that digit
    string.  The context is the default one: precision 28, rounding
    ROUND_HALF_EVEN, [InvalidOperation] trapped. *)

Module decimal.

Inductive Decimal : Type :=
| Finite (sign : bool) (coeff : N) (exp : Z)
| Infinity (sign : bool)
| NaN (sign : bool) (signaling : bool) (payload : N).

#[global] Instance Decimal_eq_dec : EqDecision Decimal.
Proof. solve_decision. Defined.

Definition prec : Z := 28.
Definition Emax : Z := 999999.
Definition Emin : Z := -999999.
Definition Etiny : Z := Emin - prec + 1.

(** [len(self._int)] of a finite number. *)
Definition len (c : N) : Z := Z.of_nat (String.length (Str.of_N c)).

(** [len(self._int)] of a NaN: a zero payload is the empty string. *)
Definition payload_len (p : N) : Z := if (p =? 0)%N then 0 else len p.

Definition pow10 (k : Z) : N := (10 ^ Z.to_N k)%N.

(** *** Construction from a string *)

(** [(?P<sign>[-+])?] *)
Definition parse_sign (s : string) : bool * string :=
  match s with
  | String a r =>
      if Ascii.eqb a "-" then (true, r)
      else if Ascii.eqb a "+" then (false, r)
      else (false, s)
  | EmptyString => (false, s)
  end.

(** [(E(?P<exp>[-+]?\d+))?] up to the end of the string. *)
Definition parse_exponent (s : string) : option Z :=
  match s with
  | EmptyString => Some 0
  | String e r =>
      if Ascii.eqb (Str.lower_char e) "e" then
        let '(neg, r1) := parse_sign r in
        match Str.span_digits r1 with
        | (String d ds, EmptyString) =>
            let n := Z.of_N (Str.int (String d ds)) in
            Some (if neg then - n else n)
        | _ => None
        end
      else None
  end.

Definition parse_number (sign : bool) (s : string) : option Decimal :=
  let '(intpart, r1) := Str.span_digits s in
  let '(fracpart, r2) :=
    match r1 with
    | String a r =>
        if Ascii.eqb a "." then Str.span_digits r else (EmptyString, r1)
    | EmptyString => (EmptyString, r1)
    end in
  if String.eqb intpart "" && String.eqb fracpart "" then None
  else
    exp ← parse_exponent r2;
    Some (Finite sign (Str.int (intpart +:+ fracpart))
                 (exp - Z.of_nat (String.length fracpart))).

Definition parse_nan (sign signaling : bool) (diag : string) : option Decimal :=
  match Str.span_digits diag with
  | (d, EmptyString) => Some (NaN sign signaling (Str.int d))
  | _ => None
  end.

Definition parse_special (sign : bool) (s : string) : option Decimal :=
  match Str.lower s with
  | "inf" | "infinity" => Some (Infinity sign)
  | String "n" (String "a" (String "n" diag)) => parse_nan sign false diag
  | String "s" (String "n" (String "a" (String "n" diag))) =>
      parse_nan sign true diag
  | _ => None
  end.

(** [Decimal(value)] for a string; [None] is the ConversionSyntax
    condition, which the default context raises as [InvalidOperation]. *)
Definition of_string (value : string) : option Decimal :=
  let s := Str.replace "_" "" (Str.strip value) in
  let '(sign, body) := parse_sign s in
  match parse_number sign body with
  | Some d => Some d
  | None => parse_special sign body
  end.

Definition Decimal_ (value : string) : result Decimal :=
  match of_string value with
  | Some d => OK d
  | None => Raise InvalidOperation
  end.

(** *** Rounding *)

(** The digit at index [i] of the digit string of [c]. *)
Definition digit_at (c : N) (i : Z) : N :=
  ((c / pow10 (len c - i - 1)) mod 10)%N.

(** The number written by the digits of [c] from index [i] on. *)
Definition suffix (c : N) (i : Z) : N := (c mod pow10 (len c - i))%N.

(** [int(self._int[:i] or '0')] *)
Definition prefix (c : N) (i : Z) : N := (c / pow10 (len c - i))%N.

Definition _all_zeros (c : N) (p : Z) : bool := (suffix c p =? 0)%N.

Definition _exact_half (c : N) (p : Z) : bool :=
  (suffix c p =? 5 * pow10 (len c - p - 1))%N.

Definition _round_half_up (c : N) (p : Z) : Z :=
  if (5 <=? digit_at c p)%N then 1
  else if _all_zeros c p then 0
  else -1.

Definition _round_half_even (c : N) (p : Z) : Z :=
  if _exact_half c p && ((p =? 0) || N.even (digit_at c (p - 1)))
  then -1
  else _round_half_up c p.

Definition _rescale (self : Decimal) (exp : Z) : Decimal :=
  match self with
  | Finite sign c e =>
      if (c =? 0)%N then Finite sign 0 exp
      else if e >=? exp then Finite sign (c * pow10 (e - exp)) exp
      else
        let digits := len c + e - exp in
        let '(c, digits) := if digits <? 0 then (1%N, 0) else (c, digits) in
        let changed := _round_half_even c digits in
        let coeff := prefix c digits in
        Finite sign (if changed =? 1 then (coeff + 1)%N else coeff) exp
  | _ => self
  end.

Definition adjusted (c : N) (e : Z) : Z := e + len c - 1.

Definition _fix_nan (sign signaling : bool) (payload : N) : Decimal :=
  if payload_len payload >? prec
  then NaN sign signaling (payload mod pow10 prec)
  else NaN sign signaling payload.

(** [self.quantize(exp)] in the default context. *)
Definition quantize (self exp : Decimal) : result Decimal :=
  match self, exp with
  | NaN _ true _, _ => Raise InvalidOperation
  | _, NaN _ true _ => Raise InvalidOperation
  | NaN sign s p, _ => OK (_fix_nan sign s p)
  | _, NaN sign s p => OK (_fix_nan sign s p)
  | Infinity sign, Infinity _ => OK (Infinity sign)
  | Infinity _, _ => Raise InvalidOperation
  | _, Infinity _ => Raise InvalidOperation
  | Finite sign c e, Finite _ _ exp =>
      if negb ((Etiny <=? exp) && (exp <=? Emax)) then Raise InvalidOperation
      else if (c =? 0)%N then OK (Finite sign 0 exp)
      else if adjusted c e >? Emax then Raise InvalidOperation
      else if adjusted c e - exp + 1 >? prec then Raise InvalidOperation
      else
        match _rescale self exp with
        | Finite sign' c' e' =>
            if adjusted c' e' >? Emax then Raise InvalidOperation
            else if len c' >? prec then Raise InvalidOperation
            else OK (Finite sign' c' e')
        | ans => OK ans
        end
  end.

(** *** [str(d)] *)


End decimal.
Import decimal.

(** ** [Decimal.__add__] and [sum]

    Addition in the default context, which traps [InvalidOperation] and
    [Overflow]; the other signals only set flags, which are not modelled. *)

Module arithmetic.

Inductive signal : Type :=
| InvalidOperation
| Overflow.

(** The value of an operation, or the exception of a trapped signal. *)
Inductive outcome (A : Type) : Type :=
| Value (a : A)
| Trap (s : signal).
Arguments Value {A} a.
Arguments Trap {A} s.

#[global] Instance outcome_bind : MBind outcome := λ A B k r,
  match r with
  | Value a => k a
  | Trap s => Trap s
  end.

Definition Etop : Z := Emax - prec + 1.

(** [self._fix(context)]: round to the precision of the context. *)
Definition _fix (self : Decimal) : outcome Decimal :=
  match self with
  | NaN sign signaling p => Value (_fix_nan sign signaling p)
  | Infinity _ => Value self
  | Finite sign c e =>
      if (c =? 0)%N then
        Value (Finite sign 0 (Z.min (Z.max e Etiny) Emax))
      else
        let exp_min := len c + e - prec in
        if exp_min >? Etop then Trap Overflow
        else
          let exp_min := if exp_min <? Etiny then Etiny else exp_min in
          if e <? exp_min then
            let digits := len c + e - exp_min in
            let '(c, digits) := if digits <? 0 then (1%N, 0) else (c, digits) in
            let changed := _round_half_even c digits in
            let coeff := prefix c digits in
            let '(coeff, exp_min) :=
              if changed >? 0 then
                if len (coeff + 1) >? prec
                then (((coeff + 1) / 10)%N, exp_min + 1)
                else ((coeff + 1)%N, exp_min)
              else (coeff, exp_min) in
            if exp_min >? Etop then Trap Overflow
            else Value (Finite sign coeff exp_min)
          else Value self
  end.

(** [_normalize(op1, op2, prec)] on the coefficients and exponents. *)
Definition _normalize (op1 op2 : N * Z) : (N * Z) * (N * Z) :=
  let '(tmp, other) := if op1.2 <? op2.2 then (op2, op1) else (op1, op2) in
  let exp := tmp.2 + Z.min (-1) (len tmp.1 - prec - 2) in
  let other := if len other.1 + other.2 - 1 <? exp then (1%N, exp) else other in
  let tmp := ((tmp.1 * pow10 (tmp.2 - other.2))%N, other.2) in
  if op1.2 <? op2.2 then (other, tmp) else (tmp, other).

(** [self + other] *)
Definition __add__ (self other : Decimal) : outcome Decimal :=
  match self, other with
  | NaN _ true _, _ => Trap InvalidOperation
  | _, NaN _ true _ => Trap InvalidOperation
  | NaN sign s p, _ => Value (_fix_nan sign s p)
  | _, NaN sign s p => Value (_fix_nan sign s p)
  | Infinity s1, Infinity s2 =>
      if Bool.eqb s1 s2 then Value self else Trap InvalidOperation
  | Infinity _, _ => Value self
  | _, Infinity _ => Value other
  | Finite s1 c1 e1, Finite s2 c2 e2 =>
      let exp := Z.min e1 e2 in
      if (c1 =? 0)%N && (c2 =? 0)%N then _fix (Finite (s1 && s2) 0 exp)
      else if (c1 =? 0)%N then
        _fix (_rescale other (Z.max exp (e2 - prec - 1)))
      else if (c2 =? 0)%N then
        _fix (_rescale self (Z.max exp (e1 - prec - 1)))
      else
        let '(op1, op2) := _normalize (c1, e1) (c2, e2) in
        if negb (Bool.eqb s1 s2) then
          if (op1.1 =? op2.1)%N then _fix (Finite false 0 exp)
          else if (op1.1 <? op2.1)%N
               then _fix (Finite s2 (op2.1 - op1.1) op2.2)
               else _fix (Finite s1 (op1.1 - op2.1) op1.2)
        else _fix (Finite s1 (op1.1 + op2.1) op1.2)
  end.

(** [sum(iterable, start)] *)
Fixpoint sum (iterable : list Decimal) (start : Decimal) : outcome Decimal :=
  match iterable with
  | [] => Value start
  | x :: iterable' => total ← __add__ start x; sum iterable' total
  end.

End arithmetic.

(** ** [datetime.date] and [datetime.strptime] *)

Module datetime.

Record date : Type := mkdate { year : Z; month : Z; day : Z }.

#[global] Instance date_eq_dec : EqDecision date.
Proof. solve_decision. Defined.

Definition MINYEAR : Z := 1.
Definition MAXYEAR : Z := 9999.

Definition _is_leap (y : Z) : bool :=
  (y mod 4 =? 0) && (negb (y mod 100 =? 0) || (y mod 400 =? 0)).

Definition _days_in_month (y m : Z) : Z :=
  if (m =? 2) then (if _is_leap y then 29 else 28)
  else if (m =? 4) || (m =? 6) || (m =? 9) || (m =? 11) then 30
  else 31.

(** [date(y, m, d)]: the constructor checks its fields. *)
Definition date_ (y m d : Z) : result date :=
  if negb ((MINYEAR <=? y) && (y <=? MAXYEAR))
  then Raise (ValueError "year is out of range")
  else if negb ((1 <=? m) && (m <=? 12))
  then Raise (ValueError "month must be in 1..12")
  else if negb ((1 <=? d) && (d <=? _days_in_month y m))
  then Raise (ValueError "day is out of range for month")
  else OK (mkdate y m d).

(** Dates compare as the tuples (year, month, day). *)
Definition date_le (a b : date) : Prop :=
  year a < year b
  ∨ (year a = year b
     ∧ (month a < month b ∨ (month a = month b ∧ day a <= day b))).

Definition date_lt (a b : date) : Prop :=
  year a < year b
  ∨ (year a = year b
     ∧ (month a < month b ∨ (month a = month b ∧ day a < day b))).

#[global] Instance date_countable : Countable date.
Proof.
  refine (inj_countable' (fun d => (year d, month d, day d))
            (fun '(y, m, d) => mkdate y m d) _).
  by intros [].
Defined.

#[global] Instance date_le_dec : RelDecision date_le.
Proof. intros a b. unfold date_le. apply _. Defined.

#[global] Instance date_lt_dec : RelDecision date_lt.
Proof. intros a b. unfold date_lt. apply _. Defined.

(** ["%0*d" % (width, n)] for a non-negative [n]. *)
Definition zfill (width : nat) (n : Z) : string :=
  let s := Str.of_N (Z.to_N n) in
  Str.repeat0 (width - String.length s) +:+ s.

(** [d.isoformat()] *)
Definition isoformat (d : date) : string :=
  zfill 4 (year d) +:+ "-" +:+ zfill 2 (month d) +:+ "-" +:+ zfill 2 (day d).

(** *** strptime

    The format is compiled to a sequence of items; a directive stands for
    the alternatives of its regular expression, in the library's order:
    [%Y] is [\d\d\d\d], [%m] is [1[0-2]|0[1-9]|[1-9]] and [%d] is
    [3[0-1]|[1-2]\d|0[1-9]|[1-9]| [1-9]].  The match takes the first
    alternative that lets the rest of the format match, and the whole
    string has to be consumed. *)

Inductive item : Type :=
| Lit (c : ascii)
| DirY
| Dirm
| Dird.

(** Formats of literal punctuation and the directives [%Y], [%m], [%d];
    anything else is outside this model. *)
Fixpoint compile (fmt : string) : option (list item) :=
  match fmt with
  | EmptyString => Some []
  | String "%" (String "Y" r) => cons DirY <$> compile r
  | String "%" (String "m" r) => cons Dirm <$> compile r
  | String "%" (String "d" r) => cons Dird <$> compile r
  | String c r =>
      if Ascii.eqb c "-" || Ascii.eqb c "." || Ascii.eqb c "/"
      then cons (Lit c) <$> compile r
      else None
  end.

Definition in_range (lo hi : ascii) (c : ascii) : bool :=
  (Str.code lo <=? Str.code c)%N && (Str.code c <=? Str.code hi)%N.

Definition two (a b : ascii) : Z :=
  Z.of_N (Str.digit_val a * 10 + Str.digit_val b).

Definition one (a : ascii) : Z := Z.of_N (Str.digit_val a).

(** The candidate matches of one item at the head of [s], in order of
    preference: the number read (0 for a literal) and the rest. *)
Definition candidates (it : item) (s : string) : list (Z * string) :=
  match it with
  | Lit c =>
      match s with
      | String a r => if Ascii.eqb a c then [(0, r)] else []
      | _ => []
      end
  | DirY =>
      match s with
      | String a (String b (String c (String d r))) =>
          if Str.isdigit a && Str.isdigit b && Str.isdigit c && Str.isdigit d
          then [(Z.of_N (Str.int (String a (String b (String c (String d ""))))), r)]
          else []
      | _ => []
      end
  | Dirm =>
      match s with
      | String a r =>
          match r with
          | String b r' =>
              (if Ascii.eqb a "1" && in_range "0" "2" b then [(two a b, r')] else [])
              ++ (if Ascii.eqb a "0" && in_range "1" "9" b then [(two a b, r')] else [])
          | _ => []
          end
          ++ (if in_range "1" "9" a then [(one a, r)] else [])
      | _ => []
      end
  | Dird =>
      match s with
      | String a r =>
          match r with
          | String b r' =>
              (if Ascii.eqb a "3" && in_range "0" "1" b then [(two a b, r')] else [])
              ++ (if in_range "1" "2" a && Str.isdigit b then [(two a b, r')] else [])
              ++ (if Ascii.eqb a "0" && in_range "1" "9" b then [(two a b, r')] else [])
          | _ => []
          end
          ++ (if in_range "1" "9" a then [(one a, r)] else [])
          ++ match r with
             | String b r' =>
                 if Ascii.eqb a " " && in_range "1" "9" b then [(one b, r')] else []
             | _ => []
             end
      | _ => []
      end
  end.

Record fields : Type := mkfields { fY : Z; fm : Z; fd : Z }.

Definition set_field (it : item) (v : Z) (f : fields) : fields :=
  match it with
  | Lit _ => f
  | DirY => mkfields v (fm f) (fd f)
  | Dirm => mkfields (fY f) v (fd f)
  | Dird => mkfields (fY f) (fm f) v
  end.

(** The first candidate for which the continuation [k] matches. *)
Fixpoint first_some {B} (k : Z → string → option B) (cs : list (Z * string))
  : option B :=
  match cs with
  | [] => None
  | (v, r) :: cs' =>
      match k v r with
      | Some res => Some res
      | None => first_some k cs'
      end
  end.

(** [format_regex.match(data_string)]: the first match by backtracking. *)
Fixpoint regex_match (items : list item) (s : string) (f : fields)
  : option (fields * string) :=
  match items with
  | [] => Some (f, s)
  | it :: items' =>
      first_some (fun v r => regex_match items' r (set_field it v f))
        (candidates it s)
  end.

(** [datetime.strptime(data_string, fmt).date()]; the fields not given by
    the format default to 1900-01-01.  The messages are abridged. *)
Definition strptime (data_string fmt : string) : result date :=
  match compile fmt with
  | None => Raise (ValueError "format outside the model")
  | Some items =>
      match regex_match items data_string (mkfields 1900 1 1) with
      | None => Raise (ValueError "time data does not match format")
      | Some (f, rest) =>
          if negb (String.eqb rest "")
          then Raise (ValueError "unconverted data remains")
          else date_ (fY f) (fm f) (fd f)
      end
  end.

End datetime.
Import datetime.

(** ** app.py *)

Module App.

Definition parse_decimal (value : option string) : result Decimal :=
  match value with
  | None => Raise (ValueError "missing")
  | Some value =>
      let s := Str.strip value in
      if String.eqb s "" then Raise (ValueError "missing")
      else
        let s :=
          if Str.contains "," s && Str.contains "." s then
            if Str.rfind "," s >? Str.rfind "." s
            then Str.replace "," "." (Str.replace "." "" s)
            else Str.replace "," "" s
          else
            if Str.contains "," s && negb (Str.contains "." s)
            then Str.replace "," "." s
            else s in
        except_InvalidOperation
          (d ← Decimal_ s; quantize d (Finite false 1 (-2)))
          "invalid number"
  end.

(** [today] is the value of [date.today()] at the call. *)
Definition parse_date (today : date) (value : string) : result date :=
  if String.eqb value "" then OK today
  else
    except_ValueError (strptime value "%Y-%m-%d") "invalid date".

Definition iso (d : date) : string := isoformat d.

(** *** The models and the store

    A row of the table [accounts] and a row of [balance_points]; the two
    [id] and [created_at] columns of [BalancePoint] carry the prefix
    [point_].  [created_at] is a time stamp, a number. *)

Record Account : Type := mkAccount {
  id : Z;
  name : string;
  account_type : string;
  monthly_payment_enabled : bool;
  monthly_payment_amount : Decimal;
  created_at : Z
}.

Record BalancePoint : Type := mkBalancePoint {
  point_id : Z;
  account_id : Z;
  as_of_date : date;
  balance : Decimal;
  point_created_at : Z
}.

(** The database: the rows of each table in rowid order. *)
Record Store : Type := mkStore {
  accounts : list Account;
  balance_points : list BalancePoint
}.

Definition empty_store : Store := mkStore [] [].

(** The id an INTEGER PRIMARY KEY column gives a new row. *)
Definition next_id (ids : list Z) : Z := 1 + foldr Z.max 0 ids.

(** [Account.query.get(account_id)] *)
Definition get_account (db : Store) (account_id : Z) : option Account :=
  find (fun a => id a =? account_id) (accounts db).

(** [Account.query.filter_by(name=name).first()] *)
Definition account_by_name (db : Store) (n : string) : option Account :=
  find (fun a => String.eqb (name a) n) (accounts db).

(** [BalancePoint.query.filter_by(account_id=a, as_of_date=d).first()] *)
Definition point_at (db : Store) (a : Z) (d : date) : option BalancePoint :=
  find (fun p => (account_id p =? a) && bool_decide (as_of_date p = d))
    (balance_points db).

(** [ORDER BY as_of_date ASC] *)
Definition date_asc (p q : BalancePoint) : Prop :=
  date_le (as_of_date p) (as_of_date q).

#[global] Instance date_asc_dec : RelDecision date_asc.
Proof. intros p q. unfold date_asc. apply _. Defined.

(** [ORDER BY as_of_date DESC, created_at DESC] *)
Definition newest_first (p q : BalancePoint) : Prop :=
  date_lt (as_of_date q) (as_of_date p)
  ∨ (as_of_date p = as_of_date q ∧ point_created_at q <= point_created_at p).

#[global] Instance newest_first_dec : RelDecision newest_first.
Proof. intros p q. unfold newest_first. apply _. Defined.

(** The relationship [Account.balances]. *)
Definition balances (db : Store) (self : Account) : list BalancePoint :=
  merge_sort newest_first
    (filter (fun p => account_id p = id self) (balance_points db)).

Definition current_balance (db : Store) (self : Account) : Decimal :=
  match balances db self with
  | [] => Finite false 0 (-2)
  | p :: _ => balance p
  end.

Definition monthly_payment (self : Account) : Decimal :=
  if negb (monthly_payment_enabled self) then Finite false 0 (-2)
  else monthly_payment_amount self.

(** *** The series builders

    [float] stands for Python's floating-point numbers, [float_] for the
    conversion [float(bal)] and [zero] for [0.0]. *)

Section series.

Context {float : Type} (float_ : Decimal → float) (zero : float).

Definition build_account_series (db : Store) (account : Account)
  : list string * list float :=
  let points :=
    merge_sort date_asc
      (filter (fun p => account_id p = id account) (balance_points db)) in
  let labels := (fun p => iso (as_of_date p)) <$> points in
  let values := (fun p => float_ (balance p)) <$> points in
  (labels, values).

Record dataset : Type := mkdataset { label : string; data : list float }.

(** The loop [for account_id, d, bal in all_points]. *)
Definition per_account_of (all_points : list (Z * date * Decimal))
  : gmap Z (gmap date float) :=
  foldl (fun per_account '(account_id, d, bal) =>
           <[account_id := <[d := float_ bal]> (per_account !!! account_id)]>
             per_account)
    ∅ all_points.

(** The loop [for d in all_dates]. *)
Fixpoint carry_forward (date_to_balance : gmap date float)
    (all_dates : list date) (last_value : float) : list float :=
  match all_dates with
  | [] => []
  | d :: all_dates' =>
      let last_value :=
        match date_to_balance !! d with
        | Some v => v
        | None => last_value
        end in
      last_value :: carry_forward date_to_balance all_dates' last_value
  end.

Definition build_stacked_series (db : Store) (accounts : list Account)
  : list string * list dataset :=
  let all_points :=
    (fun p => (account_id p, as_of_date p, balance p))
      <$> merge_sort date_asc (balance_points db) in
  let all_dates :=
    merge_sort date_le
      (elements (list_to_set ((fun row => row.1.2) <$> all_points) : gset date)) in
  let labels := iso <$> all_dates in
  let per_account := per_account_of all_points in
  let datasets :=
    (fun acc =>
       let date_to_balance := default ∅ (per_account !! id acc) in
       mkdataset (name acc) (carry_forward date_to_balance all_dates zero))
      <$> accounts in
  (labels, datasets).

End series.

(** *** The handlers

    A handler maps the store to the store it commits and to the message it
    flashes; [NotFound] is the 404 of [get_or_404], and the parameters of
    the route carry a prime.  [now] is the value of
    [datetime.utcnow()] and [today] that of [date.today()]. *)

Definition flash : Type := string * string.

Definition accounts_create (now : Z) (db : Store)
    (name_raw account_type_raw monthly_enabled_raw monthly_amount_raw : option string)
  : Store * flash :=
  let name' := Str.strip (default "" name_raw) in
  let account_type :=
    Str.strip (match account_type_raw with
               | Some t => if String.eqb t "" then "bank" else t
               | None => "bank"
               end) in
  let monthly_enabled :=
    bool_decide (monthly_enabled_raw = Some "on") in
  let monthly_amount_raw :=
    match monthly_amount_raw with
    | Some t => if String.eqb t "" then "0" else t
    | None => "0"
    end in
  if String.eqb name' "" then (db, ("Account name is required.", "danger"))
  else
    match parse_decimal (Some monthly_amount_raw) with
    | Raise _ => (db, ("Monthly payment amount is not a valid number.", "danger"))
    | OK monthly_amount =>
        let monthly_amount :=
          if negb monthly_enabled then Finite false 0 (-2) else monthly_amount in
        match account_by_name db name' with
        | Some _ => (db, ("An account with that name already exists.", "warning"))
        | None =>
            let acc :=
              mkAccount (next_id (id <$> accounts db)) name' account_type
                monthly_enabled monthly_amount now in
            (mkStore (accounts db ++ [acc])%list (balance_points db),
             ("Account created.", "success"))
        end
    end.

Definition account_settings (db : Store) (account_id' : Z)
    (name_raw account_type_raw monthly_enabled_raw monthly_amount_raw : option string)
  : result (Store * flash) :=
  match get_account db account_id' with
  | None => Raise NotFound
  | Some acc =>
      let name' := Str.strip (default "" name_raw) in
      let account_type :=
        Str.strip (match account_type_raw with
                   | Some t => if String.eqb t "" then "bank" else t
                   | None => "bank"
                   end) in
      let monthly_enabled :=
        bool_decide (monthly_enabled_raw = Some "on") in
      let monthly_amount_raw :=
        match monthly_amount_raw with
        | Some t => if String.eqb t "" then "0" else t
        | None => "0"
        end in
      if String.eqb name' "" then OK (db, ("Account name is required.", "danger"))
      else
        match find (fun a => String.eqb (name a) name' && negb (id a =? id acc))
                (accounts db) with
        | Some _ => OK (db, ("Another account already uses that name.", "warning"))
        | None =>
            match parse_decimal (Some monthly_amount_raw) with
            | Raise _ =>
                OK (db, ("Monthly payment amount is not a valid number.", "danger"))
            | OK monthly_amount =>
                let monthly_amount :=
                  if negb monthly_enabled then Finite false 0 (-2)
                  else monthly_amount in
                let acc' :=
                  mkAccount (id acc) name' account_type monthly_enabled
                    monthly_amount (created_at acc) in
                OK (mkStore
                      ((fun a => if id a =? id acc then acc' else a)
                         <$> accounts db)
                      (balance_points db),
                    ("Settings updated.", "success"))
            end
        end
  end.

(** [db.session.delete(acc)]: the relationship cascades ("all,
    delete-orphan"), so the points of the account are deleted with it. *)
Definition account_delete (db : Store) (account_id' : Z)
  : result (Store * flash) :=
  match get_account db account_id' with
  | None => Raise NotFound
  | Some acc =>
      OK (mkStore
            (filter (fun a => id a ≠ id acc) (accounts db))
            (filter (fun p => account_id p ≠ id acc) (balance_points db)),
          ("Account deleted.", "info"))
  end.

Definition balance_add (today : date) (now : Z) (db : Store) (account_id' : Z)
    (as_of_date_form balance_form : option string)
  : result (Store * flash) :=
  match get_account db account_id' with
  | None => Raise NotFound
  | Some acc =>
      let as_of_date_raw := default "" as_of_date_form in
      let balance_raw := default "" balance_form in
      match parse_date today as_of_date_raw with
      | Raise _ => OK (db, ("Date must be in YYYY-MM-DD format.", "danger"))
      | OK d =>
          match parse_decimal (Some balance_raw) with
          | Raise _ => OK (db, ("Balance is not a valid number.", "danger"))
          | OK bal =>
              match point_at db (id acc) d with
              | Some point =>
                  OK (mkStore (accounts db)
                        ((fun p =>
                            if point_id p =? point_id point
                            then mkBalancePoint (point_id p) (account_id p)
                                   (as_of_date p) bal (point_created_at p)
                            else p) <$> balance_points db),
                      ("Balance updated for that date.", "success"))
              | None =>
                  let point :=
                    mkBalancePoint (next_id (point_id <$> balance_points db))
                      (id acc) d bal now in
                  OK (mkStore (accounts db) (balance_points db ++ [point])%list,
                      ("Balance point added.", "success"))
              end
          end
      end
  end.

Definition balance_delete (db : Store) (point_id' : Z)
  : result (Store * flash) :=
  match find (fun p => point_id p =? point_id') (balance_points db) with
  | None => Raise NotFound
  | Some point =>
      OK (mkStore (accounts db)
            (filter (fun p => point_id p ≠ point_id point)
               (balance_points db)),
          ("Balance point deleted.", "info"))
  end.

(** *** The pages *)

(** [ORDER BY name ASC]: the names compare character by character. *)
Definition name_asc (a b : Account) : Prop :=
  String.leb (name a) (name b) = true.

#[global] Instance name_asc_dec : RelDecision name_asc.
Proof. intros a b. unfold name_asc. apply _. Defined.

(** [func.max(BalancePoint.as_of_date)]: [None] for an empty table. *)
Definition max_date (dates : list date) : option date :=
  foldr (fun d m =>
           match m with
           | Some d' => Some (if decide (date_le d d') then d' else d)
           | None => Some d
           end) None dates.

Section pages.

Context {float : Type} (float_ : Decimal → float) (zero : float).

(** What the template of the dashboard receives. *)
Record dashboard_page : Type := mkdashboard_page {
  page_accounts : list Account;
  total_balance : Decimal;
  total_monthly : Decimal;
  last_update : option date;
  chart_labels : list string;
  chart_datasets : list (@dataset float)
}.

Definition dashboard (db : Store) : arithmetic.outcome dashboard_page :=
  let accounts := merge_sort name_asc (accounts db) in
  total_balance ← arithmetic.sum (current_balance db <$> accounts) (Finite false 0 (-2));
  total_monthly ← arithmetic.sum (monthly_payment <$> accounts) (Finite false 0 (-2));
  let last_update := max_date (as_of_date <$> balance_points db) in
  let '(chart_labels, chart_datasets) :=
    build_stacked_series float_ zero db accounts in
  arithmetic.Value (mkdashboard_page accounts total_balance total_monthly last_update
           chart_labels chart_datasets).

Definition accounts_list (db : Store) : list Account :=
  merge_sort name_asc (accounts db).

(** The account, the series of its chart and the default of the date
    field. *)
Definition account_detail (today : date) (db : Store) (account_id' : Z)
  : result (Account * (list string * list float) * string) :=
  match get_account db account_id' with
  | None => Raise NotFound
  | Some acc => OK (acc, build_account_series float_ db acc, isoformat today)
  end.

End pages.

End App.

(** ** [csv.DictReader]

    The rows are those [csv.reader] yields for the text; reading the file
    and the choice of the dialect are not modelled. *)

Module csv.

(** A value of a row's dict: a field, [None] for a missing field
    ([restval]), or the list of the fields beyond the header ([restkey]). *)
Inductive cell : Type :=
| Field (s : string)
| NoField
| Rest (l : list string).

(** [d[k] = v] on a dict kept in insertion order. *)
Fixpoint dict_set {K V} `{EqDecision K} (k : K) (v : V) (d : list (K * V))
  : list (K * V) :=
  match d with
  | [] => [(k, v)]
  | (k', v') :: d' =>
      if decide (k' = k) then (k, v) :: d' else (k', v') :: dict_set k v d'
  end.

Fixpoint dict_get {K V} `{EqDecision K} (k : K) (d : list (K * V)) : option V :=
  match d with
  | [] => None
  | (k', v) :: d' => if decide (k' = k) then Some v else dict_get k d'
  end.

(** The dict [DictReader.__next__] builds for a row that is not empty; the
    key [None] is [restkey]. *)
Definition row_dict (fieldnames row : list string)
  : list (option string * cell) :=
  let d :=
    foldl (fun d '(k, v) => dict_set (Some k) (Field v) d) []
      (zip fieldnames row) in
  let lf := List.length fieldnames in
  let lr := List.length row in
  if (lf <? lr)%nat then dict_set None (Rest (drop lf row)) d
  else if (lr <? lf)%nat then
    foldl (fun d key => dict_set (Some key) NoField d) d (drop lr fieldnames)
  else d.

(** [reader.fieldnames] and the dicts of the rows that follow; empty rows
    are passed over. *)
Definition DictReader (rows : list (list string))
  : option (list string) * list (list (option string * cell)) :=
  match rows with
  | [] => (None, [])
  | fieldnames :: rows' =>
      (Some fieldnames,
       row_dict fieldnames <$> filter (fun row => row ≠ []) rows')
  end.

End csv.
Import csv.

(** ** import.py *)

Module Importer.

Import App.

Definition parse_date_ddmmyyyy (value : option string) : result date :=
  let value := Str.strip (default "" value) in
  if String.eqb value "" then Raise (ValueError "Empty date")
  else strptime value "%d.%m.%Y".

Definition parse_decimal (value : option string) : result Decimal :=
  match value with
  | None => Raise (ValueError "missing")
  | Some value =>
      let s := Str.strip value in
      if String.eqb s "" then Raise (ValueError "missing")
      else
        let s :=
          if Str.contains "," s && Str.contains "." s then
            if Str.rfind "," s >? Str.rfind "." s
            then Str.replace "," "." (Str.replace "." "" s)
            else Str.replace "," "" s
          else
            if Str.contains "," s && negb (Str.contains "." s)
            then Str.replace "," "." s
            else s in
        except_InvalidOperation
          (d ← Decimal_ s; quantize d (Finite false 1 (-2)))
          ("invalid number: " +:+ value)
  end.

Record stats : Type := mkstats {
  rows_total : Z;
  created_accounts : Z;
  inserted_points : Z;
  updated_points : Z;
  skipped_rows : Z
}.

(** The items of the dict comprehension of [norm_row], in order;
    [k.strip()] raises on the key [None]. *)
Fixpoint norm_items (row : list (option string * cell))
  : result (list (string * cell)) :=
  match row with
  | [] => OK []
  | (k, v) :: row' =>
      match k with
      | None =>
          Raise (AttributeError "'NoneType' object has no attribute 'strip'")
      | Some k =>
          rest ← norm_items row';
          OK ((Str.lower (Str.strip k),
               match v with
               | Field s => Field (Str.strip s)
               | _ => v
               end) :: rest)
      end
  end.

Definition norm_row (row : list (option string * cell))
  : result (list (string * cell)) :=
  items ← norm_items row;
  OK (foldl (fun d '(k, v) => dict_set k v d) [] items).

(** [row[key]] *)
Definition getitem (row : list (string * cell)) (key : string) : result cell :=
  match dict_get key row with
  | Some v => OK v
  | None => Raise (KeyError key)
  end.

(** The statements of the [try] block. *)
Definition parse_row (row : list (string * cell))
  : result (date * string * Decimal) :=
  date_cell ← getitem row "date";
  d ← match date_cell with
      | Field s => parse_date_ddmmyyyy (Some s)
      | NoField => parse_date_ddmmyyyy None
      | Rest _ => Raise (AttributeError "'list' object has no attribute 'strip'")
      end;
  name_cell ← getitem row "accountname";
  name' ← match name_cell with
         | Field s => OK (Str.strip s)
         | NoField =>
             Raise (AttributeError "'NoneType' object has no attribute 'strip'")
         | Rest _ =>
             Raise (AttributeError "'list' object has no attribute 'strip'")
         end;
  balance_cell ← getitem row "balance";
  bal ← match balance_cell with
        | Field s => parse_decimal (Some s)
        | NoField => parse_decimal None
        | Rest _ =>
            Raise (AttributeError "'list' object has no attribute 'strip'")
        end;
  OK (d, name', bal).

(** The body of the loop [for raw in reader]. *)
Definition import_row (now : Z) (st : Store * stats)
    (raw : list (option string * cell)) : result (Store * stats) :=
  let '(db, s) := st in
  let total := rows_total s + 1 in
  row ← norm_row raw;
  match parse_row row with
  | Raise _ =>
      OK (db, mkstats total (created_accounts s) (inserted_points s)
                (updated_points s) (skipped_rows s + 1))
  | OK (d, name', bal) =>
      if String.eqb name' "" then
        OK (db, mkstats total (created_accounts s) (inserted_points s)
                  (updated_points s) (skipped_rows s + 1))
      else
        let '(db, acc, created) :=
          match account_by_name db name' with
          | Some acc => (db, acc, created_accounts s)
          | None =>
              let acc :=
                mkAccount (next_id (id <$> accounts db)) name' "other" false
                  (Finite false 0 (-2)) now in
              (mkStore (accounts db ++ [acc])%list (balance_points db), acc,
               created_accounts s + 1)
          end in
        match point_at db (id acc) d with
        | Some point =>
            OK (mkStore (accounts db)
                  ((fun p =>
                      if point_id p =? point_id point
                      then mkBalancePoint (point_id p) (account_id p)
                             (as_of_date p) bal (point_created_at p)
                      else p) <$> balance_points db),
                mkstats total created (inserted_points s)
                  (updated_points s + 1) (skipped_rows s))
        | None =>
            let point :=
              mkBalancePoint (next_id (point_id <$> balance_points db))
                (id acc) d bal now in
            OK (mkStore (accounts db) (balance_points db ++ [point])%list,
                mkstats total created (inserted_points s + 1)
                  (updated_points s) (skipped_rows s))
        end
  end.

(** The loop: an exception that leaves the body ends it. *)
Fixpoint import_rows (now : Z) (st : Store * stats)
    (rows : list (list (option string * cell))) : result (Store * stats) :=
  match rows with
  | [] => OK st
  | raw :: rows' => st' ← import_row now st raw; import_rows now st' rows'
  end.

(** [import_csv] from the rows of the file on: the store that is committed
    and the counters.  When it raises, nothing is committed. *)
Definition import_csv (now : Z) (db : Store) (rows : list (list string))
  : result (Store * stats) :=
  let '(reader_fieldnames, reader) := DictReader rows in
  let fieldnames :=
    (fun f => Str.lower (Str.strip f)) <$> default [] reader_fieldnames in
  if negb (bool_decide ("date" ∈ fieldnames)
           && bool_decide ("accountname" ∈ fieldnames)
           && bool_decide ("balance" ∈ fieldnames))
  then Raise (ValueError "CSV must contain headers: date, accountname, balance.")
  else import_rows now (db, mkstats 0 0 0 0 0) reader.

End Importer.

(** ** The rules of the specification, in its own words

    These definitions follow the text of the specification, not the code;
    the theorems below compare them with the code. *)

Module Spec.

(** Rule 5: parse as a fixed-point decimal and quantize to two fractional
    digits. *)
Definition fixed_point (s : string) : result Decimal :=
  d ← Decimal_ s; quantize d (Finite false 1 (-2)).

Definition is_separator (c : ascii) : bool :=
  Ascii.eqb c "," || Ascii.eqb c ".".

(** The separator that occurs later than every other separator. *)
Fixpoint rightmost_separator (s : string) : option ascii :=
  match s with
  | String a s' =>
      match rightmost_separator s' with
      | Some c => Some c
      | None => if is_separator a then Some a else None
      end
  | EmptyString => None
  end.

Definition other_separator (dec : ascii) : ascii :=
  if Ascii.eqb dec "," then "."%char else ","%char.

(** Rule 2: the separator [dec] is read as the decimal point and every
    occurrence of the other one is stripped. *)
Fixpoint read_with (dec : ascii) (s : string) : string :=
  match s with
  | String a s' =>
      if Ascii.eqb a (other_separator dec) then read_with dec s'
      else if Ascii.eqb a dec then String "." (read_with dec s')
      else String a (read_with dec s')
  | EmptyString => EmptyString
  end.

(** Rules 2 to 4 together: with a separator in the string, the rightmost
    one is the decimal separator (a lone comma is one, rule 3; a lone point
    stays, rule 4); without any, the string is used as it is. *)
Definition normalized (s : string) : string :=
  match rightmost_separator s with
  | Some dec => read_with dec s
  | None => s
  end.

(** The hundredth next to [c] thousandths, taking the even one of the two
    when [c] ends in 5. *)
Definition half_even (c : N) : N :=
  (if N.even (c / 10) then c / 10 else c / 10 + 1)%N.

(** *** Carry-forward *)

(** [v] is the value of account [acc] on the date [d]: the balance of a
    latest observation of the account on or before [d], or zero when the
    account has none. *)
Definition latest_value {float : Type} (float_ : Decimal → float) (zero : float)
    (db : App.Store) (acc : App.Account) (d : date) (v : float) : Prop :=
  (v = zero
   ∧ ∀ q, q ∈ App.balance_points db → App.account_id q = App.id acc →
          ¬ date_le (App.as_of_date q) d)
  ∨ (∃ p, p ∈ App.balance_points db
          ∧ App.account_id p = App.id acc
          ∧ date_le (App.as_of_date p) d
          ∧ (∀ q, q ∈ App.balance_points db →
                  App.account_id q = App.id acc →
                  date_le (App.as_of_date q) d →
                  date_le (App.as_of_date q) (App.as_of_date p))
          ∧ v = float_ (App.balance p)).

(** *** Date texts *)

(** [t] is four digits that write the year [y]. *)
Definition four_digits (t : string) (y : Z) : Prop :=
  String.length t = 4%nat ∧ Str.all Str.isdigit t = true
  ∧ Z.of_N (Str.int t) = y.

(** The ways [strptime] lets a month be written: two digits, or without the
    leading zero. *)
Definition month_texts : list (Z * string) :=
  m ← seqZ 1 12; [(m, zfill 2 m); (m, Str.of_N (Z.to_N m))].

(** The ways [strptime] lets a day be written: two digits, without the
    leading zero, or with a space in its place. *)
Definition day_texts : list (Z * string) :=
  d ← seqZ 1 31;
  ([(d, zfill 2 d); (d, Str.of_N (Z.to_N d))]
   ++ (if d <? 10 then [(d, " " +:+ Str.of_N (Z.to_N d))] else []))%list.

(** Year, month and day in this order, joined by [sep]. *)
Definition ymd_text (sep : string) (s : string) (d : date) : Prop :=
  ∃ yt mt dt,
    s = yt +:+ sep +:+ mt +:+ sep +:+ dt
    ∧ four_digits yt (year d)
    ∧ In (month d, mt) month_texts ∧ In (day d, dt) day_texts.

(** Day, month and year in this order, joined by [sep]. *)
Definition dmy_text (sep : string) (s : string) (d : date) : Prop :=
  ∃ dt mt yt,
    s = dt +:+ sep +:+ mt +:+ sep +:+ yt
    ∧ four_digits yt (year d)
    ∧ In (month d, mt) month_texts ∧ In (day d, dt) day_texts.

(** The fields are those of a date of the calendar. *)
Definition valid_date (d : date) : Prop :=
  date_ (year d) (month d) (day d) = OK d.



End Spec.

(** The value a call returned, if it returned. *)
Definition returned {A} (r : result A) : option A :=
  match r with
  | OK a => Some a
  | Raise _ => None
  end.

(** ** Vocabulary of the proofs *)

(** The characters [str] writes for a quantized amount. *)
Definition safe (c : ascii) : bool :=
  Str.isdigit c || Ascii.eqb c "-" || Ascii.eqb c "." || Ascii.eqb c "N"
  || Ascii.eqb c "a".


Definition sign_string (sign : bool) : string := if sign then "-" else "".

(** The store of the example of the specification: account A observed on
    2024-01-01 (100) and 2024-03-01 (300), account B on 2024-02-01 (50). *)
Definition account_A : App.Account :=
  App.mkAccount 1 "A" "bank" false (Finite false 0 (-2)) 0.

Definition account_B : App.Account :=
  App.mkAccount 2 "B" "bank" false (Finite false 0 (-2)) 0.

Definition example_store : App.Store :=
  App.mkStore [account_A; account_B]
    [App.mkBalancePoint 1 1 (mkdate 2024 3 1) (Finite false 30000 (-2)) 0;
     App.mkBalancePoint 2 2 (mkdate 2024 2 1) (Finite false 5000 (-2)) 0;
     App.mkBalancePoint 3 1 (mkdate 2024 1 1) (Finite false 10000 (-2)) 0].

(** *** The store *)

(** The entry of the dict of dicts for an account and a date. *)
Definition entry {float : Type} (per_account : gmap Z (gmap date float))
    (a : Z) (d : date)
  : option float :=
  default ∅ (per_account !! a) !! d.

(** The shared axis of a store. *)
Definition axis (db : App.Store) : list date :=
  merge_sort date_le
    (elements
       (list_to_set
          ((fun row : Z * date * Decimal => row.1.2)
             <$> ((fun p => (App.account_id p, App.as_of_date p, App.balance p))
                    <$> merge_sort App.date_asc (App.balance_points db)))
        : gset date)).


(** The constraint [uq_account_date]: at most one observation for an account
    and a date. *)
Definition uq_account_date (db : App.Store) : Prop :=
  NoDup ((fun p => (App.account_id p, App.as_of_date p))
           <$> App.balance_points db).

(** The observations stored for an account and a date. *)
Definition observations_at (db : App.Store) (a : Z) (d : date)
  : list App.BalancePoint :=
  filter (fun p => (App.account_id p, App.as_of_date p) = (a, d))
    (App.balance_points db).

(** The statements that [balance_add] and [import_csv] share: update the
    point of the account and the date, or add one. *)
Definition upsert (now : Z) (db : App.Store) (a : Z) (d : date) (bal : Decimal)
  : App.Store :=
  match App.point_at db a d with
  | Some point =>
      App.mkStore (App.accounts db)
        ((fun p =>
            if App.point_id p =? App.point_id point
            then App.mkBalancePoint (App.point_id p) (App.account_id p)
                   (App.as_of_date p) bal (App.point_created_at p)
            else p) <$> App.balance_points db)
  | None =>
      App.mkStore (App.accounts db)
        (App.balance_points db
         ++ [App.mkBalancePoint
               (App.next_id (App.point_id <$> App.balance_points db))
               a d bal now])%list
  end.

(** The operations on the store: the requests the application serves and
    a run of the importer. *)
Inductive request : Type :=
| AccountsCreate (name account_type monthly_enabled monthly_amount : option string)
| AccountSettings (account_id : Z)
    (name account_type monthly_enabled monthly_amount : option string)
| AccountDelete (account_id : Z)
| BalanceAdd (account_id : Z) (as_of_date balance : option string)
| BalanceDelete (point_id : Z)
| ImportCsv (rows : list (list string)).

(** The store an operation commits; a request that ends in an error
    commits nothing. *)
Definition committed (db : App.Store) (r : result (App.Store * App.flash))
  : App.Store :=
  match r with
  | OK (db', _) => db'
  | Raise _ => db
  end.

Definition handle (today : date) (now : Z) (db : App.Store) (r : request)
  : App.Store :=
  match r with
  | AccountsCreate n t e a => (App.accounts_create now db n t e a).1
  | AccountSettings i n t e a => committed db (App.account_settings db i n t e a)
  | AccountDelete i => committed db (App.account_delete db i)
  | BalanceAdd i d b => committed db (App.balance_add today now db i d b)
  | BalanceDelete i => committed db (App.balance_delete db i)
  | ImportCsv rows =>
      match Importer.import_csv now db rows with
      | OK (db', _) => db'
      | Raise _ => db
      end
  end.



(** The update of [point.balance = bal]. *)
Definition set_balance (point : App.BalancePoint) (bal : Decimal) (p : App.BalancePoint)
  : App.BalancePoint :=
  if App.point_id p =? App.point_id point
  then App.mkBalancePoint (App.point_id p) (App.account_id p) (App.as_of_date p) bal
         (App.point_created_at p)
  else p.

(** The store with the account a row names, created when it is new. *)
Definition with_account (now : Z) (db : App.Store) (n : string) : App.Store * App.Account :=
  match App.account_by_name db n with
  | Some acc => (db, acc)
  | None =>
      let acc :=
        App.mkAccount (App.next_id (App.id <$> App.accounts db)) n "other" false
          (Finite false 0 (-2)) now in
      (App.mkStore (App.accounts db ++ [acc])%list (App.balance_points db), acc)
  end.

(** The counters after a row that is skipped. *)
Definition skipped (s : Importer.stats) : Importer.stats :=
  Importer.mkstats (Importer.rows_total s + 1) (Importer.created_accounts s) (Importer.inserted_points s)
    (Importer.updated_points s) (Importer.skipped_rows s + 1).

(** The counters after a row that writes the date [d] for the account
    named [n]. *)
Definition written (now : Z) (db : App.Store) (n : string) (d : date) (s : Importer.stats)
  : Importer.stats :=
  let created :=
    match App.account_by_name db n with
    | Some _ => Importer.created_accounts s
    | None => Importer.created_accounts s + 1
    end in
  match App.point_at (with_account now db n).1 (App.id (with_account now db n).2) d with
  | Some _ =>
      Importer.mkstats (Importer.rows_total s + 1) created (Importer.inserted_points s)
        (Importer.updated_points s + 1) (Importer.skipped_rows s)
  | None =>
      Importer.mkstats (Importer.rows_total s + 1) created (Importer.inserted_points s + 1)
        (Importer.updated_points s) (Importer.skipped_rows s)
  end.





(** The check of the header. *)
Definition header_ok (fieldnames : list string) : bool :=
  let names := (fun f => Str.lower (Str.strip f)) <$> fieldnames in
  bool_decide ("date" ∈ names) && bool_decide ("accountname" ∈ names)
  && bool_decide ("balance" ∈ names).

(** The exception of [k.strip()] on the key [None]. *)
Definition no_strip : exn :=
  AttributeError "'NoneType' object has no attribute 'strip'".

(** *** More of the store, of the import and of the parser *)


(** The primary keys: no two rows of a table share an [id]. *)
Definition primary_keys (db : App.Store) : Prop :=
  NoDup (App.id <$> App.accounts db)
  ∧ NoDup (App.point_id <$> App.balance_points db).

(** The constraint [unique=True] of [Account.name]. *)
Definition uq_name (db : App.Store) : Prop :=
  NoDup (App.name <$> App.accounts db).

(** The foreign key of [BalancePoint.account_id]: every observation belongs
    to an account of the store. *)
Definition foreign_keys (db : App.Store) : Prop :=
  Forall (fun p => App.account_id p ∈ App.id <$> App.accounts db)
    (App.balance_points db).

(** The columns of an observation that a write of its balance leaves. *)
Definition shape (p : App.BalancePoint) : Z * Z * date * Z :=
  (App.point_id p, App.account_id p, App.as_of_date p, App.point_created_at p).

Definition store_after_import : App.Store * Importer.stats :=
  Eval vm_compute in
    match Importer.import_csv 20 example_store
            [["date"; "accountname"; "balance"]; ["01.01.2024"; "A"; "7"];
             ["x"; "A"; "7"]; ["05.01.2024"; "C"; "1,5"]] with
    | OK r => r
    | Raise _ => (example_store, Importer.mkstats 0 0 0 0 0)
    end.

(** What a row of the import writes: the name of the account, the date and
    the amount; nothing when the row is skipped. *)
Definition row_write_of (raw : list (option string * cell))
  : option (string * date * Decimal) :=
  match Importer.norm_row raw with
  | OK row =>
      match Importer.parse_row row with
      | OK (d, n, bal) => if String.eqb n "" then None else Some (n, d, bal)
      | Raise _ => None
      end
  | Raise _ => None
  end.

(** The store after a row that is written. *)
Definition apply_write (now : Z) (db : App.Store) (w : string * date * Decimal)
  : App.Store :=
  upsert now (with_account now db w.1.1).1
    (App.id (with_account now db w.1.1).2) w.1.2 w.2.

(** The amount of the last write of a run for an account and a date. *)
Fixpoint last_write (writes : list (string * date * Decimal))
    (n : string) (d : date) : option Decimal :=
  match writes with
  | [] => None
  | w :: writes' =>
      match last_write writes' n d with
      | Some bal => Some bal
      | None => if decide (w.1 = (n, d)) then Some w.2 else None
      end
  end.

(** The constraints of the schema together. *)
Definition constraints (db : App.Store) : Prop :=
  primary_keys db ∧ uq_account_date db ∧ uq_name db ∧ foreign_keys db.

(** Every stored date is a date of the calendar. *)
Definition dates_valid (db : App.Store) : Prop :=
  Forall (fun p => Spec.valid_date (App.as_of_date p)) (App.balance_points db).

(** The amount of a quantized decimal in hundredths. *)
Definition cents (d : Decimal) : option Z :=
  match d with
  | Finite sign c e =>
      if e =? -2 then Some (if sign then - Z.of_N c else Z.of_N c) else None
  | _ => None
  end.

(** The decimal of an amount in hundredths. *)
Definition of_cents (z : Z) : Decimal := Finite (z <? 0) (Z.abs_N z) (-2).

Definition total_cents (l : list Decimal) : Z :=
  foldr (fun d z => default 0 (cents d) + z) 0 l.

Definition total_abs_cents (l : list Decimal) : Z :=
  foldr (fun d z => Z.abs (default 0 (cents d)) + z) 0 l.



(** The number of occurrences of the character [c] in [s]. *)
Fixpoint occurrences (c : ascii) (s : string) : nat :=
  match s with
  | String a s' => (if Ascii.eqb a c then 1 else 0) + occurrences c s'
  | EmptyString => 0
  end.

(** The characters of the text of a number: digits, signs, the decimal
    point, the mark of the exponent and the letters of NaN. *)
Definition number_char (c : ascii) : bool :=
  Str.isdigit c || Ascii.eqb c "+" || Ascii.eqb c "-" || Ascii.eqb c "."
  || Ascii.eqb c "e" || Ascii.eqb c "E" || Ascii.eqb c "n" || Ascii.eqb c "N"
  || Ascii.eqb c "a" || Ascii.eqb c "A".

(** The characters of an amount that [parse_decimal] reads: those of a
    number, the comma and the underscore, and white space. *)
Definition amount_char (c : ascii) : bool :=
  number_char c || Ascii.eqb c "," || Ascii.eqb c "_" || Str.isspace c.

(** * Theorems *)

(** ** Strings *)

Section str_facts.

Import Str.

Lemma append_nil_r (s : string) : s +:+ "" = s.
Proof. induction s; simpl; congruence. Qed.

Lemma append_assoc (a b c : string) : (a +:+ b) +:+ c = a +:+ (b +:+ c).
Proof. induction a; simpl; congruence. Qed.

Lemma length_append (a b : string) :
  String.length (a +:+ b) = (String.length a + String.length b)%nat.
Proof. induction a; simpl; congruence. Qed.

Lemma all_append P a b : all P (a +:+ b) = all P a && all P b.
Proof. induction a; simpl; [done|]. rewrite IHa. by rewrite andb_assoc. Qed.

Lemma all_impl (P Q : ascii → bool) s :
  (∀ c, P c = true → Q c = true) → all P s = true → all Q s = true.
Proof.
  intros HPQ. induction s; simpl; [done|].
  intros [? ?]%andb_prop. rewrite HPQ, IHs; auto.
Qed.

Lemma lstrip_all_space w s : all isspace w = true → lstrip (w +:+ s) = lstrip s.
Proof.
  induction w; simpl; [done|]. intros [Ha Hw]%andb_prop. rewrite Ha. auto.
Qed.

Lemma rstrip_all_space w : all isspace w = true → rstrip w = "".
Proof.
  induction w; simpl; [done|]. intros [Ha Hw]%andb_prop.
  rewrite IHw by done. by rewrite Ha.
Qed.

Lemma rstrip_append_space s w :
  all isspace w = true → rstrip (s +:+ w) = rstrip s.
Proof.
  intros Hw. induction s; simpl.
  - by apply rstrip_all_space.
  - by rewrite IHs.
Qed.

Lemma lstrip_split s : ∃ w, all isspace w = true ∧ s = w +:+ lstrip s.
Proof.
  induction s as [|a s [w [Hw Hs]]]; simpl.
  - by exists "".
  - destruct (isspace a) eqn:Ha.
    + exists (String a w). simpl. rewrite Ha, Hw. split; [done|]. congruence.
    + by exists "".
Qed.

Lemma rstrip_split s : ∃ w, all isspace w = true ∧ s = rstrip s +:+ w.
Proof.
  induction s as [|a s [w [Hw Hs]]]; simpl.
  - by exists "".
  - destruct (rstrip s) eqn:Hr.
    + destruct (isspace a) eqn:Ha.
      * exists (String a w). simpl in *. rewrite Ha, Hw. split; [done|]. congruence.
      * exists w. split; [done|]. simpl in *. congruence.
    + exists w. split; [done|]. simpl in *. congruence.
Qed.

Lemma strip_split s :
  ∃ w1 w2, all isspace w1 = true ∧ all isspace w2 = true
           ∧ s = w1 +:+ strip s +:+ w2.
Proof.
  destruct (lstrip_split s) as [w1 [H1 Hs1]].
  destruct (rstrip_split (lstrip s)) as [w2 [H2 Hs2]].
  exists w1, w2. unfold strip. repeat split; try done. congruence.
Qed.

Lemma lstrip_not_space a s : isspace a = false → lstrip (String a s) = String a s.
Proof. simpl. by intros ->. Qed.

Lemma lstrip_head s : match lstrip s with
                      | String a _ => isspace a = false
                      | EmptyString => True
                      end.
Proof. induction s; simpl; [done|]. destruct (isspace a) eqn:?; done. Qed.

Lemma lstrip_append s t :
  lstrip s ≠ "" → lstrip (s +:+ t) = lstrip s +:+ t.
Proof.
  induction s; simpl; [done|]. destruct (isspace a); [auto|done].
Qed.

Lemma lstrip_nil_all_space s : lstrip s = "" → all isspace s = true.
Proof.
  induction s; simpl; [done|]. destruct (isspace a); [auto|done].
Qed.

(** Surrounding whitespace does not change what [strip] returns. *)
Lemma strip_pad w1 s w2 :
  all isspace w1 = true → all isspace w2 = true →
  strip (w1 +:+ s +:+ w2) = strip s.
Proof.
  intros H1 H2. unfold strip. rewrite lstrip_all_space by done.
  destruct (decide (lstrip s = "")) as [Hs|Hs].
  - rewrite Hs. apply lstrip_nil_all_space in Hs.
    assert (all isspace (s +:+ w2) = true) as Hall
        by (rewrite all_append, Hs, H2; done).
    destruct (lstrip_split (s +:+ w2)) as [w [Hw Heq]].
    rewrite Heq, all_append in Hall. apply andb_prop in Hall as [_ Hall].
    simpl. by apply rstrip_all_space.
  - rewrite lstrip_append by done. by apply rstrip_append_space.
Qed.

Lemma strip_idemp s : strip (strip s) = strip s.
Proof.
  destruct (strip_split s) as (w1 & w2 & H1 & H2 & Hs).
  rewrite Hs at 2. by rewrite strip_pad.
Qed.

End str_facts.

(** ** Rules 2 to 4 of the amount parser *)

Section separators.

Import Str Spec.

Lemma contains_append c a b : contains c (a +:+ b) = contains c a || contains c b.
Proof. induction a; simpl; [done|]. rewrite IHa. by rewrite orb_assoc. Qed.

Lemma contains_all_space c w :
  isspace c = false → all isspace w = true → contains c w = false.
Proof.
  intros Hc. induction w; simpl; [done|]. intros [Ha Hw]%andb_prop.
  rewrite IHw by done. destruct (Ascii.eqb_spec a c); [congruence|done].
Qed.

Lemma contains_strip c s : isspace c = false → contains c (strip s) = contains c s.
Proof.
  intros Hc. destruct (strip_split s) as (w1 & w2 & H1 & H2 & Hs).
  rewrite Hs at 2. rewrite !contains_append.
  rewrite (contains_all_space c w1), (contains_all_space c w2) by done.
  by rewrite orb_false_r.
Qed.

Lemma strip_nil_all_space s : strip s = "" → all isspace s = true.
Proof.
  intros Hs. destruct (strip_split s) as (w1 & w2 & H1 & H2 & Heq).
  rewrite Heq, Hs, !all_append, H1, H2. done.
Qed.

Lemma contains_strip_nonempty c s :
  isspace c = false → contains c s = true → strip s ≠ "".
Proof.
  intros Hc Hs Hnil. apply strip_nil_all_space in Hnil.
  by rewrite (contains_all_space c s) in Hs.
Qed.

Lemma rightmost_separator_append a b :
  rightmost_separator (a +:+ b) =
    match rightmost_separator b with
    | Some c => Some c
    | None => rightmost_separator a
    end.
Proof.
  induction a; simpl.
  - by destruct (rightmost_separator b).
  - rewrite IHa. by destruct (rightmost_separator b).
Qed.

Lemma rightmost_separator_all_space w :
  all isspace w = true → rightmost_separator w = None.
Proof.
  induction w; simpl; [done|]. intros [Ha Hw]%andb_prop. rewrite IHw by done.
  unfold is_separator.
  destruct (Ascii.eqb_spec a ","), (Ascii.eqb_spec a "."); subst; done.
Qed.

Lemma rightmost_separator_strip s :
  rightmost_separator (strip s) = rightmost_separator s.
Proof.
  destruct (strip_split s) as (w1 & w2 & H1 & H2 & Hs).
  rewrite Hs at 2. rewrite !rightmost_separator_append.
  rewrite (rightmost_separator_all_space w1), (rightmost_separator_all_space w2) by done.
  by destruct (rightmost_separator (strip s)).
Qed.

Lemma rightmost_separator_is_separator s c :
  rightmost_separator s = Some c → c = ","%char ∨ c = "."%char.
Proof.
  induction s; simpl; [done|].
  destruct (rightmost_separator s); [auto|].
  unfold is_separator.
  destruct (Ascii.eqb_spec a ","), (Ascii.eqb_spec a "."); simpl;
    intros [= <-]; auto.
Qed.

Lemma rightmost_separator_None s c :
  rightmost_separator s = None → is_separator c = true → contains c s = false.
Proof.
  intros Hs Hc. induction s; simpl in *; [done|].
  destruct (rightmost_separator s); [done|].
  destruct (is_separator a) eqn:Ha; [done|].
  rewrite IHs by done. destruct (Ascii.eqb_spec a c); [congruence|done].
Qed.

(** [rfind] and the rightmost separator agree. *)
Lemma rfind_from_rightmost s i lc ld :
  lc < i → ld < i →
  match rightmost_separator s with
  | Some c =>
      if Ascii.eqb c ","
      then rfind_from "." s i ld < rfind_from "," s i lc
      else rfind_from "," s i lc < rfind_from "." s i ld
  | None => rfind_from "," s i lc = lc ∧ rfind_from "." s i ld = ld
  end.
Proof.
  revert i lc ld. induction s; intros i lc ld Hc Hd; simpl; [done|].
  specialize (IHs (i + 1) (if Ascii.eqb a "," then i else lc)
                  (if Ascii.eqb a "." then i else ld)).
  destruct (rightmost_separator s) as [c|].
  - apply IHs; clear IHs; destruct (Ascii.eqb a _); lia.
  - destruct IHs as [-> ->];
      [destruct (Ascii.eqb a ","); lia | destruct (Ascii.eqb a "."); lia |].
    unfold is_separator.
    destruct (Ascii.eqb_spec a ","), (Ascii.eqb_spec a "."); subst; simpl;
      try done; lia.
Qed.

Lemma rfind_rightmost s c :
  rightmost_separator s = Some c →
  (rfind "," s >? rfind "." s) = Ascii.eqb c ",".
Proof.
  intros Hs.
  assert (-1 < 0) as Hlt by lia.
  pose proof (rfind_from_rightmost s 0 (-1) (-1) Hlt Hlt) as H.
  rewrite Hs in H. unfold rfind. rewrite Z.gtb_ltb.
  destruct (Ascii.eqb c ","); [apply Z.ltb_lt; lia | apply Z.ltb_ge; lia].
Qed.

Lemma replace_comma_dot_read s :
  replace "," "." (replace "." "" s) = read_with "," s.
Proof.
  induction s; simpl; [done|]. change (other_separator ",") with "."%char.
  destruct (Ascii.eqb_spec a "."); simpl; [done|].
  destruct (Ascii.eqb_spec a ","); simpl; congruence.
Qed.

Lemma replace_comma_read s : replace "," "" s = read_with "." s.
Proof.
  induction s; simpl; [done|]. change (other_separator ".") with ","%char.
  destruct (Ascii.eqb_spec a ","); simpl; [done|].
  destruct (Ascii.eqb_spec a "."); subst; simpl; congruence.
Qed.

Lemma read_with_append dec a b :
  read_with dec (a +:+ b) = read_with dec a +:+ read_with dec b.
Proof.
  induction a; simpl; [done|]. rewrite IHa.
  by repeat destruct (Ascii.eqb _ _).
Qed.

Lemma is_separator_inv dec :
  is_separator dec = true → dec = ","%char ∨ dec = "."%char.
Proof.
  unfold is_separator.
  destruct (Ascii.eqb_spec dec ","), (Ascii.eqb_spec dec "."); auto; done.
Qed.

Lemma read_with_all_space dec w :
  is_separator dec = true → all isspace w = true → read_with dec w = w.
Proof.
  intros Hdec%is_separator_inv. induction w; simpl; [done|].
  intros [Ha Hw]%andb_prop. rewrite IHw by done.
  destruct Hdec as [-> | ->]; cbn;
    destruct (Ascii.eqb_spec a ","), (Ascii.eqb_spec a "."); subst; done.
Qed.

Lemma strip_read_with dec s :
  is_separator dec = true →
  strip (read_with dec s) = strip (read_with dec (strip s)).
Proof.
  intros Hdec. destruct (strip_split s) as (w1 & w2 & H1 & H2 & Hs).
  rewrite Hs at 1. rewrite !read_with_append.
  rewrite (read_with_all_space dec w1), (read_with_all_space dec w2) by done.
  by rewrite strip_pad.
Qed.

Lemma read_with_no_comma dec s :
  is_separator dec = true → contains "," (read_with dec s) = false.
Proof.
  intros Hdec%is_separator_inv. induction s; simpl; [done|].
  destruct Hdec as [-> | ->]; cbn;
    destruct (Ascii.eqb_spec a ","), (Ascii.eqb_spec a "."); subst; try done;
    simpl; rewrite IHs; try done;
    destruct (Ascii.eqb_spec a ","); done.
Qed.

Lemma read_with_keeps_point dec s :
  is_separator dec = true → contains dec s = true →
  contains "." (read_with dec s) = true.
Proof.
  intros Hdec%is_separator_inv. induction s; simpl; [done|].
  destruct Hdec as [-> | ->]; cbn;
    destruct (Ascii.eqb_spec a ","), (Ascii.eqb_spec a "."); subst; try done;
    simpl; intros ?; rewrite IHs by done; apply orb_true_r.
Qed.

Lemma rightmost_separator_contains s c :
  rightmost_separator s = Some c → contains c s = true.
Proof.
  induction s; simpl; [done|].
  destruct (rightmost_separator s).
  - intros ?. rewrite IHs by done. by rewrite orb_true_r.
  - destruct (is_separator a); [|done]. intros [= ->].
    by rewrite Ascii.eqb_refl.
Qed.

Lemma of_string_strip s : of_string (strip s) = of_string s.
Proof. unfold of_string. by rewrite strip_idemp. Qed.

Lemma fixed_point_strip s : fixed_point (strip s) = fixed_point s.
Proof. unfold fixed_point, Decimal_. by rewrite of_string_strip. Qed.

Lemma strip_nonempty_eqb s : strip s ≠ "" → String.eqb (strip s) "" = false.
Proof. intros H. by apply String.eqb_neq. Qed.

(** Rule 4: without a comma the string is parsed as it is. *)
Lemma App_parse_decimal_plain t :
  contains "," t = false → strip t ≠ "" →
  App.parse_decimal (Some t)
  = except_InvalidOperation (fixed_point t) "invalid number".
Proof.
  intros Hc Ht. unfold App.parse_decimal.
  rewrite strip_nonempty_eqb by done.
  rewrite !contains_strip, Hc by done. simpl.
  fold (fixed_point (strip t)). by rewrite fixed_point_strip.
Qed.

Lemma Importer_parse_decimal_plain t :
  contains "," t = false → strip t ≠ "" →
  Importer.parse_decimal (Some t)
  = except_InvalidOperation (fixed_point t) ("invalid number: " +:+ t).
Proof.
  intros Hc Ht. unfold Importer.parse_decimal.
  rewrite strip_nonempty_eqb by done.
  rewrite !contains_strip, Hc by done. simpl.
  fold (fixed_point (strip t)). by rewrite fixed_point_strip.
Qed.

Lemma read_with_strip_nonempty dec s :
  rightmost_separator s = Some dec → strip (read_with dec s) ≠ "".
Proof.
  intros Hs. apply (contains_strip_nonempty "."); [done|].
  apply read_with_keeps_point.
  - apply rightmost_separator_is_separator in Hs as [-> | ->]; done.
  - by apply rightmost_separator_contains.
Qed.

Lemma code_separators_read_with s dec :
  rightmost_separator s = Some dec →
  (if rfind "," s >? rfind "." s
   then replace "," "." (replace "." "" s)
   else replace "," "" s) = read_with dec s.
Proof.
  intros Hs. rewrite (rfind_rightmost s dec Hs).
  apply rightmost_separator_is_separator in Hs as [-> | ->]; simpl.
  - apply replace_comma_dot_read.
  - apply replace_comma_read.
Qed.

(** Rule 2, as the code has it. *)
Lemma App_parse_decimal_both s dec :
  contains "," s = true → contains "." s = true →
  rightmost_separator s = Some dec →
  App.parse_decimal (Some s)
  = except_InvalidOperation (fixed_point (read_with dec s)) "invalid number".
Proof.
  intros Hc Hd Hs. unfold App.parse_decimal.
  rewrite strip_nonempty_eqb by by apply (contains_strip_nonempty ",").
  rewrite !contains_strip, Hc, Hd by done. simpl.
  rewrite (code_separators_read_with _ dec)
    by by rewrite rightmost_separator_strip.
  fold (fixed_point (read_with dec (strip s))).
  rewrite <- (fixed_point_strip (read_with dec s)).
  rewrite strip_read_with, fixed_point_strip; [done|].
  apply rightmost_separator_is_separator in Hs as [-> | ->]; done.
Qed.

Lemma Importer_parse_decimal_both s dec :
  contains "," s = true → contains "." s = true →
  rightmost_separator s = Some dec →
  Importer.parse_decimal (Some s)
  = except_InvalidOperation (fixed_point (read_with dec s))
      ("invalid number: " +:+ s).
Proof.
  intros Hc Hd Hs. unfold Importer.parse_decimal.
  rewrite strip_nonempty_eqb by by apply (contains_strip_nonempty ",").
  rewrite !contains_strip, Hc, Hd by done. simpl.
  rewrite (code_separators_read_with _ dec)
    by by rewrite rightmost_separator_strip.
  fold (fixed_point (read_with dec (strip s))).
  rewrite <- (fixed_point_strip (read_with dec s)).
  rewrite strip_read_with, fixed_point_strip; [done|].
  apply rightmost_separator_is_separator in Hs as [-> | ->]; done.
Qed.

Lemma contains_rightmost_separator s c :
  is_separator c = true → contains c s = true →
  ∃ dec, rightmost_separator s = Some dec.
Proof.
  intros Hc Hs. destruct (rightmost_separator s) eqn:Hr; [eauto|].
  by rewrite (rightmost_separator_None s c) in Hs.
Qed.

Lemma returned_except_InvalidOperation {A} (r : result A) msg :
  returned (except_InvalidOperation r msg) = returned r.
Proof. by destruct r as [|[]]. Qed.

End separators.

(** C2. When both [,] and [.] occur in the input, the separator that occurs
    rightmost is the decimal separator and every occurrence of the other one
    is stripped: the amount parsers of [app.py] and [import.py] return what
    rule 5 returns on the string read that way, which is also what they
    return on that string itself; ["1.234,56"] and ["1,234.56"] both parse
    to 1234.56. *)
Theorem parse_decimal_rightmost_separator :
  (∀ s : string,
      Str.contains "," s = true → Str.contains "." s = true →
      ∃ dec,
        Spec.rightmost_separator s = Some dec
        ∧ App.parse_decimal (Some s)
          = except_InvalidOperation
              (Spec.fixed_point (Spec.read_with dec s)) "invalid number"
        ∧ App.parse_decimal (Some s)
          = App.parse_decimal (Some (Spec.read_with dec s))
        ∧ Importer.parse_decimal (Some s)
          = except_InvalidOperation
              (Spec.fixed_point (Spec.read_with dec s))
              ("invalid number: " +:+ s)
        ∧ returned (Importer.parse_decimal (Some s))
          = returned (Importer.parse_decimal (Some (Spec.read_with dec s))))
  ∧ App.parse_decimal (Some "1.234,56") = OK (Finite false 123456 (-2))
  ∧ App.parse_decimal (Some "1,234.56") = OK (Finite false 123456 (-2))
  ∧ Importer.parse_decimal (Some "1.234,56") = OK (Finite false 123456 (-2))
  ∧ Importer.parse_decimal (Some "1,234.56") = OK (Finite false 123456 (-2)).
Proof.
  split; [|by vm_compute].
  intros s Hc Hd.
  destruct (contains_rightmost_separator s "," eq_refl Hc) as [dec Hs].
  assert (Spec.is_separator dec = true) as Hdec
      by (apply rightmost_separator_is_separator in Hs as [-> | ->]; done).
  exists dec. split; [done|].
  rewrite (App_parse_decimal_both s dec), (Importer_parse_decimal_both s dec)
    by done.
  rewrite App_parse_decimal_plain, Importer_parse_decimal_plain
    by eauto using read_with_no_comma, read_with_strip_nonempty.
  by rewrite !returned_except_InvalidOperation.
Qed.

Lemma parse_decimal_rightmost_separator_witness :
  ∃ dec,
    Spec.rightmost_separator "1.234,56" = Some dec
    ∧ App.parse_decimal (Some "1.234,56")
      = except_InvalidOperation
          (Spec.fixed_point (Spec.read_with dec "1.234,56")) "invalid number"
    ∧ App.parse_decimal (Some "1.234,56")
      = App.parse_decimal (Some (Spec.read_with dec "1.234,56"))
    ∧ Importer.parse_decimal (Some "1.234,56")
      = except_InvalidOperation
          (Spec.fixed_point (Spec.read_with dec "1.234,56"))
          ("invalid number: " +:+ "1.234,56")
    ∧ returned (Importer.parse_decimal (Some "1.234,56"))
      = returned (Importer.parse_decimal (Some (Spec.read_with dec "1.234,56"))).
Proof.
  apply (proj1 parse_decimal_rightmost_separator "1.234,56"); reflexivity.
Defined.

(** ** Decimal digits *)

Section digits.

Import Str.
Open Scope N_scope.

Lemma div10_lt_pow2 n f : n < 2 ^ N.of_nat (S f) → n / 10 < 2 ^ N.of_nat f.
Proof.
  intros Hn. rewrite Nat2N.inj_succ, N.pow_succ_r' in Hn.
  apply N.Div0.div_lt_upper_bound. lia.
Qed.

Lemma of_N_aux_acc f n acc :
  n < 2 ^ N.of_nat f →
  of_N_aux (S f) n acc = (of_N_aux (S f) n "" +:+ acc)%string.
Proof.
  revert n acc. induction f as [|f IH]; intros n acc Hn.
  - simpl in *. assert (n = 0) as -> by lia. done.
  - change (of_N_aux (S (S f)) n acc)
      with (if n <? 10 then String (digit_char n) acc
            else of_N_aux (S f) (n / 10) (String (digit_char (n mod 10)) acc)).
    change (of_N_aux (S (S f)) n "")
      with (if n <? 10 then String (digit_char n) ""
            else of_N_aux (S f) (n / 10) (String (digit_char (n mod 10)) "")).
    destruct (n <? 10); [done|].
    apply div10_lt_pow2 in Hn.
    rewrite (IH _ (String _ acc)), (IH _ (String _ "")) by done.
    by rewrite append_assoc.
Qed.

Lemma of_N_aux_fuel f1 f2 n :
  n < 2 ^ N.of_nat f1 → n < 2 ^ N.of_nat f2 →
  of_N_aux (S f1) n "" = of_N_aux (S f2) n "".
Proof.
  revert f2 n. induction f1 as [|f1 IH]; intros f2 n H1 H2.
  - simpl in H1. assert (n = 0) as -> by lia. done.
  - destruct f2 as [|f2].
    + simpl in H2. assert (n = 0) as -> by lia. done.
    + change (of_N_aux (S (S f1)) n "")
        with (if n <? 10 then String (digit_char n) ""
              else of_N_aux (S f1) (n / 10) (String (digit_char (n mod 10)) "")).
      change (of_N_aux (S (S f2)) n "")
        with (if n <? 10 then String (digit_char n) ""
              else of_N_aux (S f2) (n / 10) (String (digit_char (n mod 10)) "")).
      destruct (n <? 10); [done|].
      apply div10_lt_pow2 in H1, H2.
      rewrite (of_N_aux_acc f1), (of_N_aux_acc f2) by done.
      by rewrite (IH f2).
Qed.

Lemma of_N_fuel f n :
  n < 2 ^ N.of_nat f → of_N_aux (S f) n "" = of_N n.
Proof.
  intros Hn. apply of_N_aux_fuel; [done|].
  rewrite N2Nat.id. apply N.size_gt.
Qed.

Lemma of_N_small n : n < 10 → of_N n = String (digit_char n) "".
Proof.
  intros Hn. unfold of_N. simpl. by apply N.ltb_lt in Hn as ->.
Qed.

(** The digits of [n] are those of [n / 10] followed by the last one. *)
Lemma of_N_step n :
  10 ≤ n → of_N n = (of_N (n / 10) +:+ String (digit_char (n mod 10)) "")%string.
Proof.
  intros Hn. unfold of_N at 1.
  pose proof (N.size_gt n) as Hsize.
  destruct (N.to_nat (N.size n)) as [|f] eqn:Hf.
  { assert (N.size n = 0) as Hz by lia. rewrite Hz in Hsize. simpl in Hsize. lia. }
  assert (N.size n = N.of_nat (S f)) as Hz by lia. rewrite Hz in Hsize.
  change (of_N_aux (S (S f)) n "")
    with (if n <? 10 then String (digit_char n) ""
          else of_N_aux (S f) (n / 10) (String (digit_char (n mod 10)) "")).
  apply N.ltb_ge in Hn as ->. apply div10_lt_pow2 in Hsize.
  rewrite of_N_aux_acc by done. by rewrite of_N_fuel.
Qed.

Lemma digits_ind (P : N → Prop) :
  (∀ n, n < 10 → P n) → (∀ n, 10 ≤ n → P (n / 10) → P n) → ∀ n, P n.
Proof.
  intros Hsmall Hstep n. induction n as [n IH] using (well_founded_induction N.lt_wf_0).
  destruct (N.lt_ge_cases n 10) as [?|Hn]; [auto|].
  apply Hstep; [done|]. apply IH. apply N.div_lt; lia.
Qed.

Lemma isdigit_digit_char d : d < 10 → isdigit (digit_char d) = true.
Proof.
  intros Hd. unfold isdigit, digit_char, code.
  rewrite N_ascii_embedding by lia. apply andb_true_intro. split; apply N.leb_le; lia.
Qed.

Lemma digit_val_digit_char d : d < 10 → digit_val (digit_char d) = d.
Proof.
  intros Hd. unfold digit_val, digit_char, code.
  rewrite N_ascii_embedding by lia. lia.
Qed.

Lemma of_N_digits n : all isdigit (of_N n) = true.
Proof.
  induction n as [n Hn|n Hn IH] using digits_ind.
  - rewrite of_N_small by done. simpl. by rewrite isdigit_digit_char.
  - rewrite of_N_step, all_append, IH by done. simpl.
    rewrite isdigit_digit_char; [done|]. by apply N.mod_lt.
Qed.

Lemma of_N_nonempty n : of_N n ≠ "".
Proof.
  destruct (N.lt_ge_cases n 10) as [Hn|Hn].
  - by rewrite of_N_small.
  - rewrite of_N_step by done. by destruct (of_N (n / 10)).
Qed.

Lemma int_acc_append a b acc : int_acc (a +:+ b) acc = int_acc b (int_acc a acc).
Proof. revert acc. induction a; simpl; [done|]. intros acc. by rewrite IHa. Qed.

Lemma int_acc_of_N n acc :
  int_acc (of_N n) acc = acc * 10 ^ N.of_nat (String.length (of_N n)) + n.
Proof.
  revert acc. induction n as [n Hn|n Hn IH] using digits_ind; intros acc.
  - rewrite of_N_small by done. simpl. rewrite digit_val_digit_char by done. lia.
  - rewrite of_N_step, int_acc_append, IH, length_append by done. simpl.
    rewrite digit_val_digit_char by by apply N.mod_lt.
    rewrite Nat2N.inj_add, N.pow_add_r. simpl.
    pose proof (N.div_mod n 10). lia.
Qed.

Lemma int_of_N n : int (of_N n) = n.
Proof. unfold int. rewrite int_acc_of_N. lia. Qed.

Lemma int_acc_repeat0 k s : int_acc (repeat0 k +:+ s) 0 = int_acc s 0.
Proof.
  induction k; [done|].
  change (int_acc (repeat0 (S k) +:+ s) 0) with (int_acc (repeat0 k +:+ s) 0).
  done.
Qed.

Lemma length_of_N_small n : n < 10 → String.length (of_N n) = 1%nat.
Proof. intros Hn. by rewrite of_N_small. Qed.

Lemma length_of_N_step n :
  10 ≤ n → String.length (of_N n) = S (String.length (of_N (n / 10))).
Proof. intros Hn. rewrite of_N_step, length_append by done. simpl. lia. Qed.

Lemma length_of_N_pos n : (1 ≤ String.length (of_N n))%nat.
Proof.
  destruct (N.lt_ge_cases n 10) as [Hn|Hn].
  - rewrite length_of_N_small by done. lia.
  - rewrite length_of_N_step by done. lia.
Qed.

(** A number below [10^k] has at most [k] digits, and conversely. *)
Lemma length_of_N_le n k :
  (1 ≤ k)%nat → (String.length (of_N n) ≤ k)%nat ↔ n < 10 ^ N.of_nat k.
Proof.
  revert k. induction n as [n Hn|n Hn IH] using digits_ind; intros k Hk.
  - rewrite length_of_N_small by done. split; [|lia]. intros _.
    destruct k as [|k]; [lia|]. rewrite Nat2N.inj_succ, N.pow_succ_r'.
    pose proof (N.pow_nonzero 10 (N.of_nat k)). lia.
  - rewrite length_of_N_step by done.
    destruct k as [|[|k]]; [lia| |].
    + simpl. pose proof (length_of_N_pos (n / 10)). lia.
    + rewrite <- Nat.succ_le_mono, (IH (S k)) by lia.
      rewrite (Nat2N.inj_succ (S k)), N.pow_succ_r'.
      split; intros H.
      * pose proof (N.div_mod n 10). pose proof (N.mod_lt n 10). lia.
      * apply N.Div0.div_lt_upper_bound. lia.
Qed.

End digits.

(** ** Writing a quantized amount and reading it back *)

(** Decide a boolean comparison of integers by arithmetic. *)
Ltac Zcmp :=
  rewrite ?Z.gtb_ltb, ?Z.geb_leb;
  first [ apply Z.ltb_ge; lia | apply Z.leb_gt; lia
        | apply Z.ltb_lt; lia | apply Z.leb_le; lia ].


Section idempotence.

Import Str Spec.

Lemma safe_inv c :
  safe c = true →
  isspace c = false ∧ Ascii.eqb c "_" = false ∧ Ascii.eqb c "," = false.
Proof. destruct c as [[] [] [] [] [] [] [] []]; vm_compute; done. Qed.

Lemma isdigit_safe c : isdigit c = true → safe c = true.
Proof. unfold safe. by intros ->. Qed.


Lemma isdigit_not_sign c :
  isdigit c = true →
  Ascii.eqb c "-" = false ∧ Ascii.eqb c "+" = false ∧ Ascii.eqb c "." = false.
Proof. destruct c as [[] [] [] [] [] [] [] []]; vm_compute; done. Qed.

Lemma lstrip_safe s : all safe s = true → lstrip s = s.
Proof.
  destruct s; simpl; [done|]. intros [Ha _]%andb_prop.
  by apply safe_inv in Ha as [-> _].
Qed.

Lemma rstrip_safe s : all safe s = true → rstrip s = s.
Proof.
  induction s; simpl; [done|]. intros [Ha Hs]%andb_prop.
  rewrite IHs by done. apply safe_inv in Ha as [-> _]. by destruct s.
Qed.

Lemma strip_safe s : all safe s = true → strip s = s.
Proof. intros Hs. unfold strip. by rewrite lstrip_safe, rstrip_safe. Qed.

Lemma replace_underscore_safe s : all safe s = true → replace "_" "" s = s.
Proof.
  induction s; simpl; [done|]. intros [Ha Hs]%andb_prop.
  rewrite IHs by done. by apply safe_inv in Ha as (_ & -> & _).
Qed.

Lemma contains_comma_safe s : all safe s = true → contains "," s = false.
Proof.
  induction s; simpl; [done|]. intros [Ha Hs]%andb_prop.
  rewrite IHs by done. by apply safe_inv in Ha as (_ & _ & ->).
Qed.


Lemma span_digits_all s : all isdigit s = true → span_digits s = (s, "").
Proof.
  induction s; simpl; [done|]. intros [Ha Hs]%andb_prop.
  by rewrite Ha, IHs.
Qed.







Lemma all_repeat0 k : all isdigit (repeat0 k) = true.
Proof. induction k; simpl; done. Qed.

Lemma length_repeat0 k : String.length (repeat0 k) = k.
Proof. induction k; simpl; congruence. Qed.


Lemma parse_sign_digit sign ip rest :
  all isdigit ip = true → ip ≠ "" →
  parse_sign (sign_string sign +:+ ip +:+ rest) = (sign, ip +:+ rest).
Proof.
  intros Hip Hne. destruct sign; simpl; [done|].
  destruct ip as [|a ip]; [done|]. simpl in *.
  apply andb_prop in Hip as [Ha _].
  by apply isdigit_not_sign in Ha as (-> & -> & _).
Qed.


Lemma all_safe_sign sign : all safe (sign_string sign) = true.
Proof. by destruct sign. Qed.

Lemma of_string_safe s :
  all safe s = true →
  of_string s =
    let '(sign, body) := parse_sign s in
    match parse_number sign body with
    | Some d => Some d
    | None => parse_special sign body
    end.
Proof.
  intros Hs. unfold of_string. by rewrite strip_safe, replace_underscore_safe.
Qed.












End idempotence.



(** ** The amount parser follows rules 1 to 5 *)

Section rules.

Import Str Spec.

Lemma read_with_comma_no_point s :
  contains "." s = false → replace "," "." s = read_with "," s.
Proof.
  induction s; simpl; [done|]. change (other_separator ",") with "."%char.
  destruct (Ascii.eqb_spec a "."); simpl; [done|]. intros Hs.
  rewrite IHs by done. by destruct (Ascii.eqb a ",").
Qed.

Lemma read_with_point_no_comma s :
  contains "," s = false → read_with "." s = s.
Proof.
  induction s; simpl; [done|]. change (other_separator ".") with ","%char.
  destruct (Ascii.eqb_spec a ","); simpl; [done|]. intros Hs.
  rewrite IHs by done. by destruct (Ascii.eqb_spec a ".") as [->|].
Qed.

Lemma rightmost_separator_only s c :
  contains c s = true → contains (other_separator c) s = false →
  is_separator c = true → rightmost_separator s = Some c.
Proof.
  intros Hc Ho Hsep.
  destruct (contains_rightmost_separator s c Hsep Hc) as [dec Hdec].
  pose proof (rightmost_separator_contains s dec Hdec) as Hin.
  apply is_separator_inv in Hsep.
  apply rightmost_separator_is_separator in Hdec as Hd.
  destruct Hsep as [-> | ->], Hd as [-> | ->]; try done;
    change (other_separator _) with "."%char in Ho || change (other_separator _) with ","%char in Ho;
    congruence.
Qed.

(** The string the code hands to [Decimal] is the one rules 2 to 4 give. *)
Lemma code_normalized s :
  (if contains "," s && contains "." s then
     if rfind "," s >? rfind "." s
     then replace "," "." (replace "." "" s)
     else replace "," "" s
   else
     if contains "," s && negb (contains "." s)
     then replace "," "." s
     else s) = normalized s.
Proof.
  unfold normalized.
  destruct (contains "," s) eqn:Hc, (contains "." s) eqn:Hd; simpl.
  - destruct (contains_rightmost_separator s "," eq_refl Hc) as [dec Hs].
    rewrite Hs. by apply code_separators_read_with.
  - rewrite (rightmost_separator_only s ",") by done.
    by apply read_with_comma_no_point.
  - rewrite (rightmost_separator_only s ".") by done.
    by rewrite read_with_point_no_comma.
  - destruct (rightmost_separator s) as [dec|] eqn:Hs; [|done].
    pose proof (rightmost_separator_contains s dec Hs).
    apply rightmost_separator_is_separator in Hs as [-> | ->]; congruence.
Qed.

Lemma normalized_strip s :
  strip (normalized (strip s)) = strip (normalized s).
Proof.
  unfold normalized. rewrite rightmost_separator_strip.
  destruct (rightmost_separator s) as [dec|] eqn:Hs.
  - symmetry. apply strip_read_with.
    apply rightmost_separator_is_separator in Hs as [-> | ->]; done.
  - apply strip_idemp.
Qed.

Lemma fixed_point_normalized_strip s :
  fixed_point (normalized (strip s)) = fixed_point (normalized s).
Proof.
  rewrite <- (fixed_point_strip (normalized (strip s))).
  by rewrite normalized_strip, fixed_point_strip.
Qed.

(** Rules 1 to 5 for the parser of [app.py]. *)
Lemma App_parse_decimal_rules v :
  App.parse_decimal (Some v) =
    if String.eqb (strip v) "" then Raise (ValueError "missing")
    else except_InvalidOperation (fixed_point (normalized v)) "invalid number".
Proof.
  unfold App.parse_decimal. destruct (String.eqb _ _); [done|].
  rewrite code_normalized. fold (fixed_point (normalized (strip v))).
  by rewrite fixed_point_normalized_strip.
Qed.

(** Rules 1 to 5 for the parser of [import.py]. *)
Lemma Importer_parse_decimal_rules v :
  Importer.parse_decimal (Some v) =
    if String.eqb (strip v) "" then Raise (ValueError "missing")
    else except_InvalidOperation (fixed_point (normalized v))
           ("invalid number: " +:+ v).
Proof.
  unfold Importer.parse_decimal. destruct (String.eqb _ _); [done|].
  rewrite code_normalized. fold (fixed_point (normalized (strip v))).
  by rewrite fixed_point_normalized_strip.
Qed.

Lemma of_string_normalized_nonempty v d :
  of_string (normalized v) = Some d → String.eqb (strip v) "" = false.
Proof.
  intros Hd. apply String.eqb_neq. intros Hnil.
  pose proof (strip_nil_all_space v Hnil) as Hall.
  unfold normalized in Hd.
  rewrite rightmost_separator_all_space in Hd by done.
  unfold of_string in Hd. by rewrite Hnil in Hd.
Qed.

End rules.

(** ** Rounding to two places *)

Section rounding.

Import Str Spec.

Lemma len_pos c : 1 <= len c.
Proof. unfold len. pose proof (length_of_N_pos c). lia. Qed.

Lemma len_small c : (c < 10)%N → len c = 1.
Proof. intros Hc. unfold len. by rewrite length_of_N_small. Qed.

Lemma len_step c : (10 ≤ c)%N → len c = len (c / 10) + 1.
Proof. intros Hc. unfold len. rewrite length_of_N_step by done. lia. Qed.

Lemma len_le c k : 1 <= k → len c <= k ↔ (c < pow10 k)%N.
Proof.
  intros Hk. unfold len, pow10.
  rewrite <- (Z2Nat.id k) at 1 by lia. rewrite <- Nat2Z.inj_le.
  rewrite length_of_N_le by lia. by rewrite Z_nat_N.
Qed.

Lemma len_mono a b : (a ≤ b)%N → len a <= len b.
Proof.
  intros Hab. pose proof (len_pos b).
  apply len_le; [done|].
  assert (b < pow10 (len b))%N by (apply len_le; lia). lia.
Qed.

Lemma half_even_bounds c : (c / 10 ≤ half_even c ≤ c / 10 + 1)%N.
Proof. unfold half_even. destruct (N.even _); lia. Qed.

Lemma half_even_even c : N.even (half_even c) = true.
Proof.
  unfold half_even. destruct (N.even (c / 10)) eqn:He; [done|].
  rewrite N.even_add, He. done.
Qed.

Lemma even_mod10 n : N.even (n mod 10) = N.even n.
Proof.
  rewrite (N.Div0.div_mod n 10) at 2.
  replace (10 * (n / 10) + n mod 10)%N with (n mod 10 + 2 * (5 * (n / 10)))%N
    by lia.
  symmetry. apply N.even_add_mul_2.
Qed.

(** The coefficient [_rescale] computes for a value that ends in 5
    thousandths. *)
Lemma rescale_half sign c :
  (c mod 10 = 5)%N →
  _rescale (Finite sign c (-3)) (-2) = Finite sign (half_even c) (-2).
Proof.
  intros Hc. unfold _rescale.
  destruct (N.eqb_spec c 0) as [->|Hnz]; [done|].
  pose proof (len_pos c) as Hlen.
  replace (-3 >=? -2) with false by done.
  replace (len c + -3 - -2 <? 0) with false by (symmetry; Zcmp).
  unfold _round_half_even, _exact_half, _round_half_up, _all_zeros,
    suffix, prefix, digit_at, half_even.
  replace (len c - (len c + -3 - -2)) with 1 by lia.
  replace (len c - (len c + -3 - -2) - 1) with 0 by lia.
  replace (len c - (len c + -3 - -2 - 1) - 1) with 1 by lia.
  change (pow10 1) with 10%N. change (pow10 0) with 1%N.
  rewrite Hc, N.div_1_r, Hc. simpl (_ =? _)%N. simpl (5 <=? 5)%N.
  rewrite even_mod10.
  destruct (len c + -3 - -2 =? 0) eqn:Hone.
  - apply Z.eqb_eq in Hone. assert (len c <= 1) as Hle by lia.
    apply len_le in Hle; [|done]. change (pow10 1) with 10%N in Hle.
    rewrite (N.div_small c 10) by done. done.
  - simpl. by destruct (N.even (c / 10)).
Qed.

Lemma quantize_half sign c :
  (c mod 10 = 5)%N →
  quantize (Finite sign c (-3)) (Finite false 1 (-2)) =
    if len (half_even c) <=? prec
    then OK (Finite sign (half_even c) (-2))
    else Raise InvalidOperation.
Proof.
  intros Hc. unfold quantize.
  replace (negb ((Etiny <=? -2) && (-2 <=? Emax))) with false by done.
  destruct (N.eqb_spec c 0) as [->|Hnz]; [done|].
  rewrite rescale_half by done.
  pose proof (half_even_bounds c) as [Hlo Hhi].
  pose proof (len_mono _ _ Hlo) as Hmono.
  pose proof (len_pos c). pose proof (len_pos (half_even c)).
  assert (len c <= len (c / 10) + 1) as Hstep.
  { destruct (N.lt_ge_cases c 10) as [Hs|Hs].
    - rewrite len_small by done. pose proof (len_pos (c / 10)). lia.
    - rewrite (len_step c) by done. lia. }
  unfold adjusted, prec, Emax in *.
  destruct (Z.leb_spec (len (half_even c)) 28) as [Hle|Hgt].
  - replace (-3 + len c - 1 >? 999999) with false by (symmetry; Zcmp).
    replace (-3 + len c - 1 - -2 + 1 >? 28) with false by (symmetry; Zcmp).
    replace (-2 + len (half_even c) - 1 >? 999999) with false
      by (symmetry; Zcmp).
    by replace (len (half_even c) >? 28) with false by (symmetry; Zcmp).
  - destruct (-3 + len c - 1 >? 999999); [done|].
    destruct (-3 + len c - 1 - -2 + 1 >? 28); [done|].
    destruct (-2 + len (half_even c) - 1 >? 999999); [done|].
    by replace (len (half_even c) >? 28) with true by (symmetry; Zcmp).
Qed.

Lemma fixed_point_half s sign c :
  of_string s = Some (Finite sign c (-3)) → (c mod 10 = 5)%N →
  fixed_point s =
    if len (half_even c) <=? prec
    then OK (Finite sign (half_even c) (-2))
    else Raise InvalidOperation.
Proof.
  intros Hs Hc. unfold fixed_point, Decimal_. rewrite Hs. simpl mbind.
  by apply quantize_half.
Qed.

End rounding.

(** C10 (as amended). The quantization rounds half to even: when the
    normalized input is a number of thousandths that ends in 5, the parsers
    return the even one of the two neighbouring hundredths, provided that
    result has at most 28 digits; beyond that precision they raise
    [ValueError].  ["0.125"] gives 0.12 and ["0.135"] gives 0.14. *)
Theorem parse_decimal_half_even (v : string) (sign : bool) (c : N) :
  of_string (Spec.normalized v) = Some (Finite sign c (-3)) →
  (c mod 10 = 5)%N →
  N.even (Spec.half_even c) = true
  ∧ (c / 10 ≤ Spec.half_even c ≤ c / 10 + 1)%N
  ∧ App.parse_decimal (Some v) =
      (if len (Spec.half_even c) <=? prec
       then OK (Finite sign (Spec.half_even c) (-2))
       else Raise (ValueError "invalid number"))
  ∧ Importer.parse_decimal (Some v) =
      (if len (Spec.half_even c) <=? prec
       then OK (Finite sign (Spec.half_even c) (-2))
       else Raise (ValueError ("invalid number: " +:+ v)))
  ∧ App.parse_decimal (Some "0.125") = OK (Finite false 12 (-2))
  ∧ App.parse_decimal (Some "0.135") = OK (Finite false 14 (-2)).
Proof.
  intros Hv Hc. split; [apply half_even_even|].
  split; [apply half_even_bounds|].
  rewrite App_parse_decimal_rules, Importer_parse_decimal_rules.
  rewrite (of_string_normalized_nonempty v _ Hv).
  rewrite (fixed_point_half _ sign c) by done.
  by destruct (len _ <=? prec).
Qed.

Lemma parse_decimal_half_even_witness :
  App.parse_decimal (Some "7,345") = OK (Finite false 734 (-2)).
Proof.
  apply (parse_decimal_half_even "7,345" false 7345); reflexivity.
Defined.

(** C10 (as stated) fails beyond the precision of the decimal context: the
    normalized input below ends in 5 thousandths, and the parser raises
    instead of returning a rounded amount. *)
Lemma parse_decimal_half_even_overflow :
  of_string (Spec.normalized "12345678901234567890123456789.125")
  = Some (Finite false 12345678901234567890123456789125 (-3))
  ∧ (12345678901234567890123456789125 mod 10 = 5)%N
  ∧ App.parse_decimal (Some "12345678901234567890123456789.125")
    = Raise (ValueError "invalid number")
  ∧ ¬ ∃ d, App.parse_decimal (Some "12345678901234567890123456789.125") = OK d.
Proof.
  repeat split; try by vm_compute.
  intros [d Hd]. vm_compute in Hd. discriminate.
Qed.


(** ** The two date parsers *)

Section dates.

Import Str Spec.

#[local] Arguments isdigit : simpl never.
#[local] Arguments in_range : simpl never.
#[local] Arguments two : simpl never.
#[local] Arguments one : simpl never.
#[local] Arguments int : simpl never.

Lemma first_some_head {B} (k : Z → string → option B) v r cs res :
  k v r = Some res → first_some k ((v, r) :: cs) = Some res.
Proof. simpl. by intros ->. Qed.

Lemma first_some_inv {B} (k : Z → string → option B) cs res :
  first_some k cs = Some res → ∃ v r, In (v, r) cs ∧ k v r = Some res.
Proof.
  induction cs as [|[v r] cs IH]; simpl; [done|].
  destruct (k v r) eqn:Hk.
  - intros [= <-]. eauto.
  - intros (v' & r' & ? & ?)%IH. eauto.
Qed.

(** Solve [In x l] for a list that computes. *)
Ltac in_list := repeat (first [ left; reflexivity | right ]).

Lemma isdigit_cases c :
  isdigit c = true →
  In c ["0"; "1"; "2"; "3"; "4"; "5"; "6"; "7"; "8"; "9"]%char.
Proof.
  destruct c as [[] [] [] [] [] [] [] []]; vm_compute; intros H;
    try discriminate H; in_list.
Qed.

Lemma in_range_1_9 c :
  in_range "1" "9" c = true →
  In c ["1"; "2"; "3"; "4"; "5"; "6"; "7"; "8"; "9"]%char.
Proof.
  destruct c as [[] [] [] [] [] [] [] []]; vm_compute; intros H;
    try discriminate H; in_list.
Qed.

Lemma in_range_0_2 c : in_range "0" "2" c = true → In c ["0"; "1"; "2"]%char.
Proof.
  destruct c as [[] [] [] [] [] [] [] []]; vm_compute; intros H;
    try discriminate H; in_list.
Qed.

Lemma in_range_0_1 c : in_range "0" "1" c = true → In c ["0"; "1"]%char.
Proof.
  destruct c as [[] [] [] [] [] [] [] []]; vm_compute; intros H;
    try discriminate H; in_list.
Qed.

Lemma in_range_1_2 c : in_range "1" "2" c = true → In c ["1"; "2"]%char.
Proof.
  destruct c as [[] [] [] [] [] [] [] []]; vm_compute; intros H;
    try discriminate H; in_list.
Qed.

(** Turn the tests the candidates make on characters into the characters. *)
Ltac chars :=
  repeat match goal with
    | H : _ && _ = true |- _ => apply andb_prop in H as [? ?]
    | H : Ascii.eqb _ _ = true |- _ => apply Ascii.eqb_eq in H; subst
    | H : isdigit _ = true |- _ => apply isdigit_cases in H; simpl in H
    | H : in_range "1" "9" _ = true |- _ => apply in_range_1_9 in H; simpl in H
    | H : in_range "0" "2" _ = true |- _ => apply in_range_0_2 in H; simpl in H
    | H : in_range "0" "1" _ = true |- _ => apply in_range_0_1 in H; simpl in H
    | H : in_range "1" "2" _ = true |- _ => apply in_range_1_2 in H; simpl in H
    | H : _ ∨ _ |- _ => destruct H
    | H : False |- _ => destruct H
    end; subst.

Lemma candidates_Lit_inv c s v r :
  In (v, r) (candidates (Lit c) s) → s = String c r.
Proof.
  destruct s as [|a s]; simpl; [done|].
  destruct (Ascii.eqb_spec a c); simpl; [|done]. intros [[= <- <-]|[]]. congruence.
Qed.

Lemma candidates_DirY_inv s v r :
  In (v, r) (candidates DirY s) → ∃ yt, s = yt +:+ r ∧ four_digits yt v.
Proof.
  destruct s as [|a [|b [|c [|d s]]]]; simpl; try done.
  destruct (andb _ (isdigit d)) eqn:H; [|done].
  intros [[= <- <-]|[]].
  exists (String a (String b (String c (String d "")))).
  apply andb_prop in H as [[[Ha Hb]%andb_prop Hc]%andb_prop Hd].
  repeat split. simpl. by rewrite Ha, Hb, Hc, Hd.
Qed.

Lemma in_if_singleton {A} (b : bool) (x y : A) :
  In y (if b then [x] else []) → b = true ∧ y = x.
Proof. destruct b; simpl; [|done]. intros [<-|[]]. done. Qed.

Lemma candidates_Dirm_inv s v r :
  In (v, r) (candidates Dirm s) → ∃ mt, s = mt +:+ r ∧ In (v, mt) month_texts.
Proof.
  destruct s as [|a [|b s]]; simpl; [done| |].
  - intros [Ha [= -> ->]]%in_if_singleton.
    exists (String a ""). split; [done|]. chars; in_list.
  - rewrite !in_app_iff.
    intros [[H|H]|H]; apply in_if_singleton in H as [Hb [= -> ->]].
    + exists (String a (String b "")). split; [done|]. chars; in_list.
    + exists (String a (String b "")). split; [done|]. chars; in_list.
    + exists (String a ""). split; [done|]. chars; in_list.
Qed.

Lemma candidates_Dird_inv s v r :
  In (v, r) (candidates Dird s) → ∃ dt, s = dt +:+ r ∧ In (v, dt) day_texts.
Proof.
  destruct s as [|a [|b s]]; simpl; [done| |].
  - rewrite app_nil_r. intros [Ha [= -> ->]]%in_if_singleton.
    exists (String a ""). split; [done|]. chars; in_list.
  - rewrite !in_app_iff.
    intros [[H|[H|H]]|[H|H]]; apply in_if_singleton in H as [Hb [= -> ->]].
    + exists (String a (String b "")). split; [done|]. chars; in_list.
    + exists (String a (String b "")). split; [done|]. chars; in_list.
    + exists (String a (String b "")). split; [done|]. chars; in_list.
    + exists (String a ""). split; [done|]. chars; in_list.
    + exists (String a (String b "")). split; [done|]. chars; in_list.
Qed.

Lemma regex_match_step it items s f v r cs res :
  candidates it s = (v, r) :: cs →
  regex_match items r (set_field it v f) = Some res →
  regex_match (it :: items) s f = Some res.
Proof. intros Hc Hr. simpl. rewrite Hc. by apply first_some_head. Qed.

Lemma regex_match_inv it items s f res :
  regex_match (it :: items) s f = Some res →
  ∃ v r, In (v, r) (candidates it s)
         ∧ regex_match items r (set_field it v f) = Some res.
Proof. simpl. apply first_some_inv. Qed.

Lemma candidates_year yt y r :
  four_digits yt y → candidates DirY (yt +:+ r) = [(y, r)].
Proof.
  intros (Hlen & Hdig & <-).
  destruct yt as [|a [|b [|c [|d [|? ?]]]]]; try done. simpl in *.
  apply andb_prop in Hdig as [-> [-> [-> [-> _]%andb_prop]%andb_prop]%andb_prop].
  done.
Qed.

Lemma candidates_month_head m mt sep r :
  In (m, mt) month_texts → sep = "-"%char ∨ sep = "."%char →
  ∃ cs, candidates Dirm (mt +:+ String sep r) = (m, String sep r) :: cs.
Proof.
  intros H Hsep. vm_compute in H.
  repeat (destruct H as [H|H]); try done; injection H as <- <-;
    destruct Hsep as [-> | ->]; eexists; reflexivity.
Qed.

Lemma candidates_day_head d dt sep r :
  In (d, dt) day_texts → sep = "-"%char ∨ sep = "."%char →
  ∃ cs, candidates Dird (dt +:+ String sep r) = (d, String sep r) :: cs.
Proof.
  intros H Hsep. vm_compute in H.
  repeat (destruct H as [H|H]); try done; injection H as <- <-;
    destruct Hsep as [-> | ->]; eexists; reflexivity.
Qed.

Lemma candidates_day_last d dt :
  In (d, dt) day_texts → ∃ cs, candidates Dird dt = (d, "") :: cs.
Proof.
  intros H. vm_compute in H.
  repeat (destruct H as [H|H]); try done; injection H as <- <-;
    eexists; reflexivity.
Qed.

Lemma regex_match_ymd yt y mt m dt d f :
  four_digits yt y → In (m, mt) month_texts → In (d, dt) day_texts →
  regex_match [DirY; Lit "-"; Dirm; Lit "-"; Dird]
    (yt +:+ "-" +:+ mt +:+ "-" +:+ dt) f
  = Some (mkfields y m d, "").
Proof.
  intros Hy Hm Hd.
  destruct (candidates_month_head m mt "-" dt Hm) as [cm Hcm]; [auto|].
  destruct (candidates_day_last d dt Hd) as [cd Hcd].
  eapply regex_match_step; [by apply candidates_year|].
  eapply regex_match_step; [reflexivity|].
  eapply regex_match_step; [exact Hcm|].
  eapply regex_match_step; [reflexivity|].
  eapply regex_match_step; [exact Hcd|]. done.
Qed.

Lemma regex_match_dmy yt y mt m dt d f :
  four_digits yt y → In (m, mt) month_texts → In (d, dt) day_texts →
  regex_match [Dird; Lit "."; Dirm; Lit "."; DirY]
    (dt +:+ "." +:+ mt +:+ "." +:+ yt) f
  = Some (mkfields y m d, "").
Proof.
  intros Hy Hm Hd.
  destruct (candidates_day_head d dt "." (mt +:+ "." +:+ yt) Hd) as [cd Hcd];
    [auto|].
  destruct (candidates_month_head m mt "." yt Hm) as [cm Hcm]; [auto|].
  eapply regex_match_step; [exact Hcd|].
  eapply regex_match_step; [reflexivity|].
  eapply regex_match_step; [exact Hcm|].
  eapply regex_match_step; [reflexivity|].
  eapply regex_match_step.
  - rewrite <- (append_nil_r yt). by apply candidates_year.
  - done.
Qed.

Lemma regex_match_ymd_inv s f f' :
  regex_match [DirY; Lit "-"; Dirm; Lit "-"; Dird] s f = Some (f', "") →
  ∃ yt mt dt,
    s = yt +:+ "-" +:+ mt +:+ "-" +:+ dt
    ∧ four_digits yt (fY f')
    ∧ In (fm f', mt) month_texts ∧ In (fd f', dt) day_texts.
Proof.
  intros (y & r1 & (yt & -> & Hy)%candidates_DirY_inv & H)%regex_match_inv.
  apply regex_match_inv in H as (? & r2 & ->%candidates_Lit_inv & H).
  apply regex_match_inv in H as (m & r3 & (mt & -> & Hm)%candidates_Dirm_inv & H).
  apply regex_match_inv in H as (? & r4 & ->%candidates_Lit_inv & H).
  apply regex_match_inv in H as (d & r5 & (dt & -> & Hd)%candidates_Dird_inv & H).
  simpl in H. injection H as <- ->.
  exists yt, mt, dt. rewrite append_nil_r. done.
Qed.

Lemma regex_match_dmy_inv s f f' :
  regex_match [Dird; Lit "."; Dirm; Lit "."; DirY] s f = Some (f', "") →
  ∃ dt mt yt,
    s = dt +:+ "." +:+ mt +:+ "." +:+ yt
    ∧ four_digits yt (fY f')
    ∧ In (fm f', mt) month_texts ∧ In (fd f', dt) day_texts.
Proof.
  intros (d & r1 & (dt & -> & Hd)%candidates_Dird_inv & H)%regex_match_inv.
  apply regex_match_inv in H as (? & r2 & ->%candidates_Lit_inv & H).
  apply regex_match_inv in H as (m & r3 & (mt & -> & Hm)%candidates_Dirm_inv & H).
  apply regex_match_inv in H as (? & r4 & ->%candidates_Lit_inv & H).
  apply regex_match_inv in H as (y & r5 & (yt & -> & Hy)%candidates_DirY_inv & H).
  simpl in H. injection H as <- ->.
  exists dt, mt, yt. rewrite append_nil_r. done.
Qed.

Lemma date__OK y m d dt :
  date_ y m d = OK dt → dt = mkdate y m d ∧ valid_date dt.
Proof.
  intros H. assert (dt = mkdate y m d) as ->; [|done].
  unfold date_ in H. repeat case_match; congruence.
Qed.

(** What [strptime] accepts for the format of the form. *)
Lemma strptime_ymd_spec s d :
  strptime s "%Y-%m-%d" = OK d ↔ ymd_text "-" s d ∧ valid_date d.
Proof.
  unfold strptime. change (compile "%Y-%m-%d")
    with (Some [DirY; Lit "-"%char; Dirm; Lit "-"%char; Dird]).
  cbv beta iota. split.
  - destruct (regex_match _ s _) as [[f' rest]|] eqn:Hm; [|done].
    destruct (String.eqb_spec rest "") as [->|]; [|done]. simpl.
    intros [-> Hv]%date__OK. split; [|done].
    by apply regex_match_ymd_inv in Hm.
  - intros [(yt & mt & dt & -> & Hy & Hm & Hd) Hv].
    by rewrite (regex_match_ymd yt (year d) mt (month d) dt (day d)).
Qed.

(** What [strptime] accepts for the format of the import. *)
Lemma strptime_dmy_spec s d :
  strptime s "%d.%m.%Y" = OK d ↔ dmy_text "." s d ∧ valid_date d.
Proof.
  unfold strptime. change (compile "%d.%m.%Y")
    with (Some [Dird; Lit "."%char; Dirm; Lit "."%char; DirY]).
  cbv beta iota. split.
  - destruct (regex_match _ s _) as [[f' rest]|] eqn:Hm; [|done].
    destruct (String.eqb_spec rest "") as [->|]; [|done]. simpl.
    intros [-> Hv]%date__OK. split; [|done].
    by apply regex_match_dmy_inv in Hm.
  - intros [(dt & mt & yt & -> & Hy & Hm & Hd) Hv].
    by rewrite (regex_match_dmy yt (year d) mt (month d) dt (day d)).
Qed.



Lemma four_digits_zfill y : 0 <= y <= 9999 → four_digits (zfill 4 y) y.
Proof.
  intros Hy. unfold four_digits, zfill.
  assert (String.length (of_N (Z.to_N y)) ≤ 4)%nat as Hlen
      by (apply length_of_N_le; [lia|]; simpl; lia).
  pose proof (length_of_N_pos (Z.to_N y)).
  repeat split.
  - rewrite length_append, length_repeat0. lia.
  - by rewrite all_append, all_repeat0, of_N_digits.
  - unfold int. rewrite int_acc_repeat0. fold (int (of_N (Z.to_N y))).
    rewrite int_of_N. lia.
Qed.

Lemma valid_date_bounds d :
  valid_date d →
  1 <= year d <= 9999 ∧ 1 <= month d <= 12 ∧ 1 <= day d <= 31.
Proof.
  unfold valid_date, date_, MINYEAR, MAXYEAR, _days_in_month.
  repeat case_match; try done; intros _;
    repeat match goal with
      | H : negb _ = false |- _ => apply negb_false_iff in H
      | H : _ && _ = true |- _ => apply andb_prop in H as [? ?]
      | H : (_ <=? _) = true |- _ => apply Z.leb_le in H
      end; lia.
Qed.

Lemma month_texts_zfill m : 1 <= m <= 12 → In (m, zfill 2 m) month_texts.
Proof.
  intros Hm. assert (In m (seqZ 1 12)) as H
      by (apply list_elem_of_In, elem_of_seqZ; lia).
  vm_compute in H. repeat (destruct H as [H|H]); try done; subst; in_list.
Qed.

Lemma day_texts_zfill d : 1 <= d <= 31 → In (d, zfill 2 d) day_texts.
Proof.
  intros Hd. assert (In d (seqZ 1 31)) as H
      by (apply list_elem_of_In, elem_of_seqZ; lia).
  vm_compute in H. repeat (destruct H as [H|H]); try done; subst; in_list.
Qed.

(** [isoformat] writes a date the way the parser of the form reads it. *)
Lemma ymd_text_isoformat d : valid_date d → ymd_text "-" (isoformat d) d.
Proof.
  intros (Hy & Hm & Hd)%valid_date_bounds.
  exists (zfill 4 (year d)), (zfill 2 (month d)), (zfill 2 (day d)).
  split; [done|].
  auto using four_digits_zfill, month_texts_zfill, day_texts_zfill with lia.
Qed.


Lemma ymd_text_nonempty sep s d : ymd_text sep s d → s ≠ "".
Proof.
  intros (yt & mt & dt & -> & (Hlen & _) & _). by destruct yt.
Qed.



Lemma except_ValueError_OK {A} (r : result A) msg a :
  except_ValueError r msg = OK a ↔ r = OK a.
Proof. by destruct r as [|[]]. Qed.

End dates.



(** ** Orders on dates and on observations *)

Section orders.

Import App.

#[global] Instance date_le_refl : Reflexive date_le.
Proof. intros [y m d]. unfold date_le. simpl. lia. Qed.

#[global] Instance date_le_trans : Transitive date_le.
Proof. intros [] [] []. unfold date_le. simpl. lia. Qed.

#[global] Instance date_le_antisym : AntiSymm (=) date_le.
Proof.
  intros [] []. unfold date_le. simpl. intros H1 H2. f_equal; lia.
Qed.

#[global] Instance date_le_total : Total date_le.
Proof. intros [] []. unfold date_le. simpl. lia. Qed.

#[global] Instance date_lt_trans : Transitive date_lt.
Proof. intros [] [] []. unfold date_lt. simpl. lia. Qed.

#[global] Instance date_lt_irrefl : Irreflexive date_lt.
Proof. intros [] H. unfold date_lt in H. simpl in H. lia. Qed.

Lemma date_le_lt_eq a b : date_le a b ↔ date_lt a b ∨ a = b.
Proof.
  destruct a as [y1 m1 d1], b as [y2 m2 d2]. unfold date_le, date_lt. simpl.
  split.
  - intros H.
    destruct (decide (y1 = y2)), (decide (m1 = m2)), (decide (d1 = d2));
      subst; auto; left; lia.
  - intros [H|[= -> -> ->]]; lia.
Qed.

Lemma date_lt_le a b : date_lt a b → date_le a b.
Proof. intros. apply date_le_lt_eq. auto. Qed.

Lemma date_lt_not_le a b : date_lt a b ↔ ¬ date_le b a.
Proof. destruct a, b. unfold date_le, date_lt. simpl. lia. Qed.

Lemma date_le_lt_trans a b c : date_le a b → date_lt b c → date_lt a c.
Proof. destruct a, b, c. unfold date_le, date_lt. simpl. lia. Qed.


#[global] Instance date_asc_trans : Transitive date_asc.
Proof. intros p q r. unfold date_asc. apply date_le_trans. Qed.

#[global] Instance date_asc_total : Total date_asc.
Proof. intros p q. unfold date_asc. apply date_le_total. Qed.

#[global] Instance newest_first_refl : Reflexive newest_first.
Proof. intros p. right. split; [done|lia]. Qed.

#[global] Instance newest_first_trans : Transitive newest_first.
Proof.
  intros p q r. unfold newest_first.
  intros [H1|[H1 H1']] [H2|[H2 H2']].
  - left. by etrans.
  - left. by rewrite <- H2.
  - left. by rewrite H1.
  - right. split; [congruence|lia].
Qed.

Lemma date_trichotomy a b : date_lt a b ∨ a = b ∨ date_lt b a.
Proof.
  destruct (total date_le a b) as [[H| ->]%date_le_lt_eq|[H| ->]%date_le_lt_eq];
    auto.
Qed.

#[global] Instance newest_first_total : Total newest_first.
Proof.
  intros p q. unfold newest_first.
  destruct (date_trichotomy (as_of_date p) (as_of_date q)) as [H|[H|H]]; auto.
  destruct (Z.le_ge_cases (point_created_at q) (point_created_at p)).
  - left. right. done.
  - right. right. split; [done|lia].
Qed.

End orders.

(** ** The series of one account and the current balance *)


(** C5. The current balance of an account is 0.00 when it has no
    observation; otherwise it is the amount of one of its observations, and
    every observation of the account has an earlier date than that one, or
    the same date and a creation time that is not later. *)
Theorem current_balance_latest (db : App.Store) (acc : App.Account) :
  let obs :=
    filter (fun p => App.account_id p = App.id acc) (App.balance_points db) in
  (obs = [] → App.current_balance db acc = Finite false 0 (-2))
  ∧ (obs ≠ [] →
     ∃ p, p ∈ obs
          ∧ App.current_balance db acc = App.balance p
          ∧ ∀ q, q ∈ obs →
                 date_lt (App.as_of_date q) (App.as_of_date p)
                 ∨ (App.as_of_date q = App.as_of_date p
                    ∧ App.point_created_at q <= App.point_created_at p)).
Proof.
  intros obs. unfold App.current_balance, App.balances. fold obs. split.
  - by intros ->.
  - intros Hne.
    pose proof (merge_sort_Permutation App.newest_first obs) as Hperm.
    pose proof (StronglySorted_merge_sort App.newest_first obs) as Hsorted.
    destruct (merge_sort App.newest_first obs) as [|p l] eqn:Hl.
    { apply Permutation_nil_l in Hperm. done. }
    exists p. split_and!.
    + rewrite <- Hperm. left.
    + done.
    + intros q Hq. rewrite <- Hperm in Hq.
      apply StronglySorted_inv in Hsorted as [_ Hall].
      apply elem_of_cons in Hq as [->|Hq].
      * right. split; [done|lia].
      * rewrite Forall_forall in Hall. apply Hall in Hq as [H|[H1 H2]]; auto.
Qed.

(** ** The stacked series *)

Section axis_facts.

Import App Spec.

Lemma Sorted_NoDup_strict (l : list date) :
  Sorted date_le l → NoDup l → StronglySorted date_lt l.
Proof.
  intros Hs%Sorted_StronglySorted Hnd; [|apply _].
  induction l as [|x l IH]; [constructor|].
  apply StronglySorted_inv in Hs as [Hs Hall].
  apply NoDup_cons in Hnd as [Hx Hnd].
  constructor; [auto|].
  rewrite Forall_forall in Hall |- *. intros y Hy.
  destruct (proj1 (date_le_lt_eq x y) (Hall y Hy)) as [?| ->]; done.
Qed.

Lemma axis_sorted db : StronglySorted date_lt (axis db).
Proof.
  apply Sorted_NoDup_strict.
  - apply Sorted_merge_sort. apply _.
  - unfold axis. rewrite merge_sort_Permutation. apply NoDup_elements.
Qed.

Lemma elem_of_axis db d :
  d ∈ axis db ↔ ∃ p, p ∈ balance_points db ∧ as_of_date p = d.
Proof.
  unfold axis. rewrite merge_sort_Permutation, elem_of_elements,
    elem_of_list_to_set, <- list_fmap_compose, list_elem_of_fmap.
  setoid_rewrite merge_sort_Permutation.
  split; intros (p & ? & ?); exists p; by simplify_eq/=.
Qed.

Lemma elem_of_rows db a d bal :
  (a, d, bal) ∈ (fun p => (account_id p, as_of_date p, balance p))
                  <$> merge_sort date_asc (balance_points db)
  ↔ ∃ p, p ∈ balance_points db
         ∧ account_id p = a ∧ as_of_date p = d ∧ balance p = bal.
Proof.
  rewrite list_elem_of_fmap. setoid_rewrite merge_sort_Permutation.
  split.
  - intros (p & [= -> -> ->] & ?). by exists p.
  - intros (p & ? & <- & <- & <-). by exists p.
Qed.

End axis_facts.

Section stacked.

Import App Spec.

Context {float : Type} (float_ : Decimal → float) (zero : float).

Lemma entry_insert (per_account : gmap Z (gmap date float)) a' d' v a d :
  entry (<[a' := <[d' := v]> (per_account !!! a')]> per_account) a d
  = if decide (a' = a ∧ d' = d) then Some v else entry per_account a d.
Proof.
  unfold entry. destruct (decide (a' = a)) as [->|Ha].
  - rewrite lookup_insert_eq. simpl. rewrite lookup_total_alt.
    destruct (decide (d' = d)) as [->|Hd].
    + rewrite lookup_insert_eq. by rewrite decide_True.
    + rewrite lookup_insert_ne by done. case_decide as Heq; [|done].
      by destruct Heq.
  - rewrite lookup_insert_ne by done. case_decide as Heq; [|done].
    by destruct Heq.
Qed.

Lemma per_account_foldl_Some rows m0 a d v :
  entry (foldl (fun per_account '(account_id, d, bal) =>
                  <[account_id := <[d := float_ bal]> (per_account !!! account_id)]>
                    per_account) m0 rows) a d = Some v →
  entry m0 a d = Some v ∨ ∃ bal, (a, d, bal) ∈ rows ∧ v = float_ bal.
Proof.
  revert m0. induction rows as [|[[a' d'] bal'] rows IH]; intros m0; simpl.
  - auto.
  - intros [H|(bal & Hin & ->)]%IH.
    + rewrite entry_insert in H. case_decide as Heq.
      * destruct Heq as [-> ->]. injection H as <-. right. exists bal'.
        split; [left|done].
      * auto.
    + right. exists bal. split; [by right|done].
Qed.

Lemma per_account_foldl_is_Some rows m0 a d :
  is_Some (entry m0 a d) ∨ (∃ bal, (a, d, bal) ∈ rows) →
  is_Some (entry (foldl (fun per_account '(account_id, d, bal) =>
                  <[account_id := <[d := float_ bal]> (per_account !!! account_id)]>
                    per_account) m0 rows) a d).
Proof.
  revert m0. induction rows as [|[[a' d'] bal'] rows IH]; intros m0; simpl.
  - intros [?|[bal Hin]]; [done|]. by apply elem_of_nil in Hin.
  - intros H. apply IH. rewrite entry_insert.
    destruct H as [H|[bal [[= -> -> ->]|Hin]%elem_of_cons]].
    + left. case_decide; [eauto|done].
    + left. rewrite decide_True by done. eauto.
    + right. eauto.
Qed.

Lemma per_account_of_Some rows a d v :
  entry (per_account_of float_ rows) a d = Some v →
  ∃ bal, (a, d, bal) ∈ rows ∧ v = float_ bal.
Proof.
  intros [H|H]%per_account_foldl_Some; [|done].
  unfold entry in H. by rewrite lookup_empty in H.
Qed.

Lemma per_account_of_is_Some rows a d bal :
  (a, d, bal) ∈ rows → is_Some (entry (per_account_of float_ rows) a d).
Proof. intros H. apply per_account_foldl_is_Some. eauto. Qed.

Lemma length_carry_forward (m : gmap date float) ds last :
  List.length (carry_forward m ds last) = List.length ds.
Proof. revert last. induction ds; intros last; simpl; [done|]. by rewrite IHds. Qed.

(** The walk along the sorted axis: the entry at a date is the value stored
    for the latest date of the axis up to it that has one, or the initial
    value when there is none. *)
Lemma carry_forward_spec (m : gmap date float) ds last i d :
  StronglySorted date_lt ds → ds !! i = Some d →
  ∃ v, carry_forward m ds last !! i = Some v
       ∧ ((v = last
           ∧ ∀ d', d' ∈ ds → date_le d' d → m !! d' = None)
          ∨ (∃ d', d' ∈ ds ∧ date_le d' d ∧ m !! d' = Some v
                   ∧ ∀ d'', d'' ∈ ds → date_le d'' d → is_Some (m !! d'') →
                            date_le d'' d')).
Proof.
  revert last i. induction ds as [|d0 ds IH]; intros last i Hs Hi; [done|].
  apply StronglySorted_inv in Hs as [Hs Hall]. rewrite Forall_forall in Hall.
  destruct i as [|i]; simpl in *.
  - injection Hi as ->. eexists. split; [done|].
    assert (∀ d', d' ∈ d :: ds → date_le d' d → d' = d) as Honly.
    { intros d' [->|Hin]%elem_of_cons Hle; [done|].
      apply Hall in Hin. by apply date_lt_not_le in Hin. }
    destruct (m !! d) as [v|] eqn:Hm.
    + right. exists d. split_and!; [left|done|done|].
      intros d'' Hin Hle _. by assert (d'' = d) as -> by auto.
    + left. split; [done|]. intros d' Hin Hle.
      by assert (d' = d) as -> by auto.
  - set (last' := match m !! d0 with Some v => v | None => last end).
    destruct (IH last' i Hs Hi) as (v & Hv & Hcase).
    exists v. split; [done|].
    assert (date_lt d0 d) as Hd0 by (apply Hall; by eapply list_elem_of_lookup_2).
    destruct Hcase as [[-> Hnone]|(d' & Hin & Hle & Hm & Hmax)].
    + subst last'. destruct (m !! d0) as [v0|] eqn:Hm0.
      * right. exists d0. split_and!; [left|by apply date_lt_le|done|].
        intros d'' [->|Hin]%elem_of_cons Hle [w Hw]; [done|].
        by rewrite Hnone in Hw.
      * left. split; [done|].
        intros d' [->|Hin]%elem_of_cons Hle; [done|auto].
    + right. exists d'. split_and!; [by right|done|done|].
      intros d'' [->|Hin'']%elem_of_cons Hle' Hsome; [|auto].
      apply date_lt_le. by apply Hall.
Qed.

Lemma build_stacked_series_unfold db accs :
  build_stacked_series float_ zero db accs
  = (iso <$> axis db,
     (fun acc =>
        mkdataset (name acc)
          (carry_forward
             (default ∅ (per_account_of float_
                           ((fun p => (account_id p, as_of_date p, balance p))
                              <$> merge_sort date_asc (balance_points db))
                         !! id acc))
             (axis db) zero)) <$> accs).
Proof. reflexivity. Qed.

(** The series of one account of the list, entry by entry. *)
Lemma stacked_entry db acc i d :
  axis db !! i = Some d →
  ∃ v,
    carry_forward
      (default ∅ (per_account_of float_
                    ((fun p => (account_id p, as_of_date p, balance p))
                       <$> merge_sort date_asc (balance_points db))
                  !! id acc))
      (axis db) zero !! i = Some v
    ∧ latest_value float_ zero db acc d v.
Proof.
  intros Hi.
  set (rows := (fun p => (account_id p, as_of_date p, balance p))
                 <$> merge_sort date_asc (balance_points db)).
  set (m := default ∅ (per_account_of float_ rows !! id acc)).
  destruct (carry_forward_spec m (axis db) zero i d (axis_sorted db) Hi)
    as (v & Hv & Hcase).
  exists v. split; [done|].
  assert (∀ q, q ∈ balance_points db → account_id q = id acc →
               as_of_date q ∈ axis db ∧ is_Some (m !! as_of_date q)) as Hobs.
  { intros q Hq Ha. split; [apply elem_of_axis; eauto|].
    apply (per_account_of_is_Some rows (id acc) (as_of_date q) (balance q)).
    apply elem_of_rows. eauto. }
  destruct Hcase as [[-> Hnone]|(d' & Hin & Hle & Hm & Hmax)].
  - left. split; [done|]. intros q Hq Ha Hle.
    destruct (Hobs q Hq Ha) as [Hax [w Hw]].
    by rewrite Hnone in Hw.
  - right.
    apply (per_account_of_Some rows (id acc) d' v) in Hm
      as (bal & (p & Hp & Hpa & Hpd & Hpb)%elem_of_rows & ->).
    exists p. subst d'. split_and!; try done.
    + intros q Hq Ha Hle'. destruct (Hobs q Hq Ha) as [Hax Hsome]. auto.
    + by rewrite Hpb.
Qed.

End stacked.

(** C1. The stacked series: the labels are the distinct dates of all
    observations in ascending order, and every account of the list has a
    dataset under its name, as long as the labels, whose entry at a label
    is the balance of a latest observation of that account on or before
    the label's date, or zero when it has none.  For the store of the
    example the labels are the three dates in order, the series of A is
    [100, 100, 300] and the series of B is [0, 50, 50]. *)
Theorem build_stacked_series_carry_forward {float : Type}
    (float_ : Decimal → float) (zero : float)
    (db : App.Store) (accs : list App.Account) :
  (∃ all_dates,
      (App.build_stacked_series float_ zero db accs).1 = App.iso <$> all_dates
      ∧ StronglySorted date_lt all_dates
      ∧ (∀ d, d ∈ all_dates
              ↔ ∃ p, p ∈ App.balance_points db ∧ App.as_of_date p = d)
      ∧ Forall2
          (fun acc ds =>
             App.label ds = App.name acc
             ∧ List.length (App.data ds)
               = List.length (App.build_stacked_series float_ zero db accs).1
             ∧ ∀ i d, all_dates !! i = Some d →
                      ∃ v, App.data ds !! i = Some v
                           ∧ Spec.latest_value float_ zero db acc d v)
          accs (App.build_stacked_series float_ zero db accs).2)
  ∧ App.build_stacked_series float_ zero example_store [account_A; account_B]
    = (["2024-01-01"; "2024-02-01"; "2024-03-01"],
       [App.mkdataset "A"
          [float_ (Finite false 10000 (-2)); float_ (Finite false 10000 (-2));
           float_ (Finite false 30000 (-2))];
        App.mkdataset "B"
          [zero; float_ (Finite false 5000 (-2));
           float_ (Finite false 5000 (-2))]]).
Proof.
  split; [|by vm_compute].
  exists (axis db). rewrite build_stacked_series_unfold. simpl.
  split_and!; [done|apply axis_sorted|apply elem_of_axis|].
  apply Forall2_fmap_r, Forall_Forall2_diag, Forall_forall.
  intros acc _. simpl. split_and!; [done| |].
  - by rewrite length_carry_forward, length_fmap.
  - intros i d Hi. by apply stacked_entry.
Qed.

(** ** Deleting an account *)

Section deletion.

Import App Spec.

Lemma get_account_Some db i acc :
  get_account db i = Some acc → acc ∈ accounts db ∧ id acc = i.
Proof.
  unfold get_account. intros [Hin Hid]%find_some.
  split; [by apply list_elem_of_In|]. by apply Z.eqb_eq.
Qed.

Lemma carry_forward_no_entry {float : Type} (m : gmap date float) ds last :
  (∀ d, d ∈ ds → m !! d = None) →
  carry_forward m ds last = replicate (List.length ds) last.
Proof.
  induction ds as [|d ds IH]; intros Hm; simpl; [done|].
  rewrite (Hm d) by left. rewrite IH; [done|]. intros d' Hd'. apply Hm. by right.
Qed.

Lemma stacked_no_observation {float : Type} (float_ : Decimal → float)
    (zero : float) db acc :
  (∀ p, p ∈ balance_points db → account_id p ≠ id acc) →
  carry_forward
    (default ∅ (per_account_of float_
                  ((fun p => (account_id p, as_of_date p, balance p))
                     <$> merge_sort date_asc (balance_points db))
                !! id acc))
    (axis db) zero
  = replicate (List.length (axis db)) zero.
Proof.
  intros Hnone. apply carry_forward_no_entry. intros d _.
  destruct (default ∅ _ !! d) as [v|] eqn:Hv; [|done].
  apply (per_account_of_Some float_ _ (id acc) d v) in Hv
    as (bal & (p & Hp & Ha & _)%elem_of_rows & _).
  by apply Hnone in Hp.
Qed.

End deletion.

(** C9. Deleting an account that exists removes it and all of its
    observations and leaves the other accounts and observations as they
    were, in their order.  In a stacked series built afterwards every label
    is the date of an observation of another account, and a dataset built
    for the deleted account holds only zeros. *)
Theorem account_delete_cascade {float : Type} (float_ : Decimal → float)
    (zero : float) (db : App.Store) (account_id' : Z) (acc : App.Account) :
  App.get_account db account_id' = Some acc →
  ∃ db' msg,
    App.account_delete db account_id' = OK (db', msg)
    ∧ App.accounts db'
      = filter (fun a => App.id a ≠ account_id') (App.accounts db)
    ∧ App.balance_points db'
      = filter (fun p => App.account_id p ≠ account_id') (App.balance_points db)
    ∧ (∀ p, p ∈ App.balance_points db' → App.account_id p ≠ account_id')
    ∧ (∀ p, p ∈ App.balance_points db → App.account_id p ≠ account_id' →
            p ∈ App.balance_points db')
    ∧ (∀ a, a ∈ App.accounts db → App.id a ≠ account_id' →
            a ∈ App.accounts db')
    ∧ ∀ accs : list App.Account,
        (∀ l, l ∈ (App.build_stacked_series float_ zero db' accs).1 →
              ∃ p, p ∈ App.balance_points db
                   ∧ App.account_id p ≠ account_id'
                   ∧ l = App.iso (App.as_of_date p))
        ∧ Forall2
            (fun a ds =>
               App.id a = account_id' →
               App.data ds
               = replicate
                   (List.length (App.build_stacked_series float_ zero db' accs).1)
                   zero)
            accs (App.build_stacked_series float_ zero db' accs).2.
Proof.
  intros Hacc. pose proof (get_account_Some _ _ _ Hacc) as [Hin Hid].
  unfold App.account_delete. rewrite Hacc, Hid.
  eexists _, _. split; [done|].
  split_and!; try done.
  - by intros p [? _]%list_elem_of_filter.
  - intros p Hp Ha. by apply list_elem_of_filter.
  - intros a Ha Hne. by apply list_elem_of_filter.
  - intros accs. rewrite build_stacked_series_unfold. split.
    + intros l (d & -> & (p & [Hne Hp]%list_elem_of_filter & <-)%elem_of_axis)%list_elem_of_fmap.
      eauto.
    + apply Forall2_fmap_r, Forall_Forall2_diag, Forall_forall.
      intros a _ Ha. cbn [App.data fst]. rewrite length_fmap.
      apply stacked_no_observation.
      intros p [Hne _]%list_elem_of_filter. congruence.
Qed.

Lemma account_delete_cascade_witness :
  ∃ db' msg,
    App.account_delete example_store 1 = OK (db', msg)
    ∧ App.balance_points db'
      = [App.mkBalancePoint 2 2 (mkdate 2024 2 1) (Finite false 5000 (-2)) 0].
Proof.
  destruct (account_delete_cascade (fun d => d) (Finite false 0 0)
              example_store 1 account_A eq_refl)
    as (db' & msg & Hdel & _ & Hpoints & _).
  exists db', msg. split; [exact Hdel|]. rewrite Hpoints. reflexivity.
Defined.

(** ** Upsert and the uniqueness of observations *)

Section upsert_facts.

Import App Importer.

#[local] Arguments import_row : simpl never.
#[local] Arguments norm_row : simpl never.
#[local] Arguments parse_row : simpl never.
#[local] Arguments App.parse_decimal : simpl never.
#[local] Arguments App.parse_date : simpl never.
#[local] Arguments App.balance_add : simpl never.

Lemma point_at_Some db a d p :
  point_at db a d = Some p →
  p ∈ balance_points db ∧ (account_id p, as_of_date p) = (a, d).
Proof.
  unfold point_at. intros [Hin [Ha Hd]%andb_prop]%find_some.
  split; [by apply list_elem_of_In|].
  apply Z.eqb_eq in Ha. apply bool_decide_eq_true in Hd. congruence.
Qed.

Lemma point_at_None db a d p :
  point_at db a d = None → p ∈ balance_points db →
  (account_id p, as_of_date p) ≠ (a, d).
Proof.
  unfold point_at. intros Hnone Hin%list_elem_of_In [= Ha Hd].
  apply (find_none _ _ Hnone) in Hin.
  apply andb_false_iff in Hin as [Hf|Hf].
  - apply Z.eqb_neq in Hf. done.
  - apply bool_decide_eq_false in Hf. done.
Qed.

Lemma filter_none {A} (P : A → Prop) `{∀ x, Decision (P x)} (l : list A) :
  (∀ x, x ∈ l → ¬ P x) → filter P l = [].
Proof.
  induction l as [|x l IH]; intros Hl; [done|].
  rewrite filter_cons, decide_False by (apply Hl; left).
  apply IH. intros y Hy. apply Hl. by right.
Qed.

Lemma filter_key_unique {A K} `{EqDecision K} (key : A → K) (l : list A) p :
  NoDup (key <$> l) → p ∈ l →
  filter (fun q => key q = key p) l = [p].
Proof.
  induction l as [|x l IH]; intros Hnd Hin; [by apply elem_of_nil in Hin|].
  rewrite fmap_cons in Hnd. apply NoDup_cons in Hnd as [Hx Hnd].
  rewrite filter_cons. apply elem_of_cons in Hin as [->|Hin].
  - rewrite decide_True by done. f_equal. apply filter_none.
    intros y Hy Heq. apply Hx. rewrite <- Heq. by apply list_elem_of_fmap_2.
  - rewrite decide_False; [auto|].
    intros Heq. apply Hx. rewrite Heq. by apply list_elem_of_fmap_2.
Qed.

Lemma set_balance_key point bal p :
  (account_id (set_balance point bal p), as_of_date (set_balance point bal p))
  = (account_id p, as_of_date p).
Proof. unfold set_balance. by destruct (_ =? _). Qed.

Lemma keys_set_balance point bal (l : list BalancePoint) :
  (fun p => (account_id p, as_of_date p)) <$> (set_balance point bal <$> l)
  = (fun p => (account_id p, as_of_date p)) <$> l.
Proof.
  rewrite <- list_fmap_compose. apply list_fmap_ext.
  intros i p _. apply set_balance_key.
Qed.

Lemma filter_set_balance point bal k (l : list BalancePoint) :
  filter (fun p => (account_id p, as_of_date p) = k) (set_balance point bal <$> l)
  = set_balance point bal
      <$> filter (fun p => (account_id p, as_of_date p) = k) l.
Proof.
  induction l as [|x l IH]; [done|].
  rewrite fmap_cons, !filter_cons, IH, set_balance_key.
  by destruct (decide _).
Qed.

Lemma upsert_unfold now db a d bal :
  upsert now db a d bal =
    match point_at db a d with
    | Some point =>
        mkStore (accounts db) (set_balance point bal <$> balance_points db)
    | None =>
        mkStore (accounts db)
          (balance_points db
           ++ [mkBalancePoint (next_id (point_id <$> balance_points db))
                 a d bal now])
    end.
Proof. reflexivity. Qed.

(** After an upsert the account and the date have one observation, with
    the amount written. *)
Lemma upsert_at now db a d bal :
  uq_account_date db →
  ∃ p, observations_at (upsert now db a d bal) a d = [p] ∧ balance p = bal.
Proof.
  intros Huq. rewrite upsert_unfold. unfold observations_at.
  destruct (point_at db a d) as [point|] eqn:Hp; simpl.
  - apply point_at_Some in Hp as [Hin Hkey].
    rewrite filter_set_balance, <- Hkey.
    rewrite (filter_key_unique (fun p => (account_id p, as_of_date p))) by done.
    eexists. split; [done|]. unfold set_balance. by rewrite Z.eqb_refl.
  - rewrite filter_app, filter_none.
    + rewrite filter_cons, decide_True by done. eexists. split; [done|]. done.
    + intros p Hin. by apply (point_at_None db a d).
Qed.

Lemma upsert_uq now db a d bal :
  uq_account_date db → uq_account_date (upsert now db a d bal).
Proof.
  unfold uq_account_date. intros Huq. rewrite upsert_unfold.
  destruct (point_at db a d) as [point|] eqn:Hp; simpl.
  - by rewrite keys_set_balance.
  - rewrite fmap_app. apply NoDup_app. split_and!; [done| |apply NoDup_singleton].
    intros k (p & -> & Hin)%list_elem_of_fmap Hk.
    apply list_elem_of_singleton in Hk. simpl in Hk.
    by apply (point_at_None db a d p).
Qed.

Lemma upsert_accounts now db a d bal :
  accounts (upsert now db a d bal) = accounts db.
Proof. rewrite upsert_unfold. by destruct (point_at db a d). Qed.


(** The store a request of the form commits. *)
Lemma balance_add_store today now db i f1 f2 db' msg :
  balance_add today now db i f1 f2 = OK (db', msg) →
  db' = db ∨ ∃ a d bal, db' = upsert now db a d bal.
Proof.
  unfold balance_add. destruct (get_account db i) as [acc|]; [|done].
  destruct (parse_date _ _) as [d|]; [|intros [= <- _]; auto].
  destruct (App.parse_decimal _) as [bal|]; [|intros [= <- _]; auto].
  intros H. right. exists (id acc), d, bal. rewrite upsert_unfold.
  destruct (point_at db (id acc) d); by injection H as <- _.
Qed.

Lemma with_account_points now db n :
  balance_points (with_account now db n).1 = balance_points db.
Proof. unfold with_account. by destruct (account_by_name db n). Qed.



(** The body of the import loop, case by case. *)
Lemma import_row_unfold now db s raw :
  import_row now (db, s) raw =
    row ← norm_row raw;
    match parse_row row with
    | Raise _ => OK (db, skipped s)
    | OK (d, n, bal) =>
        if String.eqb n "" then OK (db, skipped s)
        else OK (upsert now (with_account now db n).1
                   (id (with_account now db n).2) d bal,
                 written now db n d s)
    end.
Proof.
  unfold import_row. destruct (norm_row raw) as [row|]; [|done]. simpl.
  destruct (parse_row row) as [[[d n] bal]|]; [|done].
  destruct (String.eqb n ""); [done|].
  rewrite upsert_unfold. unfold written, with_account.
  destruct (account_by_name db n) as [acc|]; simpl;
    by destruct (point_at _ _ d).
Qed.


(** Every run of the loop counts each row once: in the total, and in one of
    the inserted, the updated and the skipped. *)
Lemma import_rows_counts now st rows st' :
  import_rows now st rows = OK st' →
  rows_total st'.2 = rows_total st.2 + Z.of_nat (List.length rows)
  ∧ inserted_points st'.2 + updated_points st'.2 + skipped_rows st'.2
    = inserted_points st.2 + updated_points st.2 + skipped_rows st.2
      + Z.of_nat (List.length rows)
  ∧ inserted_points st.2 <= inserted_points st'.2
  ∧ updated_points st.2 <= updated_points st'.2
  ∧ skipped_rows st.2 <= skipped_rows st'.2.
Proof.
  revert st. induction rows as [|raw rows IH]; intros [db s]; simpl.
  - intros [= <-]. simpl. lia.
  - destruct (import_row now (db, s) raw) as [[db1 s1]|] eqn:Hrow;
      simpl; [|done]. intros Hrows. apply IH in Hrows. simpl in Hrows.
    rewrite import_row_unfold in Hrow.
    destruct (norm_row raw) as [row|]; [|done]. simpl in Hrow.
    destruct (parse_row row) as [[[d n] bal]|];
      [|injection Hrow as <- <-; simpl in *; lia].
    destruct (String.eqb n ""); injection Hrow as <- <-;
      [simpl in *; lia|].
    unfold written in Hrows. destruct (point_at _ _ d); simpl in *; lia.
Qed.




End upsert_facts.


Lemma example_store_uq : uq_account_date example_store.
Proof. unfold uq_account_date. apply (bool_decide_unpack _). by vm_compute. Qed.


(** ** The import *)

Section import_facts.

Import App Importer.

#[local] Arguments import_row : simpl never.

Lemma norm_items_raises row :
  (None ∈ row.*1) → norm_items row = Raise no_strip.
Proof.
  induction row as [|[[k|] v] row IH]; simpl.
  - by intros ?%elem_of_nil.
  - intros [[=]|Hin]%elem_of_cons. by rewrite IH.
  - done.
Qed.

Lemma norm_items_returns row :
  (None ∉ row.*1) → ∃ items, norm_items row = OK items.
Proof.
  induction row as [|[[k|] v] row IH]; simpl; intros Hnone.
  - eauto.
  - destruct IH as [items ->]; [|simpl; eauto].
    intros Hin. apply Hnone. by right.
  - exfalso. apply Hnone. left.
Qed.

Lemma dict_set_keys {V} (k : option string) (v : V) d k' :
  k' ∈ (dict_set k v d).*1 ↔ k' = k ∨ k' ∈ d.*1.
Proof.
  induction d as [|[k0 v0] d IH]; simpl.
  - rewrite elem_of_cons, elem_of_nil. tauto.
  - destruct (decide (k0 = k)) as [->|Hne]; simpl.
    + rewrite !elem_of_cons. tauto.
    + rewrite !elem_of_cons, IH. tauto.
Qed.

Lemma foldl_dict_set_fields (pairs : list (string * string)) d :
  None ∈ (foldl (fun d '(k, v) => dict_set (Some k) (Field v) d) d pairs).*1
  ↔ None ∈ d.*1.
Proof.
  revert d. induction pairs as [|[k v] pairs IH]; intros d; simpl; [done|].
  rewrite IH, dict_set_keys. intuition discriminate.
Qed.

Lemma foldl_dict_set_nofield (keys : list string) d :
  None ∈ (foldl (fun d key => dict_set (Some key) NoField d) d keys).*1
  ↔ None ∈ d.*1.
Proof.
  revert d. induction keys as [|k keys IH]; intros d; simpl; [done|].
  rewrite IH, dict_set_keys. intuition discriminate.
Qed.

(** A row has the key [None] exactly when it has more fields than the
    header. *)
Lemma row_dict_restkey fieldnames row :
  None ∈ (row_dict fieldnames row).*1
  ↔ (List.length fieldnames < List.length row)%nat.
Proof.
  unfold row_dict.
  destruct (Nat.ltb_spec (List.length fieldnames) (List.length row)) as [Hlt|Hge].
  - rewrite dict_set_keys. tauto.
  - destruct (Nat.ltb_spec (List.length row) (List.length fieldnames)).
    + rewrite foldl_dict_set_nofield, foldl_dict_set_fields.
      simpl. rewrite elem_of_nil. lia.
    + rewrite foldl_dict_set_fields. simpl. rewrite elem_of_nil. lia.
Qed.

Lemma import_row_raises now st raw e :
  import_row now st raw = Raise e → e = no_strip ∧ None ∈ raw.*1.
Proof.
  destruct st as [db s]. rewrite import_row_unfold. unfold norm_row.
  destruct (decide (None ∈ raw.*1)) as [Hin|Hnot].
  - rewrite norm_items_raises by done. simpl. by intros [= <-].
  - destruct (norm_items_returns raw Hnot) as [items ->]. simpl.
    repeat case_match; done.
Qed.

Lemma import_row_restkey now st raw :
  None ∈ raw.*1 → import_row now st raw = Raise no_strip.
Proof.
  intros Hin. destruct st as [db s]. rewrite import_row_unfold. unfold norm_row.
  by rewrite norm_items_raises.
Qed.

Lemma import_row_returns now st raw :
  None ∉ raw.*1 → ∃ st', import_row now st raw = OK st'.
Proof.
  intros Hnot. destruct (import_row now st raw) as [st'|e] eqn:H; [eauto|].
  by apply import_row_raises in H as [_ ?].
Qed.

(** The loop ends in the exception of [norm_row] as soon as a row has the
    key [None], and runs to its end otherwise. *)
Lemma import_rows_result now st rows :
  match import_rows now st rows with
  | OK _ => Forall (fun raw => None ∉ raw.*1) rows
  | Raise e => e = no_strip ∧ Exists (fun raw => None ∈ raw.*1) rows
  end.
Proof.
  revert st. induction rows as [|raw rows IH]; intros st; simpl; [done|].
  destruct (import_row now st raw) as [st1|e] eqn:H; simpl.
  - specialize (IH st1). destruct (import_rows now st1 rows).
    + constructor; [|done]. intros Hin.
      by rewrite import_row_restkey in H.
    + destruct IH as [-> ?]. split; [done|]. by right.
  - apply import_row_raises in H as [-> ?]. split; [done|]. by left.
Qed.

Lemma import_csv_unfold now db fieldnames rows :
  header_ok fieldnames = true →
  import_csv now db (fieldnames :: rows)
  = import_rows now (db, mkstats 0 0 0 0 0)
      (row_dict fieldnames <$> filter (fun row => row ≠ []) rows).
Proof. unfold import_csv, header_ok. simpl. by intros ->. Qed.

(** A row with more fields than the header ends the import with the
    exception of [norm_row]. *)
Lemma import_csv_aborts now db fieldnames rows :
  header_ok fieldnames = true →
  Exists (fun row => (List.length fieldnames < List.length row)%nat) rows →
  import_csv now db (fieldnames :: rows) = Raise no_strip.
Proof.
  intros Hh Hex. rewrite import_csv_unfold by done.
  pose proof (import_rows_result now (db, mkstats 0 0 0 0 0)
                (row_dict fieldnames <$> filter (fun row => row ≠ []) rows)) as H.
  destruct (import_rows _ _ _) as [st|e]; [|by destruct H as [-> _]].
  exfalso. rewrite Forall_fmap, Forall_forall in H.
  apply Exists_exists in Hex as (row & Hin & Hlen).
  apply (H row).
  - apply list_elem_of_filter. split; [|done]. intros ->. simpl in Hlen. lia.
  - by apply row_dict_restkey.
Qed.


End import_facts.

(** C8, where the code departs from it.  A row with more fields than the
    header, here one with a trailing delimiter, ends the whole import with
    an [AttributeError] raised by [norm_row] outside the [try]: the row is
    not skipped, no counters are returned and nothing is committed, also
    when rows before it were good.  The same holds for every import whose
    header passes the check and one of whose rows is longer than the
    header. *)
Theorem import_csv_extra_field_aborts (now : Z) (db : App.Store) :
  Importer.import_csv now db
    [["date"; "accountname"; "balance"];
     ["01.01.2024"; "A"; "1.00"];
     ["02.01.2024"; "A"; "2.00"; ""]]
  = Raise (AttributeError "'NoneType' object has no attribute 'strip'")
  ∧ ∀ fieldnames rows,
      header_ok fieldnames = true →
      Exists (fun row => (List.length fieldnames < List.length row)%nat) rows →
      Importer.import_csv now db (fieldnames :: rows)
      = Raise (AttributeError "'NoneType' object has no attribute 'strip'").
Proof.
  split.
  - apply import_csv_aborts; [done|].
    apply Exists_cons_tl, Exists_cons_hd. simpl. lia.
  - intros fieldnames rows. apply import_csv_aborts.
Qed.

(** Rules 1 to 5 of the amount parser, for both copies of it: an input that
    is empty after trimming is rejected as missing; otherwise the result is
    that of rule 5 on the input normalized by rules 2 to 4, a failure of
    rule 5 being raised as [ValueError]. *)
Theorem parse_decimal_rules (v : string) :
  App.parse_decimal None = Raise (ValueError "missing")
  ∧ Importer.parse_decimal None = Raise (ValueError "missing")
  ∧ App.parse_decimal (Some v) =
      (if String.eqb (Str.strip v) "" then Raise (ValueError "missing")
       else except_InvalidOperation (Spec.fixed_point (Spec.normalized v))
              "invalid number")
  ∧ Importer.parse_decimal (Some v) =
      (if String.eqb (Str.strip v) "" then Raise (ValueError "missing")
       else except_InvalidOperation (Spec.fixed_point (Spec.normalized v))
              ("invalid number: " +:+ v)).
Proof.
  split_and!; [done|done|apply App_parse_decimal_rules|
               apply Importer_parse_decimal_rules].
Qed.


(** ** The constraints of the schema *)

Section constraints.
Import App Importer.

#[local] Arguments import_row : simpl never.
#[local] Arguments norm_row : simpl never.
#[local] Arguments parse_row : simpl never.
#[local] Arguments App.parse_decimal : simpl never.
#[local] Arguments App.parse_date : simpl never.
#[local] Arguments App.balance_add : simpl never.

Lemma next_id_gt ids i : i ∈ ids → i < next_id ids.
Proof.
  unfold next_id. induction ids as [|j ids IH]; [by intros ?%elem_of_nil|].
  simpl. intros [->|Hin]%elem_of_cons; [lia|]. apply IH in Hin. lia.
Qed.

Lemma next_id_fresh ids : next_id ids ∉ ids.
Proof. intros Hin%next_id_gt. lia. Qed.

Lemma NoDup_snoc {A} (l : list A) x : NoDup l → x ∉ l → NoDup (l ++ [x]).
Proof.
  intros Hnd Hx. apply NoDup_app. split_and!; [done| |apply NoDup_singleton].
  intros y Hy ->%list_elem_of_singleton. done.
Qed.

Lemma account_by_name_None db n :
  account_by_name db n = None → n ∉ name <$> accounts db.
Proof.
  unfold account_by_name. intros Hnone (a & -> & Hin)%list_elem_of_fmap.
  apply list_elem_of_In in Hin. apply (find_none _ _ Hnone) in Hin.
  by rewrite String.eqb_refl in Hin.
Qed.

Lemma account_by_name_Some db n acc :
  account_by_name db n = Some acc → acc ∈ accounts db ∧ name acc = n.
Proof.
  unfold account_by_name. intros [Hin Hn]%find_some.
  split; [by apply list_elem_of_In|]. by apply String.eqb_eq.
Qed.

Lemma ids_set_balance point bal (l : list BalancePoint) :
  point_id <$> (set_balance point bal <$> l) = point_id <$> l.
Proof.
  rewrite <- list_fmap_compose. apply list_fmap_ext.
  intros i p _. simpl. unfold set_balance. by destruct (_ =? _).
Qed.

Lemma NoDup_fmap_filter {A B} (f : A → B) (P : A → Prop)
    `{∀ x, Decision (P x)} (l : list A) :
  NoDup (f <$> l) → NoDup (f <$> filter P l).
Proof.
  induction l as [|x l IH]; [done|].
  rewrite fmap_cons, NoDup_cons. intros [Hx Hnd].
  rewrite filter_cons. destruct (decide (P x)); [|auto].
  rewrite fmap_cons. apply NoDup_cons. split; [|auto].
  intros (y & Heq & [_ Hin]%list_elem_of_filter)%list_elem_of_fmap.
  apply Hx. rewrite Heq. by apply list_elem_of_fmap_2.
Qed.

(** The accounts after [acc.name = ...; acc.account_type = ...]: the ids
    stay, and the names stay apart when no other account has the new one. *)
Lemma ids_update (acc acc' : Account) (l : list Account) :
  id acc' = id acc →
  id <$> ((fun a => if id a =? id acc then acc' else a) <$> l) = id <$> l.
Proof.
  intros Hid. rewrite <- list_fmap_compose. apply list_fmap_ext.
  intros i a _. simpl. destruct (Z.eqb_spec (id a) (id acc)); congruence.
Qed.

Lemma names_update (acc acc' : Account) (l : list Account) :
  NoDup (id <$> l) → NoDup (name <$> l) → acc ∈ l →
  find (fun a => String.eqb (name a) (name acc') && negb (id a =? id acc)) l
    = None →
  NoDup (name <$> ((fun a => if id a =? id acc then acc' else a) <$> l)).
Proof.
  intros Hids Hnames Hacc Hfind.
  assert (∀ a, a ∈ l → id a ≠ id acc → name a ≠ name acc') as Hother.
  { intros a Hin%list_elem_of_In Hne Heq.
    apply (find_none _ _ Hfind) in Hin.
    apply andb_false_iff in Hin as [Hf|Hf].
    - apply String.eqb_neq in Hf. done.
    - apply negb_false_iff, Z.eqb_eq in Hf. done. }
  clear Hfind. induction l as [|x l IH]; [constructor|].
  rewrite !fmap_cons in *. apply NoDup_cons in Hids as [Hix Hids].
  apply NoDup_cons in Hnames as [Hnx Hnames].
  assert (∀ a, a ∈ l → id a ≠ id x) as Hlx.
  { intros a Ha Heq. apply Hix. rewrite <- Heq. by apply list_elem_of_fmap_2. }
  apply NoDup_cons. destruct (Z.eqb_spec (id x) (id acc)) as [Hx|Hx].
  - assert ((fun a => if id a =? id acc then acc' else a) <$> l = l) as ->.
    { rewrite <- (list_fmap_id l) at 2. apply list_fmap_ext. intros i a Ha.
      simpl. apply list_elem_of_lookup_2 in Ha.
      destruct (Z.eqb_spec (id a) (id acc)); [|done].
      exfalso. apply (Hlx a Ha). congruence. }
    split; [|done]. intros (a & Heq & Ha)%list_elem_of_fmap.
    apply (Hother a); [by right| |done]. rewrite <- Hx. by apply Hlx.
  - split.
    + intros (a & Heq & Ha)%list_elem_of_fmap.
      apply list_elem_of_fmap in Ha as (b & -> & Hb).
      destruct (Z.eqb_spec (id b) (id acc)).
      * apply (Hother x); [left|done|done].
      * apply Hnx. rewrite Heq. by apply list_elem_of_fmap_2.
    + apply IH; try done.
      * apply elem_of_cons in Hacc as [->|Hacc]; done.
      * intros a Ha. apply Hother. by right.
Qed.


Lemma upsert_primary_keys now db a d bal :
  primary_keys db → primary_keys (upsert now db a d bal).
Proof.
  intros [Ha Hp]. rewrite upsert_unfold. unfold primary_keys.
  destruct (point_at db a d); simpl.
  - by rewrite ids_set_balance.
  - split; [done|]. rewrite fmap_app. apply NoDup_snoc; [done|].
    apply next_id_fresh.
Qed.

Lemma upsert_foreign_keys now db a d bal :
  a ∈ id <$> accounts db → foreign_keys db →
  foreign_keys (upsert now db a d bal).
Proof.
  unfold foreign_keys. rewrite !Forall_forall.
  intros Ha Hfk. rewrite upsert_unfold.
  destruct (point_at db a d) as [p0|]; simpl.
  - intros p (q & -> & Hq)%list_elem_of_fmap.
    pose proof (f_equal fst (set_balance_key p0 bal q)) as Hk. simpl in Hk.
    rewrite Hk. auto.
  - intros p [Hp| ->%list_elem_of_singleton]%elem_of_app; auto.
Qed.

Lemma with_account_primary_keys now db n :
  primary_keys db → primary_keys (with_account now db n).1.
Proof.
  intros [Ha Hp]. unfold with_account, primary_keys.
  destruct (account_by_name db n); simpl; [done|].
  split; [|done]. rewrite fmap_app. apply NoDup_snoc; [done|].
  apply next_id_fresh.
Qed.

Lemma with_account_uq_name now db n :
  uq_name db → uq_name (with_account now db n).1.
Proof.
  unfold with_account, uq_name.
  destruct (account_by_name db n) eqn:Hn; simpl; [done|].
  intros Hnd. rewrite fmap_app. apply NoDup_snoc; [done|].
  by apply account_by_name_None.
Qed.

Lemma with_account_elem now db n :
  (with_account now db n).2 ∈ accounts (with_account now db n).1.
Proof.
  unfold with_account. destruct (account_by_name db n) eqn:Hn; simpl.
  - by apply account_by_name_Some in Hn as [? _].
  - apply elem_of_app. right. by apply list_elem_of_singleton.
Qed.

Lemma with_account_foreign_keys now db n :
  foreign_keys db → foreign_keys (with_account now db n).1.
Proof.
  unfold with_account, foreign_keys. rewrite !Forall_forall.
  destruct (account_by_name db n); simpl; [done|].
  intros Hfk p Hp. rewrite fmap_app, elem_of_app. auto.
Qed.

(** What a row of the import does to the store. *)
Lemma import_row_store now db s raw db' s' :
  import_row now (db, s) raw = OK (db', s') →
  db' = db
  ∨ ∃ n d bal,
      db' = upsert now (with_account now db n).1
              (id (with_account now db n).2) d bal.
Proof.
  rewrite import_row_unfold. destruct (norm_row raw) as [row|]; [|done].
  simpl. destruct (parse_row row) as [[[d n] bal]|]; [|intros [= <- _]; auto].
  destruct (String.eqb n ""); intros [= <- _]; eauto.
Qed.

Lemma import_rows_invariant (P : Store → Prop) now st rows st' :
  (∀ db n d bal,
     P db → P (upsert now (with_account now db n).1
                 (id (with_account now db n).2) d bal)) →
  import_rows now st rows = OK st' → P st.1 → P st'.1.
Proof.
  intros Hstep. revert st. induction rows as [|raw rows IH]; intros [db s]; simpl.
  - by intros [= <-].
  - destruct (import_row now (db, s) raw) as [[db1 s1]|] eqn:Hrow;
      simpl; [|done]. intros Hrows HP. apply (IH _ Hrows). simpl.
    apply import_row_store in Hrow as [->|(n & d & bal & ->)]; auto.
Qed.

Lemma import_csv_invariant (P : Store → Prop) now db rows :
  (∀ db n d bal,
     P db → P (upsert now (with_account now db n).1
                 (id (with_account now db n).2) d bal)) →
  P db →
  P match import_csv now db rows with OK (db', _) => db' | Raise _ => db end.
Proof.
  intros Hstep HP. unfold import_csv.
  destruct (DictReader rows) as [fieldnames reader].
  destruct (negb _); [done|].
  destruct (import_rows now _ reader) as [[db' s']|] eqn:H; [|done].
  by apply (import_rows_invariant P _ _ _ _ Hstep H).
Qed.

(** The store [accounts_create] commits: the old one, or the old one with
    one more account, under a new id and a name no account had. *)
Lemma accounts_create_store now db n t e a :
  (accounts_create now db n t e a).1 = db
  ∨ ∃ acc,
      (accounts_create now db n t e a).1
        = mkStore (accounts db ++ [acc]) (balance_points db)
      ∧ id acc = next_id (id <$> accounts db)
      ∧ account_by_name db (name acc) = None.
Proof.
  unfold accounts_create. destruct (String.eqb _ ""); [auto|].
  destruct (App.parse_decimal _); [|auto].
  destruct (account_by_name db _) eqn:Hn; [auto|].
  right. eexists. split_and!; [done|done|done].
Qed.

(** The store [account_settings] commits: the old one, or the old one with
    the row of the account replaced by one of the same id, whose name no
    other account has. *)
Lemma account_settings_store db i n t e a db' msg :
  account_settings db i n t e a = OK (db', msg) →
  db' = db
  ∨ ∃ acc acc',
      db' = mkStore ((fun a => if id a =? id acc then acc' else a)
                       <$> accounts db) (balance_points db)
      ∧ acc ∈ accounts db ∧ id acc' = id acc
      ∧ find (fun a => String.eqb (name a) (name acc') && negb (id a =? id acc))
          (accounts db) = None.
Proof.
  unfold account_settings.
  destruct (get_account db i) as [acc|] eqn:Hacc; [|done].
  apply get_account_Some in Hacc as [Hin _].
  destruct (String.eqb _ ""); [intros [= <- _]; auto|].
  destruct (find _ _) eqn:Hf; [intros [= <- _]; auto|].
  destruct (App.parse_decimal _); [|intros [= <- _]; auto].
  intros [= <- _]. right. eexists acc, _. split_and!; [done|done|done|exact Hf].
Qed.

Lemma handle_primary_keys today now db r :
  primary_keys db → primary_keys (handle today now db r).
Proof.
  intros Hpk. pose proof Hpk as [Ha Hp].
  destruct r as [n t e a|i n t e a|i|i f1 f2|i|rows]; simpl.
  - destruct (accounts_create_store now db n t e a)
      as [->|(acc & -> & Hid & _)]; [done|].
    split; [|done]. simpl. rewrite fmap_app. apply NoDup_snoc; [done|].
    simpl. rewrite Hid. apply next_id_fresh.
  - destruct (account_settings db i n t e a) as [[db' msg]|] eqn:H; [|done].
    apply account_settings_store in H
      as [->|(acc & acc' & -> & Hin & Hid & _)]; [done|].
    split; [|done]. simpl. by rewrite ids_update.
  - unfold account_delete. destruct (get_account db i); [|done]. simpl.
    split; simpl; by apply NoDup_fmap_filter.
  - destruct (balance_add today now db i f1 f2) as [[db' msg]|] eqn:H; [|done].
    apply balance_add_store in H as [->|(a & d & bal & ->)]; [done|].
    by apply upsert_primary_keys.
  - unfold balance_delete. destruct (find _ _); [|done]. simpl.
    split; [done|]. simpl. by apply NoDup_fmap_filter.
  - apply (import_csv_invariant primary_keys); [|done].
    intros. by apply upsert_primary_keys, with_account_primary_keys.
Qed.

Lemma upsert_uq_name now db a d bal : uq_name db → uq_name (upsert now db a d bal).
Proof. unfold uq_name. by rewrite upsert_accounts. Qed.

Lemma handle_uq_name today now db r :
  primary_keys db → uq_name db → uq_name (handle today now db r).
Proof.
  intros [Ha Hp] Hn.
  destruct r as [n t e a|i n t e a|i|i f1 f2|i|rows]; simpl.
  - destruct (accounts_create_store now db n t e a)
      as [->|(acc & -> & _ & Hname)]; [done|].
    unfold uq_name. simpl. rewrite fmap_app. apply NoDup_snoc; [done|].
    by apply account_by_name_None.
  - destruct (account_settings db i n t e a) as [[db' msg]|] eqn:H; [|done].
    apply account_settings_store in H
      as [->|(acc & acc' & -> & Hin & Hid & Hfind)]; [done|].
    unfold uq_name. simpl. by apply names_update.
  - unfold account_delete. destruct (get_account db i); [|done]. simpl.
    by apply NoDup_fmap_filter.
  - destruct (balance_add today now db i f1 f2) as [[db' msg]|] eqn:H; [|done].
    apply balance_add_store in H as [->|(a & d & bal & ->)]; [done|].
    by apply upsert_uq_name.
  - unfold balance_delete. destruct (find _ _); [|done]. done.
  - apply (import_csv_invariant uq_name); [|done].
    intros. by apply upsert_uq_name, with_account_uq_name.
Qed.

Lemma handle_foreign_keys today now db r :
  foreign_keys db → foreign_keys (handle today now db r).
Proof.
  intros Hfk. pose proof Hfk as Hfk'.
  unfold foreign_keys in Hfk' |- *. rewrite Forall_forall in Hfk'.
  destruct r as [n t e a|i n t e a|i|i f1 f2|i|rows]; simpl.
  - destruct (accounts_create_store now db n t e a)
      as [->|(acc & -> & _ & _)]; [done|].
    apply Forall_forall. intros p Hp. simpl in *. rewrite fmap_app, elem_of_app. auto.
  - destruct (account_settings db i n t e a) as [[db' msg]|] eqn:H; [|done].
    apply account_settings_store in H
      as [->|(acc & acc' & -> & Hin & Hid & _)]; [done|].
    apply Forall_forall. intros p Hp. simpl in *. rewrite ids_update by done. auto.
  - unfold account_delete. destruct (get_account db i) as [acc|]; [|done].
    simpl. apply Forall_forall. intros p [Hne Hp]%list_elem_of_filter. simpl.
    apply Hfk' in Hp as (a & Heq & Ha)%list_elem_of_fmap.
    apply list_elem_of_fmap. exists a. split; [done|].
    apply list_elem_of_filter. split; [congruence|done].
  - destruct (balance_add today now db i f1 f2) as [[db' msg]|] eqn:H; [|done].
    simpl. revert H. unfold balance_add.
    destruct (get_account db i) as [acc|] eqn:Hacc; [|done].
    apply get_account_Some in Hacc as [Hin _].
    destruct (parse_date _ _) as [d|]; [|by intros [= <- _]].
    destruct (App.parse_decimal _) as [bal|]; [|by intros [= <- _]].
    assert (foreign_keys (upsert now db (id acc) d bal)) as H.
    { apply upsert_foreign_keys; [|done]. by apply list_elem_of_fmap_2. }
    rewrite upsert_unfold in H.
    destruct (point_at db (id acc) d); by intros [= <- _].
  - unfold balance_delete. destruct (find _ _); [|done]. simpl.
    apply Forall_forall. intros p [_ Hp]%list_elem_of_filter. by apply Hfk'.
  - apply (import_csv_invariant foreign_keys); [|done].
    intros db0 n d bal H0. apply upsert_foreign_keys.
    + apply list_elem_of_fmap_2, with_account_elem.
    + by apply with_account_foreign_keys.
Qed.

End constraints.

(** The keys of the schema.  Every operation keeps the primary keys of the
    two tables and the names of the accounts unique: a new row gets an id
    that no row has, and an account is created or renamed only when no
    other account has the name. *)
Theorem handle_keeps_unique_keys (today : date) (now : Z) (db : App.Store)
    (r : request) :
  primary_keys db → uq_name db →
  primary_keys (handle today now db r) ∧ uq_name (handle today now db r).
Proof.
  intros Hpk Hn. split; [by apply handle_primary_keys|by apply handle_uq_name].
Qed.

Lemma handle_keeps_unique_keys_witness :
  let db :=
    handle (mkdate 2026 11 3) 10 example_store
      (ImportCsv [["date"; "accountname"; "balance"];
                  ["05.01.2024"; "C"; "1,5"]; ["06.01.2024"; "C"; "2"]]) in
  primary_keys db ∧ uq_name db.
Proof.
  apply (handle_keeps_unique_keys (mkdate 2026 11 3) 10 example_store
           (ImportCsv [["date"; "accountname"; "balance"];
                       ["05.01.2024"; "C"; "1,5"]; ["06.01.2024"; "C"; "2"]])).
  - split; apply (bool_decide_unpack _); vm_compute; exact I.
  - apply (bool_decide_unpack _). vm_compute. exact I.
Defined.

(** No observation without its account.  Every operation keeps the foreign
    key of the observations: the form and the import write for an account
    of the store, and deleting an account deletes its observations. *)
Theorem handle_keeps_foreign_keys (today : date) (now : Z) (db : App.Store)
    (r : request) :
  foreign_keys db → foreign_keys (handle today now db r).
Proof. apply handle_foreign_keys. Qed.

Lemma handle_keeps_foreign_keys_witness :
  foreign_keys (handle (mkdate 2026 11 3) 10 example_store (AccountDelete 1)).
Proof.
  apply (handle_keeps_foreign_keys (mkdate 2026 11 3) 10 example_store
           (AccountDelete 1)).
  apply (bool_decide_unpack _). vm_compute. exact I.
Defined.

(** ** The current balance after a write, and the forms *)

Section current.
Import App Importer.

#[local] Arguments App.parse_decimal : simpl never.
#[local] Arguments App.parse_date : simpl never.

(** The observations of an account. *)
Lemma elem_of_observations db (acc : Account) p :
  p ∈ filter (fun p => account_id p = id acc) (balance_points db)
  ↔ p ∈ balance_points db ∧ account_id p = id acc.
Proof. rewrite list_elem_of_filter. tauto. Qed.

(** The head of [Account.balances] has the latest date. *)
Lemma balances_head db acc :
  match balances db acc with
  | [] => ∀ p, p ∈ balance_points db → account_id p ≠ id acc
  | h :: _ =>
      h ∈ balance_points db ∧ account_id h = id acc
      ∧ ∀ q, q ∈ balance_points db → account_id q = id acc →
             date_le (as_of_date q) (as_of_date h)
  end.
Proof.
  unfold balances.
  set (obs := filter (fun p => account_id p = id acc) (balance_points db)).
  pose proof (merge_sort_Permutation newest_first obs) as Hperm.
  pose proof (StronglySorted_merge_sort newest_first obs) as Hsorted.
  destruct (merge_sort newest_first obs) as [|h l].
  - apply Permutation_nil_l in Hperm. intros p Hp Ha.
    assert (p ∈ obs) as Hin by by apply elem_of_observations.
    rewrite <- Hperm in Hin. by apply elem_of_nil in Hin.
  - assert (h ∈ obs) as [Hh Ha]%elem_of_observations
        by (rewrite <- Hperm; left).
    split_and!; [done|done|]. intros q Hq Hqa.
    assert (q ∈ h :: l) as [->|Hin]%elem_of_cons
        by (rewrite Hperm; by apply elem_of_observations).
    + done.
    + apply StronglySorted_inv in Hsorted as [_ Hall].
      rewrite Forall_forall in Hall. apply Hall in Hin as [H|[H1 H2]].
      * by apply date_lt_le.
      * by rewrite H1.
Qed.

Lemma uq_account_date_eq db p q :
  uq_account_date db → p ∈ balance_points db → q ∈ balance_points db →
  account_id p = account_id q → as_of_date p = as_of_date q → p = q.
Proof.
  unfold uq_account_date. generalize (balance_points db).
  induction l as [|x l IH]; [by intros _ ?%elem_of_nil|].
  rewrite fmap_cons, NoDup_cons. intros [Hx Hnd] Hp Hq Ha Hd.
  assert (∀ y, y ∈ l → account_id y = account_id x →
               as_of_date y = as_of_date x → False) as Hno.
  { intros y Hy H1 H2. apply Hx. rewrite <- H1, <- H2.
    by apply (list_elem_of_fmap_2 (fun p => (account_id p, as_of_date p))). }
  apply elem_of_cons in Hp as [->|Hp], Hq as [->|Hq]; [done| | |auto].
  - exfalso. by apply (Hno q).
  - exfalso. by apply (Hno p).
Qed.

(** With at most one observation per date, the current balance is the
    amount of the observation with the latest date. *)
Lemma current_balance_at db acc p :
  uq_account_date db →
  p ∈ balance_points db → account_id p = id acc →
  (∀ q, q ∈ balance_points db → account_id q = id acc →
        date_le (as_of_date q) (as_of_date p)) →
  current_balance db acc = balance p.
Proof.
  intros Huq Hp Ha Hmax. unfold current_balance.
  pose proof (balances_head db acc) as H.
  destruct (balances db acc) as [|h l].
  - by apply H in Hp.
  - destruct H as (Hh & Hha & Hhmax).
    f_equal. apply (uq_account_date_eq db); [done..|congruence|].
    apply (anti_symm date_le); auto.
Qed.

Lemma current_balance_none db acc :
  (∀ p, p ∈ balance_points db → account_id p ≠ id acc) →
  current_balance db acc = Finite false 0 (-2).
Proof.
  intros Hnone. unfold current_balance.
  pose proof (balances_head db acc) as H.
  destruct (balances db acc) as [|h l]; [done|].
  destruct H as (Hh & Hha & _). by apply Hnone in Hh.
Qed.



Lemma point_id_inj db p q :
  primary_keys db → p ∈ balance_points db → q ∈ balance_points db →
  point_id p = point_id q → p = q.
Proof.
  intros [_ Hnd]. revert Hnd. generalize (balance_points db).
  induction l as [|x l IH]; [by intros _ ?%elem_of_nil|].
  rewrite fmap_cons, NoDup_cons. intros [Hx Hnd] Hp Hq Heq.
  apply elem_of_cons in Hp as [->|Hp], Hq as [->|Hq]; [done| | |auto].
  - exfalso. apply Hx. rewrite Heq. by apply list_elem_of_fmap_2.
  - exfalso. apply Hx. rewrite <- Heq. by apply list_elem_of_fmap_2.
Qed.



Lemma upsert_elem now db a d bal :
  uq_account_date db →
  ∃ p, p ∈ balance_points (upsert now db a d bal)
       ∧ account_id p = a ∧ as_of_date p = d ∧ balance p = bal.
Proof.
  intros Huq. destruct (upsert_at now db a d bal Huq) as (p & Hobs & Hbal).
  assert (p ∈ observations_at (upsert now db a d bal) a d) as Hin
      by (rewrite Hobs; left).
  apply list_elem_of_filter in Hin as [[= Ha Hd] Hin]. eauto.
Qed.

(** An observation of another date stays when the account and the date are
    written. *)
Lemma upsert_keeps now db a d bal q :
  primary_keys db → uq_account_date db →
  q ∈ balance_points db → (account_id q, as_of_date q) ≠ (a, d) →
  q ∈ balance_points (upsert now db a d bal).
Proof.
  intros Hpk Huq Hq Hne. rewrite upsert_unfold.
  destruct (point_at db a d) as [point|] eqn:Hpoint; simpl.
  - apply point_at_Some in Hpoint as [Hin Hkey].
    apply list_elem_of_fmap. exists q. split; [|done].
    unfold set_balance.
    destruct (Z.eqb_spec (point_id q) (point_id point)) as [Heq|]; [|done].
    apply (point_id_inj db) in Heq as ->; done.
  - apply elem_of_app. by left.
Qed.




End current.


Lemma example_store_primary_keys : primary_keys example_store.
Proof. split; apply (bool_decide_unpack _); by vm_compute. Qed.


Section handlers.
Import App Importer.

#[local] Arguments App.parse_decimal : simpl never.
#[local] Arguments App.parse_date : simpl never.




End handlers.



Section forms.
Import App Importer.

#[local] Arguments App.parse_decimal : simpl never.
#[local] Arguments App.parse_date : simpl never.


End forms.


Lemma example_store_foreign_keys : foreign_keys example_store.
Proof. apply (bool_decide_unpack _). by vm_compute. Qed.




(** A request that ends in a message of failure leaves the store as it
    was: the store changes only together with a message of the category
    success (forms) or info (deletions). *)
Theorem failed_request_keeps_store (today : date) (now : Z) (db db' : App.Store)
    (msg category : string) :
  (∀ n t e a,
     App.accounts_create now db n t e a = (db', (msg, category)) →
     category ≠ "success" → db' = db)
  ∧ (∀ i n t e a,
       App.account_settings db i n t e a = OK (db', (msg, category)) →
       category ≠ "success" → db' = db)
  ∧ (∀ i f1 f2,
       App.balance_add today now db i f1 f2 = OK (db', (msg, category)) →
       category ≠ "success" → db' = db)
  ∧ (∀ i, App.account_delete db i = OK (db', (msg, category)) →
          category = "info" ∧ is_Some (App.get_account db i))
  ∧ (∀ i, App.balance_delete db i = OK (db', (msg, category)) →
          category = "info"
          ∧ ∃ p, p ∈ App.balance_points db ∧ App.point_id p = i).
Proof.
  split_and!.
  - intros n t e a. unfold App.accounts_create.
    repeat case_match; intros [= <- <- <-]; done.
  - intros i n t e a. unfold App.account_settings.
    repeat case_match; intros [= <- <- <-]; done.
  - intros i f1 f2. unfold App.balance_add.
    repeat case_match; intros [= <- <- <-]; done.
  - intros i. unfold App.account_delete.
    destruct (App.get_account db i); [|done]. intros [= <- <- <-]. eauto.
  - intros i. unfold App.balance_delete.
    destruct (find _ _) as [p|] eqn:Hp; [|done]. intros [= <- <- <-].
    apply find_some in Hp as [Hin Hid%Z.eqb_eq]. split; [done|].
    exists p. split; [by apply list_elem_of_In|done].
Qed.

Lemma failed_request_keeps_store_witness :
  App.balance_add (mkdate 2026 11 3) 10 example_store 1 (Some "2024-02-30")
    (Some "1")
  = OK (example_store, ("Date must be in YYYY-MM-DD format.", "danger"))
  ∧ example_store = example_store.
Proof.
  split; [reflexivity|].
  apply (proj1 (proj2 (proj2
           (failed_request_keeps_store (mkdate 2026 11 3) 10 example_store
              example_store "Date must be in YYYY-MM-DD format." "danger")))
           1 (Some "2024-02-30") (Some "1")); [reflexivity|discriminate].
Defined.

(** ** What an import stores *)

Section growth.
Import App Importer.
#[local] Open Scope list_scope.

#[local] Arguments import_row : simpl never.
#[local] Arguments norm_row : simpl never.
#[local] Arguments parse_row : simpl never.

Lemma shape_set_balance point bal (l : list BalancePoint) :
  shape <$> (set_balance point bal <$> l) = shape <$> l.
Proof.
  rewrite <- list_fmap_compose. apply list_fmap_ext.
  intros i p _. simpl. unfold set_balance, shape. by destruct (_ =? _).
Qed.

(** A row that is written adds an account when the name is new and an
    observation when the account has none on the date, as its counters
    say; what was stored stays in its place. *)
Lemma written_growth now db n d bal s :
  let db' := upsert now (with_account now db n).1
               (id (with_account now db n).2) d bal in
  let s' := written now db n d s in
  (∃ l, accounts db' = accounts db ++ l
        ∧ created_accounts s' = created_accounts s + Z.of_nat (List.length l)
        ∧ Forall (fun a => (name a, account_type a, monthly_payment a)
                           = (n, "other", Finite false 0 (-2))) l)
  ∧ (∃ k, shape <$> balance_points db' = (shape <$> balance_points db) ++ k
          ∧ inserted_points s' = inserted_points s + Z.of_nat (List.length k)).
Proof.
  simpl. rewrite upsert_accounts, upsert_unfold. unfold written.
  pose proof (with_account_points now db n) as Hwp.
  split.
  - unfold with_account. destruct (account_by_name db n); simpl.
    + exists []. rewrite app_nil_r.
      split_and!; [done|destruct (point_at _ _ _); simpl; lia|constructor].
    + eexists [_]. split_and!; [done|destruct (point_at _ _ _); simpl; lia|].
      by repeat constructor.
  - rewrite <- Hwp. destruct (point_at _ _ _); simpl.
    + exists []. rewrite app_nil_r, shape_set_balance. split; [done|].
      simpl. lia.
    + eexists [_]. rewrite fmap_app. split; [done|]. simpl. lia.
Qed.

Lemma import_rows_growth now st rows st' :
  import_rows now st rows = OK st' →
  (∃ l, accounts st'.1 = accounts st.1 ++ l
        ∧ created_accounts st'.2
          = created_accounts st.2 + Z.of_nat (List.length l)
        ∧ Forall (fun a => (account_type a, monthly_payment a)
                           = ("other", Finite false 0 (-2))) l)
  ∧ (∃ k, shape <$> balance_points st'.1 = (shape <$> balance_points st.1) ++ k
          ∧ inserted_points st'.2
            = inserted_points st.2 + Z.of_nat (List.length k)).
Proof.
  revert st. induction rows as [|raw rows IH]; intros [db s]; simpl.
  - intros [= <-]. simpl. split.
    + exists []. rewrite app_nil_r. split_and!; [done|simpl; lia|constructor].
    + exists []. rewrite app_nil_r. split; [done|simpl; lia].
  - destruct (import_row now (db, s) raw) as [[db1 s1]|] eqn:Hrow;
      simpl; [|done]. intros Hrows.
    apply IH in Hrows as [(l2 & Ha2 & Hc2 & Hf2) (k2 & Hp2 & Hi2)].
    simpl in *.
    assert ((∃ l, accounts db1 = accounts db ++ l
        ∧ created_accounts s1 = created_accounts s + Z.of_nat (List.length l)
        ∧ Forall (fun a => (account_type a, monthly_payment a)
                           = ("other", Finite false 0 (-2))) l)
      ∧ (∃ k, shape <$> balance_points db1 = (shape <$> balance_points db) ++ k
          ∧ inserted_points s1 = inserted_points s + Z.of_nat (List.length k)))
      as [(l1 & Ha1 & Hc1 & Hf1) (k1 & Hp1 & Hi1)].
    { rewrite import_row_unfold in Hrow.
      destruct (norm_row raw) as [row|]; [|done]. simpl in Hrow.
      assert ((∃ l, accounts db = accounts db ++ l
        ∧ created_accounts (skipped s)
          = created_accounts s + Z.of_nat (List.length l)
        ∧ Forall (fun a => (account_type a, monthly_payment a)
                           = ("other", Finite false 0 (-2))) l)
      ∧ (∃ k, shape <$> balance_points db = (shape <$> balance_points db) ++ k
          ∧ inserted_points (skipped s)
            = inserted_points s + Z.of_nat (List.length k))) as Hskip.
      { split.
        - exists []. rewrite app_nil_r.
          split_and!; [done|simpl; lia|constructor].
        - exists []. rewrite app_nil_r. split; [done|simpl; lia]. }
      destruct (parse_row row) as [[[d n] bal]|];
        [|by injection Hrow as <- <-].
      destruct (String.eqb n ""); injection Hrow as <- <-; [done|].
      destruct (written_growth now db n d bal s)
        as [(l & Ha & Hc & Hf) Hpoints].
      split; [|done]. exists l. split_and!; [done|done|].
      eapply Forall_impl; [exact Hf|]. simpl. by intros a [= _ -> ->]. }
    split.
    + exists (l1 ++ l2). rewrite Ha2, Ha1, <- app_assoc, length_app.
      split_and!; [done|lia|by apply Forall_app].
    + exists (k1 ++ k2). rewrite Hp2, Hp1, <- app_assoc, length_app.
      split; [done|lia].
Qed.

End growth.

(** What is stored when the import returns: the accounts of before,
    followed by as many new ones as [created_accounts] counts, each of the
    type "other" and without a monthly payment; and the observations of
    before, in place and with their id, account, date and creation time,
    followed by as many new ones as [inserted_points] counts. *)
Theorem import_csv_grows_store (now : Z) (db db' : App.Store)
    (rows : list (list string)) (s : Importer.stats) :
  Importer.import_csv now db rows = OK (db', s) →
  ∃ new_accounts new_points,
    App.accounts db' = (App.accounts db ++ new_accounts)%list
    ∧ Importer.created_accounts s = Z.of_nat (List.length new_accounts)
    ∧ Forall (fun a => (App.account_type a, App.monthly_payment a)
                       = ("other", Finite false 0 (-2))) new_accounts
    ∧ shape <$> App.balance_points db'
      = ((shape <$> App.balance_points db) ++ new_points)%list
    ∧ Importer.inserted_points s = Z.of_nat (List.length new_points).
Proof.
  unfold Importer.import_csv. destruct (DictReader rows) as [fieldnames reader].
  destruct (negb _); [done|]. intros H.
  apply import_rows_growth in H as [(l & Ha & Hc & Hf) (k & Hp & Hi)].
  simpl in *. exists l, k. split_and!; [done|lia|done|done|lia].
Qed.

Lemma import_csv_grows_store_witness :
  ∃ new_accounts new_points,
    App.accounts store_after_import.1
      = (App.accounts example_store ++ new_accounts)%list
    ∧ Importer.created_accounts store_after_import.2
      = Z.of_nat (List.length new_accounts)
    ∧ Forall (fun a => (App.account_type a, App.monthly_payment a)
                       = ("other", Finite false 0 (-2))) new_accounts
    ∧ shape <$> App.balance_points store_after_import.1
      = ((shape <$> App.balance_points example_store) ++ new_points)%list
    ∧ Importer.inserted_points store_after_import.2
      = Z.of_nat (List.length new_points).
Proof.
  apply (import_csv_grows_store 20 example_store store_after_import.1
           [["date"; "accountname"; "balance"]; ["01.01.2024"; "A"; "7"];
            ["x"; "A"; "7"]; ["05.01.2024"; "C"; "1,5"]]
           store_after_import.2).
  vm_compute. reflexivity.
Defined.

Section form_and_row.
Import App Importer Spec.
#[local] Open Scope list_scope.

#[local] Arguments import_row : simpl never.
#[local] Arguments norm_row : simpl never.
#[local] Arguments parse_row : simpl never.
#[local] Arguments App.parse_decimal : simpl never.
#[local] Arguments Importer.parse_decimal : simpl never.
#[local] Arguments App.parse_date : simpl never.
#[local] Arguments parse_date_ddmmyyyy : simpl never.
#[local] Arguments App.balance_add : simpl never.

Lemma parse_date_iso today d :
  valid_date d → parse_date today (iso d) = OK d.
Proof.
  intros Hd. unfold parse_date.
  assert (iso d ≠ "") as Hne%String.eqb_neq
      by (eapply ymd_text_nonempty, ymd_text_isoformat, Hd).
  rewrite Hne, except_ValueError_OK. apply strptime_ymd_spec.
  split; [|done]. by apply ymd_text_isoformat.
Qed.






End form_and_row.


Lemma account_A_by_name :
  App.account_by_name example_store (Str.strip " A") = Some account_A.
Proof. reflexivity. Qed.


(** ** A second import *)

Section rerun.
Import App Importer.
#[local] Open Scope list_scope.

#[local] Arguments import_row : simpl never.
#[local] Arguments norm_row : simpl never.
#[local] Arguments parse_row : simpl never.

Lemma import_row_write now db s raw db' s' :
  import_row now (db, s) raw = OK (db', s') →
  db' = match row_write_of raw with
        | Some w => apply_write now db w
        | None => db
        end
  ∧ skipped_rows s'
    = skipped_rows s + match row_write_of raw with Some _ => 0 | None => 1 end.
Proof.
  rewrite import_row_unfold. unfold row_write_of.
  destruct (norm_row raw) as [row|]; [|done]. simpl.
  destruct (parse_row row) as [[[d n] bal]|]; [|by intros [= <- <-]].
  destruct (String.eqb n ""); intros [= <- <-]; [done|].
  split; [done|]. unfold written. destruct (point_at _ _ _); simpl; lia.
Qed.

(** The import as a run of writes. *)
Lemma import_rows_run now st rows st' :
  import_rows now st rows = OK st' →
  st'.1 = foldl (apply_write now) st.1 (omap row_write_of rows)
  ∧ skipped_rows st'.2
    = skipped_rows st.2
      + Z.of_nat (List.length rows)
      - Z.of_nat (List.length (omap row_write_of rows)).
Proof.
  revert st. induction rows as [|raw rows IH]; intros [db s]; simpl.
  - intros [= <-]. simpl. split; [done|lia].
  - destruct (import_row now (db, s) raw) as [[db1 s1]|] eqn:Hrow;
      simpl; [|done]. intros [-> ->]%IH. simpl.
    apply import_row_write in Hrow as [-> ->].
    destruct (row_write_of raw); simpl; (split; [done|]); unfold omap; lia.
Qed.

Lemma uq_name_eq db (a b : Account) :
  uq_name db → a ∈ accounts db → b ∈ accounts db → name a = name b → a = b.
Proof.
  unfold uq_name. generalize (accounts db).
  induction l as [|x l IH]; [by intros _ ?%elem_of_nil|].
  rewrite fmap_cons, NoDup_cons. intros [Hx Hnd] Ha Hb Heq.
  apply elem_of_cons in Ha as [->|Ha], Hb as [->|Hb]; [done| | |auto].
  - exfalso. apply Hx. rewrite Heq. by apply list_elem_of_fmap_2.
  - exfalso. apply Hx. rewrite <- Heq. by apply list_elem_of_fmap_2.
Qed.

Lemma account_id_eq db (a b : Account) :
  primary_keys db → a ∈ accounts db → b ∈ accounts db → id a = id b → a = b.
Proof.
  intros [Hnd _]. revert Hnd. generalize (accounts db).
  induction l as [|x l IH]; [by intros _ ?%elem_of_nil|].
  rewrite fmap_cons, NoDup_cons. intros [Hx Hnd] Ha Hb Heq.
  apply elem_of_cons in Ha as [->|Ha], Hb as [->|Hb]; [done| | |auto].
  - exfalso. apply Hx. rewrite Heq. by apply list_elem_of_fmap_2.
  - exfalso. apply Hx. rewrite <- Heq. by apply list_elem_of_fmap_2.
Qed.

Lemma with_account_constraints now db n :
  constraints db → constraints (with_account now db n).1.
Proof.
  intros (Hpk & Huq & Hn & Hfk). split_and!.
  - by apply with_account_primary_keys.
  - unfold uq_account_date. by rewrite with_account_points.
  - by apply with_account_uq_name.
  - by apply with_account_foreign_keys.
Qed.

Lemma apply_write_constraints now db w :
  constraints db → constraints (apply_write now db w).
Proof.
  intros (Hpk & Huq & Hn & Hfk)%(with_account_constraints now db w.1.1).
  unfold apply_write. split_and!.
  - by apply upsert_primary_keys.
  - by apply upsert_uq.
  - by apply upsert_uq_name.
  - apply upsert_foreign_keys; [|done].
    apply list_elem_of_fmap_2, with_account_elem.
Qed.

Lemma with_account_name now db n : name (with_account now db n).2 = n.
Proof.
  unfold with_account. destruct (account_by_name db n) eqn:Hn; [|done].
  by apply account_by_name_Some in Hn as [_ ?].
Qed.

Lemma with_account_accounts now db n :
  ∃ l, accounts (with_account now db n).1 = accounts db ++ l.
Proof.
  unfold with_account. destruct (account_by_name db n); simpl.
  - exists []. by rewrite app_nil_r.
  - by eexists [_].
Qed.

(** One write: the account and the observation it writes are there
    afterwards, and what it does not write stays. *)
Lemma apply_write_spec now db n d bal :
  constraints db →
  let db' := apply_write now db (n, d, bal) in
  (∃ l, accounts db' = accounts db ++ l)
  ∧ (∃ k, shape <$> balance_points db' = (shape <$> balance_points db) ++ k)
  ∧ (∃ acc p, acc ∈ accounts db' ∧ name acc = n ∧ p ∈ balance_points db'
              ∧ account_id p = id acc ∧ as_of_date p = d ∧ balance p = bal)
  ∧ (∀ p acc, p ∈ balance_points db → acc ∈ accounts db →
              id acc = account_id p → (name acc, as_of_date p) ≠ (n, d) →
              p ∈ balance_points db').
Proof.
  intros Hc. pose proof (with_account_constraints now db n Hc)
    as (Hpk & Huq & Hn & Hfk).
  destruct (written_growth now db n d bal (mkstats 0 0 0 0 0))
    as [(l & Hl & _) (k & Hk & _)].
  simpl. unfold apply_write. simpl.
  split_and!; [eauto|eauto| |].
  - destruct (upsert_elem now (with_account now db n).1
                (id (with_account now db n).2) d bal Huq)
      as (p & Hp & Ha & Hd & Hb).
    exists (with_account now db n).2, p. rewrite upsert_accounts.
    split_and!; try done; [apply with_account_elem|apply with_account_name].
  - intros p acc Hp Hacc Hid Hne. apply upsert_keeps; [done|done| |].
    + by rewrite with_account_points.
    + intros [= Ha Hd]. apply Hne. f_equal; [|done].
      rewrite <- (with_account_name now db n). f_equal.
      apply (account_id_eq (with_account now db n).1); [done| | |congruence].
      * destruct (with_account_accounts now db n) as [l' ->].
        apply elem_of_app. by left.
      * apply with_account_elem.
Qed.


Lemma foldl_apply_write_constraints now db ws :
  constraints db → constraints (foldl (apply_write now) db ws).
Proof.
  revert db. induction ws as [|w ws IH]; intros db Hc; simpl; [done|].
  by apply IH, apply_write_constraints.
Qed.

(** A run of writes: the store grows at its end; an observation whose
    account and date the run writes has the amount of the last such write,
    and one it does not write stays. *)
Lemma run_spec now ws db :
  constraints db →
  let db' := foldl (apply_write now) db ws in
  (∃ l, accounts db' = accounts db ++ l)
  ∧ (∃ k, shape <$> balance_points db' = (shape <$> balance_points db) ++ k)
  ∧ (∀ p acc bal, p ∈ balance_points db' → acc ∈ accounts db' →
                  id acc = account_id p →
                  last_write ws (name acc) (as_of_date p) = Some bal →
                  balance p = bal)
  ∧ (∀ p acc, p ∈ balance_points db → acc ∈ accounts db →
              id acc = account_id p →
              last_write ws (name acc) (as_of_date p) = None →
              p ∈ balance_points db')
  ∧ (∀ w, w ∈ ws →
          ∃ acc, acc ∈ accounts db' ∧ name acc = w.1.1
                 ∧ (id acc, w.1.2)
                   ∈ (fun p => (account_id p, as_of_date p))
                       <$> balance_points db').
Proof.
  revert db. induction ws as [|[[n d] bal] ws IH]; intros db Hc; simpl.
  { split_and!.
    - exists []. by rewrite app_nil_r.
    - exists []. by rewrite app_nil_r.
    - done.
    - done.
    - by intros w ?%elem_of_nil. }
  pose proof (apply_write_constraints now db (n, d, bal) Hc) as Hc1.
  destruct (apply_write_spec now db n d bal Hc)
    as ((l1 & Hl1) & (k1 & Hk1) & (acc1 & p1 & Hacc1 & Hn1 & Hp1 & Ha1 & Hd1 & Hb1)
        & Hkeep1).
  destruct (IH _ Hc1) as ((l & Hl) & (k & Hk) & Hlast & Hstay & Hkeys).
  pose proof (foldl_apply_write_constraints now _ ws Hc1)
    as (Hpk & Huq & Hnames & Hfk).
  set (db1 := apply_write now db (n, d, bal)) in *.
  set (db' := foldl (apply_write now) db1 ws) in *.
  assert (∀ a, a ∈ accounts db1 → a ∈ accounts db') as Hsub1
      by (intros a Ha; rewrite Hl; apply elem_of_app; by left).
  assert (∀ a, a ∈ accounts db → a ∈ accounts db1) as Hsub
      by (intros a Ha; rewrite Hl1; apply elem_of_app; by left).
  split_and!.
  - exists (l1 ++ l). by rewrite Hl, Hl1, app_assoc.
  - exists (k1 ++ k). by rewrite Hk, Hk1, app_assoc.
  - intros p acc b Hp Hacc Hid.
    destruct (last_write ws (name acc) (as_of_date p)) as [b'|] eqn:Hw.
    { intros [= <-]. by eapply Hlast. }
    case_decide as Hkey; [|done]. intros [= <-]. simpl in Hkey.
    injection Hkey as Hkn Hkd.
    assert (acc = acc1) as ->
        by (apply (uq_name_eq db'); [done|done|auto|congruence]).
    assert (p1 ∈ balance_points db') as Hp1'.
    { apply (Hstay p1 acc1); [done|done|done|]. rewrite Hd1. congruence. }
    assert (p = p1) as ->
        by (apply (uq_account_date_eq db'); [done|done|done|congruence|congruence]).
    done.
  - intros p acc Hp Hacc Hid.
    destruct (last_write ws (name acc) (as_of_date p)) as [b'|] eqn:Hw; [done|].
    case_decide as Hkey; [done|]. intros _. simpl in Hkey.
    apply (Hstay p acc); [|auto|done|done].
    by apply (Hkeep1 p acc).
  - intros w [->|Hw]%elem_of_cons; [|auto]. simpl.
    exists acc1. split_and!; [auto|done|].
    assert (shape p1 ∈ shape <$> balance_points db') as Hs.
    { rewrite Hk. apply elem_of_app. left. by apply list_elem_of_fmap_2. }
    apply list_elem_of_fmap in Hs as (p & Heq & Hp).
    apply list_elem_of_fmap. exists p. split; [|done].
    injection Heq as _ Ha Hd _. congruence.
Qed.

Lemma find_is_Some {A} (f : A → bool) (l : list A) x :
  x ∈ l → f x = true → is_Some (find f l).
Proof.
  intros Hin Hx. destruct (find f l) eqn:Hf; [eauto|].
  apply list_elem_of_In in Hin. apply (find_none _ _ Hf) in Hin. congruence.
Qed.

(** A write whose account and observation exist adds nothing. *)
Lemma apply_write_in_place now db n d bal acc :
  uq_name db → acc ∈ accounts db → name acc = n →
  (id acc, d) ∈ (fun p => (account_id p, as_of_date p)) <$> balance_points db →
  accounts (apply_write now db (n, d, bal)) = accounts db
  ∧ shape <$> balance_points (apply_write now db (n, d, bal))
    = shape <$> balance_points db.
Proof.
  intros Hnames Hacc Hn (p & [= Ha Hd] & Hp)%list_elem_of_fmap.
  unfold apply_write, with_account. simpl.
  destruct (account_by_name db n) as [acc'|] eqn:Hfind.
  2:{ apply account_by_name_None in Hfind. exfalso. apply Hfind.
      rewrite <- Hn. by apply list_elem_of_fmap_2. }
  apply account_by_name_Some in Hfind as [Hacc' Hn'].
  assert (acc' = acc) as -> by (apply (uq_name_eq db); [done..|congruence]).
  simpl. rewrite upsert_unfold.
  destruct (point_at db (id acc) d) as [point|] eqn:Hpoint; simpl.
  - by rewrite shape_set_balance.
  - exfalso. by apply (point_at_None db (id acc) d p); [|done|congruence].
Qed.

Lemma run_in_place now ws db :
  uq_name db →
  (∀ w, w ∈ ws →
        ∃ acc, acc ∈ accounts db ∧ name acc = w.1.1
               ∧ (id acc, w.1.2)
                 ∈ (fun p => (account_id p, as_of_date p)) <$> balance_points db) →
  accounts (foldl (apply_write now) db ws) = accounts db
  ∧ shape <$> balance_points (foldl (apply_write now) db ws)
    = shape <$> balance_points db.
Proof.
  revert db. induction ws as [|[[n d] bal] ws IH]; intros db Hnames Hall;
    simpl; [done|].
  destruct (Hall (n, d, bal)) as (acc & Hacc & Hn & Hkey); [left|].
  destruct (apply_write_in_place now db n d bal acc Hnames Hacc Hn Hkey)
    as [Ha Hs].
  destruct (IH (apply_write now db (n, d, bal))) as [Ha' Hs'].
  - unfold uq_name. by rewrite Ha.
  - intros w Hw. destruct (Hall w) as (acc' & Hacc' & Hn' & Hkey'); [by right|].
    exists acc'. rewrite Ha. split_and!; [done|done|].
    assert ((fun p => (account_id p, as_of_date p))
            = (fun s : Z * Z * date * Z => (s.1.1.2, s.1.2)) ∘ shape) as Hcomp
        by done.
    rewrite Hcomp, list_fmap_compose, Hs, <- list_fmap_compose, <- Hcomp.
    done.
  - by rewrite Ha', Hs', Ha, Hs.
Qed.


Lemma Store_eq (x y : Store) :
  accounts x = accounts y → balance_points x = balance_points y → x = y.
Proof. destruct x, y. simpl. by intros -> ->. Qed.

Lemma shape_balance_eq (p q : BalancePoint) :
  shape p = shape q → balance p = balance q → p = q.
Proof. destruct p, q. unfold shape. simpl. by intros [= -> -> -> ->] ->. Qed.

(** Running the same writes again changes nothing. *)
Lemma run_idempotent now now' ws db :
  constraints db →
  foldl (apply_write now') (foldl (apply_write now) db ws) ws
  = foldl (apply_write now) db ws.
Proof.
  intros Hc.
  pose proof (foldl_apply_write_constraints now db ws Hc) as Hc1.
  destruct (run_spec now ws db Hc) as (_ & _ & Hlast1 & _ & Hkeys1).
  set (db1 := foldl (apply_write now) db ws) in *.
  pose proof (foldl_apply_write_constraints now' db1 ws Hc1) as Hc2.
  destruct (run_spec now' ws db1 Hc1) as (_ & _ & Hlast2 & Hstay2 & _).
  destruct (run_in_place now' ws db1) as [Haccs Hshape];
    [apply Hc1|done|].
  set (db2 := foldl (apply_write now') db1 ws) in *.
  apply Store_eq; [done|].
  destruct Hc1 as (Hpk1 & Huq1 & Hn1 & Hfk1).
  destruct Hc2 as (Hpk2 & Huq2 & Hn2 & Hfk2).
  apply list_eq. intros j.
  pose proof (f_equal (fun l => l !! j) Hshape) as Hj. simpl in Hj.
  rewrite !list_lookup_fmap in Hj.
  destruct (balance_points db2 !! j) as [p2|] eqn:H2,
    (balance_points db1 !! j) as [p1|] eqn:H1; try done.
  apply (inj Some) in Hj. f_equal.
  apply list_elem_of_lookup_2 in H1, H2.
  unfold foreign_keys in Hfk1. rewrite Forall_forall in Hfk1.
  destruct (proj1 (list_elem_of_fmap _ _ _) (Hfk1 p1 H1)) as (acc & Hid & Hacc).
  destruct (last_write ws (name acc) (as_of_date p1)) as [bal|] eqn:Hw.
  - apply shape_balance_eq; [done|].
    rewrite (Hlast1 p1 acc bal) by done.
    apply (Hlast2 p2 acc bal); [done|by rewrite Haccs| |].
    + injection Hj as _ Ha _ _. congruence.
    + injection Hj as _ _ Hd _. congruence.
  - apply (point_id_inj db2); [done|done| |].
    + by apply (Hstay2 p1 acc).
    + by injection Hj as Hi _ _ _.
Qed.

End rerun.

(** Importing the same file again changes nothing.  On a store that
    satisfies the constraints of the schema, a second import of the rows of
    an import that returned commits the store of the first: it creates no
    account and inserts no observation, skips the same rows, and counts
    every row it does not skip as updated. *)
Theorem import_csv_again (now now' : Z) (db db1 : App.Store)
    (rows : list (list string)) (s1 : Importer.stats) :
  primary_keys db → uq_account_date db → uq_name db → foreign_keys db →
  Importer.import_csv now db rows = OK (db1, s1) →
  ∃ s2,
    Importer.import_csv now' db1 rows = OK (db1, s2)
    ∧ Importer.created_accounts s2 = 0
    ∧ Importer.inserted_points s2 = 0
    ∧ Importer.rows_total s2 = Importer.rows_total s1
    ∧ Importer.skipped_rows s2 = Importer.skipped_rows s1
    ∧ Importer.updated_points s2
      = Importer.inserted_points s1 + Importer.updated_points s1.
Proof.
  intros Hpk Huq Hn Hfk. unfold Importer.import_csv.
  destruct (DictReader rows) as [fieldnames reader].
  destruct (negb _); [done|]. intros H1.
  pose proof (import_rows_result now (db, Importer.mkstats 0 0 0 0 0) reader)
    as Hall. rewrite H1 in Hall.
  pose proof (import_rows_result now' (db1, Importer.mkstats 0 0 0 0 0) reader)
    as Hres.
  destruct (Importer.import_rows now' _ reader) as [[db2 s2]|e] eqn:H2.
  2:{ destruct Hres as [_ Hex]. apply Exists_exists in Hex as (raw & Hin & Hk).
      rewrite Forall_forall in Hall. by apply Hall in Hin. }
  pose proof (import_rows_run _ _ _ _ H1) as [Hdb1 Hs1].
  pose proof (import_rows_run _ _ _ _ H2) as [Hdb2 Hs2].
  simpl in *. rewrite Hdb1 in Hdb2.
  rewrite run_idempotent in Hdb2 by done. rewrite <- Hdb1 in Hdb2. subst db2.
  exists s2. split; [done|].
  pose proof (import_rows_growth _ _ _ _ H2)
    as [(l & Hl & Hcreated & _) (k & Hk & Hinserted)].
  pose proof (import_rows_counts _ _ _ _ H1) as Hc1.
  pose proof (import_rows_counts _ _ _ _ H2) as Hc2.
  simpl in *.
  assert (l = []) as ->.
  { apply (f_equal List.length) in Hl. rewrite length_app in Hl.
    destruct l; [done|]. simpl in Hl. lia. }
  assert (k = []) as ->.
  { apply (f_equal List.length) in Hk. rewrite length_app in Hk.
    destruct k; [done|]. simpl in Hk. lia. }
  simpl in *. lia.
Qed.

Lemma example_store_uq_name : uq_name example_store.
Proof. apply (bool_decide_unpack _). by vm_compute. Qed.

Lemma import_csv_again_witness :
  ∃ s2,
    Importer.import_csv 30 store_after_import.1
      [["date"; "accountname"; "balance"]; ["01.01.2024"; "A"; "7"];
       ["x"; "A"; "7"]; ["05.01.2024"; "C"; "1,5"]]
    = OK (store_after_import.1, s2)
    ∧ Importer.created_accounts s2 = 0
    ∧ Importer.inserted_points s2 = 0
    ∧ Importer.rows_total s2 = Importer.rows_total store_after_import.2
    ∧ Importer.skipped_rows s2 = Importer.skipped_rows store_after_import.2
    ∧ Importer.updated_points s2
      = Importer.inserted_points store_after_import.2
        + Importer.updated_points store_after_import.2.
Proof.
  apply (import_csv_again 20 30 example_store store_after_import.1
           [["date"; "accountname"; "balance"]; ["01.01.2024"; "A"; "7"];
            ["x"; "A"; "7"]; ["05.01.2024"; "C"; "1,5"]]
           store_after_import.2).
  - exact example_store_primary_keys.
  - exact example_store_uq.
  - exact example_store_uq_name.
  - exact example_store_foreign_keys.
  - vm_compute. reflexivity.
Defined.

(** ** The charts and the current balance *)

Section chart.
Import App Spec.
#[local] Open Scope list_scope.

Context {float : Type} (float_ : Decimal → float) (zero : float).

Lemma StronglySorted_last (l : list date) d :
  StronglySorted date_lt l → last l = Some d → ∀ x, x ∈ l → date_le x d.
Proof.
  induction l as [|y l IH]; [done|]. intros Hs Hlast x Hx.
  apply StronglySorted_inv in Hs as [Hs Hall]. rewrite Forall_forall in Hall.
  destruct l as [|z l].
  - simpl in Hlast. injection Hlast as <-.
    by apply list_elem_of_singleton in Hx as ->.
  - assert (last (z :: l) = Some d) as Hlast' by done.
    apply elem_of_cons in Hx as [->|Hx]; [|auto].
    apply date_lt_le, Hall. rewrite last_lookup in Hlast'.
    by eapply list_elem_of_lookup_2.
Qed.

(** At the end of the axis the series of an account shows its current
    balance. *)
Lemma stacked_last db acc :
  uq_account_date db → float_ (Finite false 0 (-2)) = zero →
  balance_points db ≠ [] →
  last (carry_forward
          (default ∅ (per_account_of float_
                        ((fun p => (account_id p, as_of_date p, balance p))
                           <$> merge_sort date_asc (balance_points db))
                      !! id acc))
          (axis db) zero)
  = Some (float_ (current_balance db acc)).
Proof.
  intros Huq Hzero Hne.
  destruct (last (axis db)) as [d|] eqn:Hlast.
  2:{ apply last_None in Hlast. destruct (balance_points db) as [|p l] eqn:Hp;
        [done|].
      assert (as_of_date p ∈ axis db) as Hin
          by (apply elem_of_axis; exists p; rewrite Hp; split; [left|done]).
      rewrite Hlast in Hin. by apply elem_of_nil in Hin. }
  pose proof (StronglySorted_last _ _ (axis_sorted db) Hlast) as Hmax.
  rewrite last_lookup in Hlast.
  destruct (stacked_entry float_ zero db acc _ d Hlast) as (v & Hv & Hcase).
  rewrite last_lookup, length_carry_forward, Hv. f_equal.
  assert (∀ q, q ∈ balance_points db → date_le (as_of_date q) d) as Hall.
  { intros q Hq. apply Hmax, elem_of_axis. eauto. }
  destruct Hcase as [[-> Hnone]|(p & Hp & Ha & _ & Hpmax & ->)].
  - rewrite current_balance_none; [by rewrite Hzero|].
    intros q Hq Hqa. apply (Hnone q); auto.
  - f_equal. symmetry. apply current_balance_at; auto.
Qed.

End chart.

(** The chart and the list of accounts agree: when the store has an
    observation, the last entry of the stacked series of every account is
    its current balance. *)
Theorem stacked_series_ends_at_current_balance {float : Type}
    (float_ : Decimal → float) (zero : float) (db : App.Store)
    (accs : list App.Account) :
  uq_account_date db →
  float_ (Finite false 0 (-2)) = zero →
  App.balance_points db ≠ [] →
  Forall2
    (fun acc ds =>
       last (App.data ds) = Some (float_ (App.current_balance db acc)))
    accs (App.build_stacked_series float_ zero db accs).2.
Proof.
  intros Huq Hzero Hne. rewrite build_stacked_series_unfold. simpl.
  apply Forall2_fmap_r, Forall_Forall2_diag, Forall_forall.
  intros acc _. simpl. by apply stacked_last.
Qed.

Lemma stacked_series_ends_at_current_balance_witness :
  Forall2
    (fun acc ds =>
       last (App.data ds) = Some (App.current_balance example_store acc))
    [account_A; account_B]
    (App.build_stacked_series (fun d => d) (Finite false 0 (-2)) example_store
       [account_A; account_B]).2.
Proof.
  apply (stacked_series_ends_at_current_balance (fun d => d)
           (Finite false 0 (-2)) example_store [account_A; account_B]).
  - apply (bool_decide_unpack _). vm_compute. exact I.
  - reflexivity.
  - discriminate.
Defined.

(** ** The stored dates *)

Section stored_dates.
Import App Importer Spec.
#[local] Open Scope list_scope.

#[local] Arguments import_row : simpl never.
#[local] Arguments norm_row : simpl never.
#[local] Arguments parse_row : simpl never.
#[local] Arguments App.parse_decimal : simpl never.
#[local] Arguments Importer.parse_decimal : simpl never.
#[local] Arguments App.parse_date : simpl never.
#[local] Arguments parse_date_ddmmyyyy : simpl never.
#[local] Arguments App.balance_add : simpl never.

Lemma parse_date_valid today s d :
  valid_date today → parse_date today s = OK d → valid_date d.
Proof.
  intros Ht. unfold parse_date. destruct (String.eqb s ""); [by intros [= <-]|].
  rewrite except_ValueError_OK. by intros [_ ?]%strptime_ymd_spec.
Qed.

Lemma parse_date_ddmmyyyy_valid v d :
  parse_date_ddmmyyyy v = OK d → valid_date d.
Proof.
  unfold parse_date_ddmmyyyy. destruct (String.eqb _ ""); [done|].
  by intros [_ ?]%strptime_dmy_spec.
Qed.

Lemma parse_row_valid row d n bal :
  parse_row row = OK (d, n, bal) → valid_date d.
Proof.
  unfold parse_row. destruct (getitem row "date") as [c|]; [|done]. simpl.
  destruct (match c with Field s => _ | NoField => _ | Rest _ => _ end)
    as [d'|] eqn:Hd; [|done]. simpl.
  assert (valid_date d') as Hv.
  { destruct c; [by eapply parse_date_ddmmyyyy_valid..|done]. }
  destruct (getitem row "accountname") as [c2|]; [|done]. simpl.
  destruct (match c2 with Field s => _ | NoField => _ | Rest _ => _ end);
    [|done]. simpl.
  destruct (getitem row "balance") as [c3|]; [|done]. simpl.
  destruct (match c3 with Field s => _ | NoField => _ | Rest _ => _ end);
    [|done]. simpl. by intros [= <- _ _].
Qed.

Lemma upsert_dates_valid now db a d bal :
  valid_date d → dates_valid db → dates_valid (upsert now db a d bal).
Proof.
  unfold dates_valid. intros Hd Hv. rewrite upsert_unfold.
  destruct (point_at db a d); simpl.
  - rewrite Forall_fmap. eapply Forall_impl; [exact Hv|].
    intros p Hp. simpl. unfold set_balance. by destruct (_ =? _).
  - apply Forall_app. split; [done|]. by repeat constructor.
Qed.

Lemma import_rows_dates_valid now st rows st' :
  import_rows now st rows = OK st' → dates_valid st.1 → dates_valid st'.1.
Proof.
  revert st. induction rows as [|raw rows IH]; intros [db s]; simpl.
  - by intros [= <-].
  - destruct (import_row now (db, s) raw) as [[db1 s1]|] eqn:Hrow;
      simpl; [|done]. intros Hrows Hv. apply (IH _ Hrows). simpl.
    rewrite import_row_unfold in Hrow.
    destruct (norm_row raw) as [row|]; [|done]. simpl in Hrow.
    destruct (parse_row row) as [[[d n] bal]|] eqn:Hparse;
      [|by injection Hrow as <- _].
    destruct (String.eqb n ""); injection Hrow as <- _; [done|].
    apply upsert_dates_valid; [by eapply parse_row_valid|].
    unfold dates_valid. by rewrite with_account_points.
Qed.

Lemma Forall_filter_1 {A} (P Q : A → Prop) `{∀ x, Decision (Q x)} (l : list A) :
  Forall P l → Forall P (filter Q l).
Proof.
  rewrite !Forall_forall. intros Hl x [_ Hx]%list_elem_of_filter. auto.
Qed.

Lemma handle_dates_valid today now db r :
  valid_date today → dates_valid db → dates_valid (handle today now db r).
Proof.
  intros Ht Hv.
  destruct r as [n t e a|i n t e a|i|i f1 f2|i|rows]; simpl.
  - destruct (accounts_create_store now db n t e a)
      as [->|(acc & -> & _)]; done.
  - destruct (account_settings db i n t e a) as [[db' msg]|] eqn:H; [|done].
    apply account_settings_store in H as [->|(acc & acc' & -> & _)]; done.
  - unfold account_delete. destruct (get_account db i); [|done]. simpl.
    by apply Forall_filter_1.
  - destruct (balance_add today now db i f1 f2) as [[db' msg]|] eqn:H; [|done].
    simpl. revert H. unfold balance_add.
    destruct (get_account db i) as [acc|]; [|done].
    destruct (parse_date _ _) as [d|] eqn:Hd; [|by intros [= <- _]].
    destruct (App.parse_decimal _) as [bal|]; [|by intros [= <- _]].
    pose proof (upsert_dates_valid now db (id acc) d bal
                  (parse_date_valid _ _ _ Ht Hd) Hv) as H.
    rewrite upsert_unfold in H.
    destruct (point_at db (id acc) d); by intros [= <- _].
  - unfold balance_delete. destruct (find _ _); [|done]. simpl.
    by apply Forall_filter_1.
  - unfold import_csv. destruct (DictReader rows) as [fieldnames reader].
    destruct (negb _); [done|].
    destruct (import_rows now _ reader) as [[db' s']|] eqn:H; [|done].
    by apply (import_rows_dates_valid _ _ _ _ H).
Qed.

Lemma iso_inj d1 d2 : valid_date d1 → valid_date d2 → iso d1 = iso d2 → d1 = d2.
Proof.
  intros H1 H2 Heq.
  pose proof (parse_date_iso d1 d1 H1) as Hp1.
  pose proof (parse_date_iso d1 d2 H2) as Hp2.
  rewrite Heq in Hp1. congruence.
Qed.

End stored_dates.

(** The dates of the store are dates of the calendar after every operation
    when they were before, and then the labels of the chart are pairwise
    distinct and each label, read by the parser of the form, is the date it
    stands for. *)
Theorem stacked_labels_are_dates {float : Type} (float_ : Decimal → float)
    (zero : float) (today : date) (now : Z) (db : App.Store)
    (accs : list App.Account) :
  Spec.valid_date today → dates_valid db →
  (∀ r, dates_valid (handle today now db r))
  ∧ NoDup (App.build_stacked_series float_ zero db accs).1
  ∧ ∃ all_dates,
      (App.build_stacked_series float_ zero db accs).1 = App.iso <$> all_dates
      ∧ App.parse_date today <$> (App.build_stacked_series float_ zero db accs).1
        = OK <$> all_dates.
Proof.
  intros Ht Hv. rewrite build_stacked_series_unfold. simpl.
  assert (Forall Spec.valid_date (axis db)) as Hax.
  { apply Forall_forall. intros d (p & Hp & <-)%elem_of_axis.
    unfold dates_valid in Hv. rewrite Forall_forall in Hv. auto. }
  split_and!.
  - intros r. by apply handle_dates_valid.
  - apply NoDup_fmap_2_strong.
    + rewrite Forall_forall in Hax. intros d1 d2 H1 H2. apply iso_inj; auto.
    + unfold axis. rewrite merge_sort_Permutation. apply NoDup_elements.
  - exists (axis db). split; [done|].
    rewrite <- list_fmap_compose. apply Forall_fmap_ext.
    eapply Forall_impl; [exact Hax|]. intros d Hd. simpl.
    by apply parse_date_iso.
Qed.

Lemma stacked_labels_are_dates_witness :
  (∀ r, dates_valid (handle (mkdate 2026 11 3) 10 example_store r))
  ∧ NoDup (App.build_stacked_series (fun d => d) (Finite false 0 (-2))
             example_store [account_A; account_B]).1
  ∧ ∃ all_dates,
      (App.build_stacked_series (fun d => d) (Finite false 0 (-2))
         example_store [account_A; account_B]).1 = App.iso <$> all_dates
      ∧ App.parse_date (mkdate 2026 11 3)
          <$> (App.build_stacked_series (fun d => d) (Finite false 0 (-2))
                 example_store [account_A; account_B]).1
        = OK <$> all_dates.
Proof.
  apply (stacked_labels_are_dates (fun d => d) (Finite false 0 (-2))
           (mkdate 2026 11 3) 10 example_store [account_A; account_B]).
  - vm_compute. intuition congruence.
  - repeat constructor; vm_compute; intuition congruence.
Defined.

(** ** The dashboard and the page of an account *)

Section totals.
Import App arithmetic.

Lemma cents_inv d z :
  cents d = Some z →
  ∃ sign c, d = Finite sign c (-2) ∧ z = if sign then - Z.of_N c else Z.of_N c.
Proof.
  destruct d as [sign c e| |]; simpl; try done.
  destruct (Z.eqb_spec e (-2)) as [->|]; [|done]. intros [= <-]. eauto.
Qed.

Lemma fix_two_places sign c :
  len c <= prec → _fix (Finite sign c (-2)) = Value (Finite sign c (-2)).
Proof.
  intros Hlen. unfold _fix. destruct (N.eqb_spec c 0) as [->|Hc]; [done|].
  unfold Etop, Etiny, Emax, Emin, prec in *.
  destruct (Z.gtb_spec (len c + -2 - 28) (999999 - 28 + 1)); [lia|].
  pose proof (len_pos c).
  destruct (Z.ltb_spec (len c + -2 - 28) (-999999 - 28 + 1)); [lia|].
  destruct (Z.ltb_spec (-2) (len c + -2 - 28)); [lia|done].
Qed.

Lemma normalize_two_places c1 c2 :
  _normalize (c1, -2) (c2, -2) = ((c1, -2), (c2, -2)).
Proof.
  unfold _normalize. simpl. pose proof (len_pos c1). pose proof (len_pos c2).
  destruct (Z.ltb_spec (len c2 + -2 - 1) (-2 + Z.min (-1) (len c1 - prec - 2)));
    [lia|].
  simpl. by rewrite N.mul_1_r.
Qed.

Lemma len_le_prec c : len c <= prec ↔ (Z.of_N c < 10 ^ 28)%Z.
Proof.
  rewrite (len_le c 28) by done. unfold pow10.
  change (Z.to_N 28) with 28%N. split; intros H.
  - apply N2Z.inj_lt in H. by rewrite N2Z.inj_pow in H.
  - apply N2Z.inj_lt. by rewrite N2Z.inj_pow.
Qed.

(** Adding two amounts in hundredths is exact below 10^28 hundredths. *)
Lemma add_cents z1 d2 z2 :
  cents d2 = Some z2 → Z.abs z1 < 10 ^ 28 → Z.abs (z1 + z2) < 10 ^ 28 →
  __add__ (of_cents z1) d2 = Value (of_cents (z1 + z2)).
Proof.
  intros (s2 & c2 & -> & ->)%cents_inv H1 H12. unfold of_cents, __add__.
  change (Z.min (-2) (-2)) with (-2).
  assert (∀ s c, len c <= prec →
            _fix (Finite s c (-2)) = Value (Finite s c (-2))) as Hfix
      by apply fix_two_places.
  destruct (N.eqb_spec (Z.abs_N z1) 0) as [Hz1|Hz1];
    destruct (N.eqb_spec c2 0) as [Hc2|Hc2]; cbn [andb]; cbv iota.
  - assert (z1 = 0) as -> by lia. subst c2. simpl.
    by destruct s2.
  - assert (z1 = 0) as -> by lia.
    unfold _rescale. apply N.eqb_neq in Hc2 as Hc2'. rewrite Hc2'.
    change (Z.max (-2) (-2 - prec - 1)) with (-2).
    change (-2 >=? -2) with true. cbv iota.
    change (pow10 (-2 - -2)) with 1%N. rewrite N.mul_1_r.
    rewrite Hfix by (apply len_le_prec; destruct s2; lia).
    f_equal. destruct s2; f_equal; lia.
  - subst c2. unfold _rescale. apply N.eqb_neq in Hz1 as Hz1'. rewrite Hz1'.
    change (Z.max (-2) (-2 - prec - 1)) with (-2).
    change (-2 >=? -2) with true. cbv iota.
    change (pow10 (-2 - -2)) with 1%N. rewrite N.mul_1_r.
    rewrite Hfix by (apply len_le_prec; lia).
    f_equal. destruct s2; simpl; f_equal; try lia;
      rewrite Z.add_0_r; done.
  - rewrite normalize_two_places. cbn [fst snd].
    destruct (Z.ltb_spec z1 0) as [Hneg|Hpos], s2; cbn [Bool.eqb negb];
      cbv iota.
    + rewrite Hfix by (apply len_le_prec; lia).
      f_equal. f_equal; lia.
    + destruct (N.eqb_spec (Z.abs_N z1) c2) as [Heq|Hne].
      * rewrite Hfix by done. f_equal. f_equal; lia.
      * destruct (N.ltb_spec (Z.abs_N z1) c2).
        -- rewrite Hfix by (apply len_le_prec; lia). f_equal. f_equal; lia.
        -- rewrite Hfix by (apply len_le_prec; lia). f_equal. f_equal; lia.
    + destruct (N.eqb_spec (Z.abs_N z1) c2) as [Heq|Hne].
      * rewrite Hfix by done. f_equal. f_equal; lia.
      * destruct (N.ltb_spec (Z.abs_N z1) c2).
        -- rewrite Hfix by (apply len_le_prec; lia). f_equal. f_equal; lia.
        -- rewrite Hfix by (apply len_le_prec; lia). f_equal. f_equal; lia.
    + rewrite Hfix by (apply len_le_prec; lia).
      f_equal. f_equal; lia.
Qed.


#[local] Arguments __add__ : simpl never.
#[local] Arguments of_cents : simpl never.

Lemma total_abs_cents_nonneg l : 0 <= total_abs_cents l.
Proof. induction l; simpl; lia. Qed.

Lemma sum_cents l z0 :
  Forall (fun d => is_Some (cents d)) l →
  Z.abs z0 + total_abs_cents l < 10 ^ 28 →
  sum l (of_cents z0) = Value (of_cents (z0 + total_cents l)).
Proof.
  revert z0. induction l as [|d l IH]; intros z0 Hall Hbound; simpl.
  - by rewrite Z.add_0_r.
  - apply Forall_cons in Hall as [[z Hz] Hall]. simpl in Hbound.
    rewrite Hz in Hbound |- *. simpl in *.
    pose proof (total_abs_cents_nonneg l).
    rewrite (add_cents z0 d z) by (done || lia). simpl.
    rewrite IH by (done || lia). f_equal. f_equal. lia.
Qed.

Lemma total_cents_Permutation l k : l ≡ₚ k → total_cents l = total_cents k.
Proof. induction 1; simpl; lia. Qed.

Lemma total_abs_cents_Permutation l k :
  l ≡ₚ k → total_abs_cents l = total_abs_cents k.
Proof. induction 1; simpl; lia. Qed.

#[global] Instance name_asc_total : Total App.name_asc.
Proof. intros a b. unfold App.name_asc. apply String.leb_total. Qed.


End totals.

(** The totals of the dashboard are exact.  When every current balance and
    every monthly payment is an amount of two decimals and the amounts add
    up to less than 10^28 hundredths, the page is rendered, and the two
    totals are the sums of the amounts, to the hundredth. *)
Theorem dashboard_totals_exact {float : Type} (float_ : Decimal → float)
    (zero : float) (db : App.Store) :
  let balances := App.current_balance db <$> App.accounts db in
  let payments := App.monthly_payment <$> App.accounts db in
  Forall (fun d => is_Some (cents d)) balances →
  Forall (fun d => is_Some (cents d)) payments →
  total_abs_cents balances < 10 ^ 28 →
  total_abs_cents payments < 10 ^ 28 →
  ∃ page,
    App.dashboard float_ zero db = arithmetic.Value page
    ∧ App.total_balance page = of_cents (total_cents balances)
    ∧ App.total_monthly page = of_cents (total_cents payments).
Proof.
  intros balances payments Hb Hp Hbb Hpb. unfold App.dashboard.
  pose proof (merge_sort_Permutation App.name_asc (App.accounts db)) as Hperm.
  assert (App.current_balance db <$> merge_sort App.name_asc (App.accounts db)
          ≡ₚ balances) as Hpb1 by (by apply fmap_Permutation).
  assert (App.monthly_payment <$> merge_sort App.name_asc (App.accounts db)
          ≡ₚ payments) as Hpp1 by (by apply fmap_Permutation).
  change (Finite false 0 (-2)) with (of_cents 0).
  rewrite !sum_cents.
  - simpl. eexists. split; [done|]. simpl.
    by rewrite (total_cents_Permutation _ _ Hpb1),
      (total_cents_Permutation _ _ Hpp1).
  - by rewrite Hpb1.
  - rewrite (total_abs_cents_Permutation _ _ Hpb1). simpl. lia.
  - by rewrite Hpp1.
  - rewrite (total_abs_cents_Permutation _ _ Hpp1). simpl. lia.
Qed.

Lemma dashboard_totals_exact_witness :
  ∃ page,
    App.dashboard (fun d => d) (Finite false 0 (-2)) example_store
      = arithmetic.Value page
    ∧ App.total_balance page = Finite false 35000 (-2)
    ∧ App.total_monthly page = Finite false 0 (-2).
Proof.
  apply (dashboard_totals_exact (fun d => d) (Finite false 0 (-2))
           example_store).
  - repeat constructor; vm_compute; eauto.
  - repeat constructor; vm_compute; eauto.
  - vm_compute. reflexivity.
  - vm_compute. reflexivity.
Defined.

Section pages_facts.
Import App arithmetic.


Lemma Sorted_date_asc_last (l : list BalancePoint) p :
  Sorted date_asc l → last l = Some p →
  ∀ q, q ∈ l → date_le (as_of_date q) (as_of_date p).
Proof.
  intros Hs%Sorted_StronglySorted; [|apply _].
  induction l as [|y l IH]; [done|]. intros Hlast q Hq.
  apply StronglySorted_inv in Hs as [Hs Hall]. rewrite Forall_forall in Hall.
  destruct l as [|z l].
  - simpl in Hlast. injection Hlast as <-.
    by apply list_elem_of_singleton in Hq as ->.
  - assert (last (z :: l) = Some p) as Hlast' by done.
    apply elem_of_cons in Hq as [->|Hq]; [|auto].
    apply Hall. rewrite last_lookup in Hlast'.
    by eapply list_elem_of_lookup_2.
Qed.

End pages_facts.



(** The page of an account: 404 for an id that no account has; otherwise
    the series of the account has an entry for each of its observations,
    and, with at most one observation for a date, its last value is the
    current balance of the account. *)
Theorem account_detail_ends_at_current_balance {float : Type}
    (float_ : Decimal → float) (today : date) (db : App.Store) (i : Z) :
  uq_account_date db →
  match App.account_detail float_ today db i with
  | Raise e => e = NotFound ∧ App.get_account db i = None
  | OK (acc, (labels, values), today_text) =>
      App.get_account db i = Some acc
      ∧ today_text = App.iso today
      ∧ List.length labels = List.length values
      ∧ match last values with
        | Some v => v = float_ (App.current_balance db acc)
        | None => ∀ p, p ∈ App.balance_points db → App.account_id p ≠ App.id acc
        end
  end.
Proof.
  intros Huq. unfold App.account_detail.
  destruct (App.get_account db i) as [acc|] eqn:Hacc; [|done].
  unfold App.build_account_series.
  set (obs := filter (fun p => App.account_id p = App.id acc)
                (App.balance_points db)).
  pose proof (merge_sort_Permutation App.date_asc obs) as Hperm.
  pose proof (Sorted_merge_sort App.date_asc obs) as Hsorted.
  split_and!; [done|done|by rewrite !length_fmap|].
  rewrite fmap_last.
  destruct (last (merge_sort App.date_asc obs)) as [p|] eqn:Hlast; simpl.
  - f_equal. symmetry.
    pose proof (Sorted_date_asc_last _ p Hsorted Hlast) as Hmax.
    rewrite last_lookup in Hlast. apply list_elem_of_lookup_2 in Hlast.
    rewrite Hperm in Hlast. apply elem_of_observations in Hlast as [Hp Ha].
    apply current_balance_at; [done..|].
    intros q Hq Hqa. apply Hmax. rewrite Hperm.
    by apply elem_of_observations.
  - apply last_None in Hlast. intros p Hp Ha.
    assert (p ∈ merge_sort App.date_asc obs) as Hin
        by (rewrite Hperm; by apply elem_of_observations).
    rewrite Hlast in Hin. by apply elem_of_nil in Hin.
Qed.

Lemma account_detail_ends_at_current_balance_witness :
  match
    App.account_detail (fun d => d) (mkdate 2026 11 3) example_store 1
  with
  | Raise e => e = NotFound ∧ App.get_account example_store 1 = None
  | OK (acc, (labels, values), today_text) =>
      App.get_account example_store 1 = Some acc
      ∧ today_text = App.iso (mkdate 2026 11 3)
      ∧ List.length labels = List.length values
      ∧ match last values with
        | Some v => v = App.current_balance example_store acc
        | None => ∀ p, p ∈ App.balance_points example_store →
                       App.account_id p ≠ App.id acc
        end
  end.
Proof.
  apply (account_detail_ends_at_current_balance (fun d => d)
           (mkdate 2026 11 3) example_store 1).
  apply (bool_decide_unpack _). vm_compute. exact I.
Defined.

(** ** The stored amounts *)

Section stored_amounts.
Import App Importer Spec.
#[local] Open Scope list_scope.

#[local] Arguments import_row : simpl never.
#[local] Arguments norm_row : simpl never.
#[local] Arguments parse_row : simpl never.
#[local] Arguments App.parse_decimal : simpl never.
#[local] Arguments Importer.parse_decimal : simpl never.
#[local] Arguments App.parse_date : simpl never.
#[local] Arguments parse_date_ddmmyyyy : simpl never.
#[local] Arguments App.balance_add : simpl never.








End stored_amounts.



(** ** Not a number *)

Section not_a_number.
Import Str Spec App arithmetic.

#[local] Arguments __add__ : simpl never.
#[local] Arguments of_cents : simpl never.








End not_a_number.



(** ** Texts that are not amounts *)

Section shape_of_numbers.
Import Str Spec.

Lemma span_digits_spec s a r :
  span_digits s = (a, r) → s = a +:+ r ∧ all isdigit a = true.
Proof.
  revert a r. induction s as [|c s IH]; intros a r; simpl.
  - by intros [= <- <-].
  - destruct (isdigit c) eqn:Hc; [|by intros [= <- <-]].
    destruct (span_digits s) as [a' r']. intros [= <- <-].
    destruct (IH a' r' eq_refl) as [-> Ha]. simpl. by rewrite Hc, Ha.
Qed.

Lemma occurrences_append c a b : occurrences c (a +:+ b) = (occurrences c a + occurrences c b)%nat.
Proof. induction a; simpl; [done|]. rewrite IHa. lia. Qed.

Lemma occurrences_all_not P c s :
  P c = false → all P s = true → occurrences c s = 0%nat.
Proof.
  intros Hc. induction s as [|a s IH]; simpl; [done|].
  intros [Ha Hs]%andb_prop. rewrite IH by done.
  destruct (Ascii.eqb_spec a c) as [->|]; [congruence|done].
Qed.

Lemma isdigit_number_char c : isdigit c = true → number_char c = true.
Proof. unfold number_char. by intros ->. Qed.

Lemma number_char_point : number_char "." = true.
Proof. reflexivity. Qed.

Lemma lower_char_e c :
  Ascii.eqb (lower_char c) "e" = true → number_char c = true ∧ isdigit c = false
  ∧ Ascii.eqb c "." = false.
Proof. destruct c as [[] [] [] [] [] [] [] []]; vm_compute; done. Qed.

Lemma parse_sign_spec s sign r :
  parse_sign s = (sign, r) →
  r = s ∨ ∃ c, s = String c r ∧ number_char c = true ∧ Ascii.eqb c "." = false.
Proof.
  unfold parse_sign. destruct s as [|c s]; [intros [= _ <-]; auto|].
  destruct (Ascii.eqb_spec c "-") as [->|_]; [intros [= _ <-]; right; by eexists|].
  destruct (Ascii.eqb_spec c "+") as [->|_]; [intros [= _ <-]; right; by eexists|].
  intros [= _ <-]. auto.
Qed.

(** The text of an exponent has no decimal point. *)
Lemma parse_exponent_chars r z :
  parse_exponent r = Some z →
  all number_char r = true ∧ occurrences "." r = 0%nat.
Proof.
  unfold parse_exponent. destruct r as [|e r]; [done|].
  destruct (Ascii.eqb (lower_char e) "e") eqn:He; [|done].
  apply lower_char_e in He as (He & _ & Hp).
  destruct (parse_sign r) as [neg r1] eqn:Hsign.
  destruct (span_digits r1) as [ds rest] eqn:Hspan.
  destruct ds as [|d ds]; [done|]. destruct rest; [|done]. intros _.
  apply span_digits_spec in Hspan as [-> Hds]. rewrite append_nil_r in Hsign.
  assert (all number_char (String d ds) = true) as Hn
      by (eapply all_impl; [apply isdigit_number_char|done]).
  assert (occurrences "." (String d ds) = 0%nat) as Hc
      by (by apply (occurrences_all_not isdigit)).
  clear Hds. revert Hsign Hn Hc. generalize (String d ds). intros t Hsign Hn Hc.
  simpl occurrences. rewrite Hp. simpl all. rewrite He.
  apply parse_sign_spec in Hsign as [<-|(c & -> & Hcn & Hcp)].
  - done.
  - simpl occurrences. simpl all. by rewrite Hcp, Hcn, Hn, Hc.
Qed.

(** The text of a finite number has at most one decimal point. *)
Lemma parse_number_chars sign s d :
  parse_number sign s = Some d →
  all number_char s = true ∧ (occurrences "." s ≤ 1)%nat.
Proof.
  unfold parse_number. destruct (span_digits s) as [ip r1] eqn:Hip.
  apply span_digits_spec in Hip as [-> Hipd].
  assert (all number_char ip = true) as Hipn
      by (eapply all_impl; [apply isdigit_number_char|done]).
  assert (occurrences "." ip = 0%nat) as Hipc by (by apply (occurrences_all_not isdigit)).
  rewrite all_append, occurrences_append, Hipn, Hipc. simpl.
  assert (∀ r2 fp,
            (if String.eqb ip "" && String.eqb fp "" then None
             else exp ← parse_exponent r2;
                  Some (Finite sign (int (ip +:+ fp))
                          (exp - Z.of_nat (String.length fp)))) = Some d →
            all number_char r2 = true ∧ occurrences "." r2 = 0%nat) as Hexp.
  { intros r2 fp. destruct (_ && _); [done|].
    destruct (parse_exponent r2) as [z|] eqn:Hz; [|done]. intros _.
    by eapply parse_exponent_chars. }
  destruct r1 as [|a r].
  - intros _. simpl. split; [done|lia].
  - destruct (Ascii.eqb_spec a ".") as [->|Ha].
    + destruct (span_digits r) as [fp r2] eqn:Hfp.
      apply span_digits_spec in Hfp as [-> Hfpd].
      intros [Hn Hc]%Hexp. simpl. rewrite all_append, occurrences_append, Hn, Hc.
      rewrite (all_impl isdigit number_char fp isdigit_number_char Hfpd).
      rewrite (occurrences_all_not isdigit "." fp) by done. split; [done|lia].
    + intros [Hn Hc]%Hexp. rewrite Hc. split; [done|lia].
Qed.


Lemma lower_char_inv c :
  (isdigit (lower_char c) = true → isdigit c = true)
  ∧ (Ascii.eqb (lower_char c) "n" = true → number_char c = true)
  ∧ (Ascii.eqb (lower_char c) "a" = true → number_char c = true).
Proof. destruct c as [[] [] [] [] [] [] [] []]; vm_compute; done. Qed.

Lemma lower_digits_inv s : all isdigit (lower s) = true → all isdigit s = true.
Proof.
  induction s as [|c s IH]; simpl; [done|]. intros [Hc Hs]%andb_prop.
  apply lower_char_inv in Hc. by rewrite Hc, IH.
Qed.

Lemma parse_nan_digits sign signaling diag d :
  parse_nan sign signaling diag = Some d →
  all isdigit diag = true ∧ d = NaN sign signaling (int diag).
Proof.
  unfold parse_nan. destruct (span_digits diag) as [ds r] eqn:Hspan.
  destruct r; [|done]. intros [= <-].
  apply span_digits_spec in Hspan as [-> Hds]. by rewrite append_nil_r.
Qed.

(** The special values by their texts: what is not an infinity or a
    signaling NaN is [NaN] and digits, in any case of the letters. *)
Lemma parse_special_quiet sign s d :
  parse_special sign s = Some d →
  (∃ sg, d = Infinity sg) ∨ (∃ sg p, d = NaN sg true p)
  ∨ ∃ c1 c2 c3 diag,
      s = String c1 (String c2 (String c3 diag))
      ∧ lower (String c1 (String c2 (String c3 ""))) = "nan"
      ∧ all isdigit diag = true.
Proof.
  unfold parse_special.
  destruct s as [|c1 [|c2 [|c3 s]]]; simpl lower.
  - done.
  - destruct (lower_char c1) as [[] [] [] [] [] [] [] []]; done.
  - destruct (lower_char c1) as [[] [] [] [] [] [] [] []]; try done;
      destruct (lower_char c2) as [[] [] [] [] [] [] [] []]; done.
  - destruct (lower_char c1) as [[] [] [] [] [] [] [] []] eqn:H1; try done;
      destruct (lower_char c2) as [[] [] [] [] [] [] [] []] eqn:H2; try done;
      destruct (lower_char c3) as [[] [] [] [] [] [] [] []] eqn:H3; try done.
    all: lazymatch goal with
         | |- parse_nan _ false _ = _ → _ =>
             intros [Hd _]%parse_nan_digits; right; right;
             exists c1, c2, c3, s; split_and!;
             [done|by rewrite H1, H2, H3|by apply lower_digits_inv]
         | |- _ => idtac
         end.
    all: destruct (lower s) as [|c4 r4]; try done.
    all: try (intros [= <-]; left; by eexists).
    all: destruct c4 as [[] [] [] [] [] [] [] []]; try done.
    all: try (intros [_ ->]%parse_nan_digits; right; left; by eauto).
    all: intros H; left; exists sign; repeat case_match; simplify_eq; done.
Qed.

(** The text of a number that [quantize] takes, underscores removed: the
    characters of a number, with at most one decimal point. *)
Lemma of_string_chars t d :
  of_string t = Some d →
  (∀ sg, d ≠ Infinity sg) → (∀ sg p, d ≠ NaN sg true p) →
  all number_char (replace "_" "" (strip t)) = true
  ∧ (occurrences "." (replace "_" "" (strip t)) ≤ 1)%nat.
Proof.
  unfold of_string. generalize (replace "_" "" (strip t)). intros s.
  destruct (parse_sign s) as [sign body] eqn:Hsign. intros Hd Hinf Hsnan.
  assert (all number_char body = true ∧ (occurrences "." body ≤ 1)%nat) as [Hn Hc].
  { destruct (parse_number sign body) as [d'|] eqn:Hnum.
    - by eapply parse_number_chars.
    - apply parse_special_quiet in Hd
        as [[sg ->]|[(sg & p & ->)|(c1 & c2 & c3 & diag & -> & Hl & Hdiag)]].
      + by destruct (Hinf sg).
      + by destruct (Hsnan sg p).
      + simpl in Hl. injection Hl as H1 H2 H3.
        pose proof (lower_char_inv c1) as (_ & Hc1 & _).
        pose proof (lower_char_inv c2) as (_ & _ & Hc2).
        pose proof (lower_char_inv c3) as (_ & Hc3 & _).
        rewrite H1 in Hc1. rewrite H2 in Hc2. rewrite H3 in Hc3.
        simpl. rewrite Hc1, Hc2, Hc3 by done.
        rewrite (all_impl isdigit number_char diag isdigit_number_char Hdiag).
        rewrite (occurrences_all_not isdigit "." diag) by done.
        split; [done|].
        destruct (Ascii.eqb_spec c1 ".") as [->|]; [done|].
        destruct (Ascii.eqb_spec c2 ".") as [->|]; [done|].
        destruct (Ascii.eqb_spec c3 ".") as [->|]; [done|]. lia. }
  apply parse_sign_spec in Hsign as [->|(c & -> & Hcn & Hcp)]; [done|].
  simpl. by rewrite Hcn, Hcp, Hn.
Qed.

End shape_of_numbers.

Section rejection.
Import Str Spec.

Lemma all_strip_inv Q s :
  all Q (strip s) = true → all (fun c => Q c || isspace c) s = true.
Proof.
  intros H. destruct (strip_split s) as (w1 & w2 & H1 & H2 & Hs).
  rewrite Hs, !all_append.
  rewrite (all_impl isspace _ w1), (all_impl isspace _ w2), (all_impl Q _ _);
    try done; intros c Hc; rewrite Hc; by rewrite ?orb_true_r.
Qed.

Lemma all_replace_underscore_inv Q s :
  all Q (replace "_" "" s) = true →
  all (fun c => Q c || Ascii.eqb c "_") s = true.
Proof.
  induction s as [|c s IH]; simpl; [done|].
  destruct (Ascii.eqb_spec c "_") as [->|_]; simpl.
  - intros H. rewrite IH by done. by rewrite orb_true_r.
  - intros [Hc Hs]%andb_prop. by rewrite Hc, IH.
Qed.

Lemma is_separator_other dec : is_separator (other_separator dec) = true.
Proof. unfold other_separator. by destruct (Ascii.eqb dec ","). Qed.

Lemma all_read_with_inv Q dec s :
  is_separator dec = true →
  all Q (read_with dec s) = true →
  all (fun c => Q c || is_separator c) s = true.
Proof.
  intros Hdec. induction s as [|c s IH]; simpl; [done|].
  destruct (Ascii.eqb_spec c (other_separator dec)) as [->|_].
  - intros H. rewrite IH by done. by rewrite is_separator_other, orb_true_r.
  - destruct (Ascii.eqb_spec c dec) as [->|_]; simpl;
      intros [Hc Hs]%andb_prop; rewrite IH by done.
    + by rewrite Hdec, orb_true_r.
    + by rewrite Hc.
Qed.

Lemma all_normalized_inv Q s :
  all Q (normalized s) = true →
  all (fun c => Q c || is_separator c) s = true.
Proof.
  unfold normalized. destruct (rightmost_separator s) as [dec|] eqn:Hdec.
  - apply all_read_with_inv.
    apply rightmost_separator_is_separator in Hdec as [->| ->]; done.
  - apply all_impl. intros c ->. done.
Qed.

Lemma occurrences_strip c s : isspace c = false → occurrences c (strip s) = occurrences c s.
Proof.
  intros Hc. destruct (strip_split s) as (w1 & w2 & H1 & H2 & Hs).
  rewrite Hs at 2. rewrite !occurrences_append.
  rewrite (occurrences_all_not isspace c w1), (occurrences_all_not isspace c w2) by done.
  lia.
Qed.

Lemma occurrences_replace_underscore s :
  occurrences "." (replace "_" "" s) = occurrences "." s.
Proof.
  induction s as [|c s IH]; simpl; [done|].
  destruct (Ascii.eqb_spec c "_") as [->|_]; simpl; by rewrite IH.
Qed.

Lemma occurrences_read_with dec s :
  is_separator dec = true → occurrences "." (read_with dec s) = occurrences dec s.
Proof.
  intros [->| ->]%is_separator_inv; induction s as [|c s IH]; simpl; try done.
  - change (other_separator ",") with "."%char.
    destruct (Ascii.eqb_spec c ".") as [->|Hp]; [done|].
    destruct (Ascii.eqb_spec c ",") as [->|Hc]; simpl; [by rewrite IH|].
    destruct (Ascii.eqb_spec c "."); [done|]. by rewrite IH.
  - change (other_separator ".") with ","%char.
    destruct (Ascii.eqb_spec c ",") as [->|Hc]; [done|].
    destruct (Ascii.eqb_spec c ".") as [->|Hp]; simpl; [by rewrite IH|].
    destruct (Ascii.eqb_spec c "."); [done|]. by rewrite IH.
Qed.

(** [fixed_point] raises [InvalidOperation] only. *)
Lemma fixed_point_raises s e : fixed_point s = Raise e → e = InvalidOperation.
Proof.
  unfold fixed_point, Decimal_. destruct (of_string s) as [d|]; simpl.
  - unfold quantize. repeat case_match; congruence.
  - congruence.
Qed.

(** What [fixed_point] returns comes from a text of a number. *)
Lemma fixed_point_chars s d :
  fixed_point s = OK d →
  all number_char (replace "_" "" (strip s)) = true
  ∧ (occurrences "." (replace "_" "" (strip s)) ≤ 1)%nat.
Proof.
  unfold fixed_point, Decimal_. destruct (of_string s) as [d0|] eqn:Hd0; [|done].
  simpl. intros Hq. apply (of_string_chars s d0 Hd0).
  - intros sg ->. done.
  - intros sg p ->. done.
Qed.

Lemma amount_char_of c :
  number_char c || Ascii.eqb c "_" || isspace c || is_separator c = true →
  amount_char c = true.
Proof.
  unfold amount_char, is_separator.
  destruct (number_char c) eqn:Hn, (Ascii.eqb c "_"), (isspace c),
    (Ascii.eqb c ","); simpl; try done.
  intros ->%Ascii.eqb_eq. done.
Qed.

End rejection.

Section rejection_rules.
Import Str Spec.

(** The amounts that are read consist of the characters of an amount. *)
Lemma fixed_point_normalized_chars v d :
  fixed_point (normalized v) = OK d → all amount_char v = true.
Proof.
  intros [Hn _]%fixed_point_chars.
  apply all_replace_underscore_inv, all_strip_inv, all_normalized_inv in Hn.
  eapply all_impl; [|exact Hn]. intros c Hc. by apply amount_char_of.
Qed.

Lemma all_false_strip_nonempty P s :
  (∀ c, isspace c = true → P c = true) → all P s = false → strip s ≠ "".
Proof.
  intros HP Hs Hnil. apply strip_nil_all_space in Hnil.
  rewrite (all_impl isspace P s HP Hnil) in Hs. done.
Qed.

Lemma fixed_point_rejected s msg :
  (∀ d, fixed_point s ≠ OK d) →
  except_InvalidOperation (fixed_point s) msg = Raise (ValueError msg).
Proof.
  intros Hno. destruct (fixed_point s) as [d|e] eqn:H; [by destruct (Hno d)|].
  by apply fixed_point_raises in H as ->.
Qed.

End rejection_rules.

(** An amount with a character that no amount has is rejected: a letter
    other than those of the exponent and of NaN, a currency sign, an
    apostrophe.  Both copies of [parse_decimal] raise the error of an
    invalid number. *)
Theorem parse_decimal_foreign_character (v : string) :
  Str.all amount_char v = false →
  App.parse_decimal (Some v) = Raise (ValueError "invalid number")
  ∧ Importer.parse_decimal (Some v)
    = Raise (ValueError ("invalid number: " +:+ v)).
Proof.
  intros Hv.
  assert (Str.strip v ≠ "") as Hne%String.eqb_neq.
  { apply (all_false_strip_nonempty amount_char); [|done].
    intros c Hc. unfold amount_char. by rewrite Hc, !orb_true_r. }
  assert (∀ d, Spec.fixed_point (Spec.normalized v) ≠ OK d) as Hno.
  { intros d Hd%fixed_point_normalized_chars. congruence. }
  rewrite App_parse_decimal_rules, Importer_parse_decimal_rules, Hne.
  split; by apply fixed_point_rejected.
Qed.

Lemma parse_decimal_foreign_character_witness :
  App.parse_decimal (Some "CHF 12.50") = Raise (ValueError "invalid number")
  ∧ Importer.parse_decimal (Some "CHF 12.50")
    = Raise (ValueError "invalid number: CHF 12.50").
Proof.
  apply (parse_decimal_foreign_character "CHF 12.50"). reflexivity.
Defined.

(** A decimal separator that occurs twice.  When the separator that is read
    as the decimal point, the rightmost one, occurs more than once, the
    amount is rejected: "1,234,567" and "1.234.567" are not amounts. *)
Theorem parse_decimal_repeated_separator (v : string) (dec : ascii) :
  Spec.rightmost_separator v = Some dec →
  (2 ≤ occurrences dec v)%nat →
  App.parse_decimal (Some v) = Raise (ValueError "invalid number")
  ∧ Importer.parse_decimal (Some v)
    = Raise (ValueError ("invalid number: " +:+ v)).
Proof.
  intros Hdec Hcount.
  assert (Spec.is_separator dec = true) as Hsep
      by (apply rightmost_separator_is_separator in Hdec as [->| ->]; done).
  assert (Str.strip v ≠ "") as Hne%String.eqb_neq.
  { apply (contains_strip_nonempty dec).
    - apply is_separator_inv in Hsep as [->| ->]; done.
    - by apply rightmost_separator_contains. }
  assert (∀ d, Spec.fixed_point (Spec.normalized v) ≠ OK d) as Hno.
  { intros d [_ Hc]%fixed_point_chars.
    rewrite occurrences_replace_underscore, occurrences_strip in Hc by done.
    unfold Spec.normalized in Hc. rewrite Hdec in Hc.
    rewrite occurrences_read_with in Hc by done. lia. }
  rewrite App_parse_decimal_rules, Importer_parse_decimal_rules, Hne.
  split; by apply fixed_point_rejected.
Qed.

Lemma parse_decimal_repeated_separator_witness :
  App.parse_decimal (Some "1,234,567") = Raise (ValueError "invalid number")
  ∧ Importer.parse_decimal (Some "1,234,567")
    = Raise (ValueError "invalid number: 1,234,567").
Proof.
  apply (parse_decimal_repeated_separator "1,234,567" ","); [reflexivity|].
  simpl. lia.
Defined.

(** ** Whole amounts *)

Section whole_amounts.
Import Str Spec.

Lemma of_string_whole sign n :
  of_string (sign_string sign +:+ of_N n) = Some (Finite sign n 0)
  ∧ all safe (sign_string sign +:+ of_N n) = true.
Proof.
  pose proof (of_N_digits n) as Hd. pose proof (of_N_nonempty n) as Hne.
  assert (all safe (sign_string sign +:+ of_N n) = true) as Hsafe.
  { rewrite all_append, all_safe_sign. simpl.
    eapply all_impl; [apply isdigit_safe|done]. }
  split; [|done]. rewrite of_string_safe by done.
  rewrite <- (append_nil_r (of_N n)) at 1.
  rewrite parse_sign_digit by done. rewrite append_nil_r.
  unfold parse_number. rewrite span_digits_all by done.
  apply String.eqb_neq in Hne as ->. simpl.
  by rewrite append_nil_r, int_of_N.
Qed.

Lemma quantize_whole sign n :
  quantize (Finite sign n 0) (Finite false 1 (-2))
  = if (n <? pow10 26)%N then OK (Finite sign (n * 100) (-2))
    else Raise InvalidOperation.
Proof.
  unfold quantize. change (negb _) with false. cbv iota.
  destruct (N.eqb_spec n 0) as [->|Hn0]; [done|].
  unfold adjusted, prec, Emax.
  pose proof (len_pos n) as Hpos.
  pose proof (len_le n 26 ltac:(lia)) as H26.
  destruct (N.ltb_spec n (pow10 26)) as [Hlt|Hge].
  - apply H26 in Hlt.
    destruct (Z.gtb_spec (0 + len n - 1) 999999); [lia|].
    destruct (Z.gtb_spec (0 + len n - 1 - -2 + 1) 28); [lia|].
    unfold _rescale. apply N.eqb_neq in Hn0 as ->.
    change (0 >=? -2) with true. cbv iota.
    change (pow10 (0 - -2)) with 100%N.
    assert (len (n * 100) <= 28) as Hlen.
    { apply len_le; [lia|]. change (pow10 28) with (pow10 26 * 100)%N.
      apply len_le in Hlt; [|lia]. lia. }
    pose proof (len_pos (n * 100)).
    destruct (Z.gtb_spec (-2 + len (n * 100) - 1) 999999); [lia|].
    destruct (Z.gtb_spec (len (n * 100)) 28); [lia|]. done.
  - assert (¬ len n <= 26) as Hlen by (intros ?%H26; lia).
    destruct (Z.gtb_spec (0 + len n - 1) 999999); [done|].
    destruct (Z.gtb_spec (0 + len n - 1 - -2 + 1) 28); [done|lia].
Qed.

End whole_amounts.

(** Whole amounts.  The decimal text of an integer below 10^26, with or
    without a minus sign, is read as that integer with two zero decimals;
    the text of an integer of 27 digits or more is rejected, because the
    result would take more than the 28 digits of the decimal context. *)
Theorem parse_decimal_whole_amount (sign : bool) (n : N) :
  App.parse_decimal (Some (sign_string sign +:+ Str.of_N n))
  = (if (n <? 10 ^ 26)%N then OK (Finite sign (n * 100) (-2))
     else Raise (ValueError "invalid number"))
  ∧ Importer.parse_decimal (Some (sign_string sign +:+ Str.of_N n))
    = (if (n <? 10 ^ 26)%N then OK (Finite sign (n * 100) (-2))
       else Raise (ValueError
                     ("invalid number: " +:+ sign_string sign +:+ Str.of_N n))).
Proof.
  destruct (of_string_whole sign n) as [Hof Hsafe].
  assert (Spec.fixed_point (sign_string sign +:+ Str.of_N n)
          = if (n <? 10 ^ 26)%N then OK (Finite sign (n * 100) (-2))
            else Raise InvalidOperation) as Hfp.
  { unfold Spec.fixed_point, Decimal_. rewrite Hof. simpl.
    apply quantize_whole. }
  assert (Str.strip (sign_string sign +:+ Str.of_N n) ≠ "") as Hne.
  { rewrite strip_safe by done. pose proof (of_N_nonempty n).
    destruct sign; simpl; [done|]. done. }
  rewrite App_parse_decimal_plain, Importer_parse_decimal_plain, Hfp;
    [|by apply contains_comma_safe|done|by apply contains_comma_safe|done].
  by destruct (n <? 10 ^ 26)%N.
Qed.

(** ** The columns of an import *)

Section columns.
Import App Importer.
#[local] Open Scope list_scope.

Lemma foldl_ext {A B} (f g : A → B → A) (l : list B) a :
  (∀ a b, f a b = g a b) → foldl f a l = foldl g a l.
Proof.
  intros Hfg. revert a. induction l as [|b l IH]; intros a; simpl; [done|].
  by rewrite Hfg, IH.
Qed.

Lemma dict_set_fresh {K V} `{EqDecision K} (k : K) (v : V) d :
  k ∉ d.*1 → dict_set k v d = d ++ [(k, v)].
Proof.
  induction d as [|[k' v'] d IH]; simpl; [done|].
  intros Hk. apply not_elem_of_cons in Hk as [Hne Hk].
  rewrite decide_False by done. by rewrite IH.
Qed.

Lemma foldl_dict_set_fresh {K V X} `{EqDecision K} (key : X → K) (val : X → V)
    (xs : list X) d :
  NoDup (key <$> xs) → (∀ x, x ∈ xs → key x ∉ d.*1) →
  foldl (fun d x => dict_set (key x) (val x) d) d xs
  = d ++ ((fun x => (key x, val x)) <$> xs).
Proof.
  revert d. induction xs as [|x xs IH]; intros d Hnd Hd; simpl.
  - by rewrite app_nil_r.
  - rewrite fmap_cons in Hnd. apply NoDup_cons in Hnd as [Hx Hnd].
    rewrite dict_set_fresh by (apply Hd; left).
    rewrite IH; [by rewrite <- app_assoc|done|].
    intros y Hy. rewrite fmap_app, elem_of_app. intros [Hin|Hin].
    + apply (Hd y); [by right|done].
    + simpl in Hin. apply list_elem_of_singleton in Hin.
      apply Hx. rewrite <- Hin. by apply list_elem_of_fmap_2.
Qed.

Lemma foldl_dict_set_id {K V} `{EqDecision K} (items : list (K * V)) :
  NoDup items.*1 → foldl (fun d '(k, v) => dict_set k v d) [] items = items.
Proof.
  intros Hnd.
  rewrite (foldl_ext _ (fun d x => dict_set x.1 x.2 d)) by (by intros d [k v]).
  rewrite foldl_dict_set_fresh; [|done|intros x _; apply not_elem_of_nil].
  simpl. rewrite <- (list_fmap_id items) at 2. apply list_fmap_ext.
  by intros i [k v] _.
Qed.

Lemma dict_get_elem {K V} `{EqDecision K} (k : K) (v : V) d :
  NoDup d.*1 → (k, v) ∈ d → dict_get k d = Some v.
Proof.
  induction d as [|[k' v'] d IH]; simpl; [by intros _ ?%elem_of_nil|].
  intros [Hk Hnd]%NoDup_cons [[= <- <-]|Hin]%elem_of_cons.
  - by rewrite decide_True.
  - rewrite decide_False; [auto|]. intros ->. apply Hk.
    by apply (list_elem_of_fmap_2 fst) in Hin.
Qed.

Lemma norm_items_fields (pairs : list (string * string)) :
  norm_items ((fun kv => (Some kv.1, Field kv.2)) <$> pairs)
  = OK ((fun kv => (Str.lower (Str.strip kv.1), Field (Str.strip kv.2)))
          <$> pairs).
Proof.
  induction pairs as [|[k v] pairs IH]; [done|].
  rewrite !fmap_cons. cbn [norm_items]. by rewrite IH.
Qed.

(** The dict of a row that has as many fields as the header, when the
    names of the header differ after trimming and lower-casing: each field
    under the name of its column. *)
Lemma norm_row_columns fieldnames row :
  List.length row = List.length fieldnames →
  NoDup ((fun f => Str.lower (Str.strip f)) <$> fieldnames) →
  norm_row (row_dict fieldnames row)
  = OK ((fun kv => (Str.lower (Str.strip kv.1), Field (Str.strip kv.2)))
          <$> zip fieldnames row).
Proof.
  intros Hlen Hnd. unfold row_dict.
  destruct (Nat.ltb_spec (List.length fieldnames) (List.length row)); [lia|].
  destruct (Nat.ltb_spec (List.length row) (List.length fieldnames)); [lia|].
  assert ((zip fieldnames row).*1 = fieldnames) as Hfst
      by (apply fst_zip; lia).
  assert (foldl (fun d '(k, v) => dict_set (Some k) (Field v) d) []
            (zip fieldnames row)
          = (fun kv => (Some kv.1, Field kv.2)) <$> zip fieldnames row) as ->.
  { rewrite (foldl_ext _ (fun d x => dict_set (Some x.1) (Field x.2) d))
      by (by intros d [k v]).
    rewrite (foldl_dict_set_fresh (fun kv : string * string => Some kv.1)
               (fun kv => Field kv.2)); [done| |intros x _; apply not_elem_of_nil].
    change (fun kv : string * string => Some kv.1)
      with (Some ∘ @fst string string).
    rewrite (list_fmap_compose fst Some). fold (zip fieldnames row).*1.
    rewrite Hfst. apply (NoDup_fmap_2 Some). eapply NoDup_fmap_1, Hnd. }
  unfold norm_row. rewrite norm_items_fields. cbn [mbind result_bind].
  f_equal. apply foldl_dict_set_id.
  rewrite <- list_fmap_compose.
  change (fst ∘ _) with ((fun f => Str.lower (Str.strip f)) ∘ @fst string string).
  rewrite (list_fmap_compose fst (fun f => Str.lower (Str.strip f))).
  fold (zip fieldnames row).*1. by rewrite Hfst.
Qed.

End columns.

Section columns_by_name.
Import App Importer.
#[local] Open Scope list_scope.

#[local] Arguments norm_row : simpl never.
#[local] Arguments Importer.parse_decimal : simpl never.
#[local] Arguments parse_date_ddmmyyyy : simpl never.

Lemma getitem_column fieldnames row i f x :
  List.length row = List.length fieldnames →
  NoDup ((fun f => Str.lower (Str.strip f)) <$> fieldnames) →
  fieldnames !! i = Some f → row !! i = Some x →
  getitem ((fun kv => (Str.lower (Str.strip kv.1), Field (Str.strip kv.2)))
             <$> zip fieldnames row) (Str.lower (Str.strip f))
  = OK (Field (Str.strip x)).
Proof.
  intros Hlen Hnd Hf Hx. unfold getitem.
  rewrite (dict_get_elem _ (Field (Str.strip x))); [done| |].
  - rewrite <- list_fmap_compose.
    change (fst ∘ _)
      with ((fun f => Str.lower (Str.strip f)) ∘ @fst string string).
    rewrite (list_fmap_compose fst (fun f => Str.lower (Str.strip f))).
    fold (zip fieldnames row).*1. rewrite fst_zip by lia. done.
  - apply list_elem_of_fmap. exists (f, x). split; [done|].
    apply list_elem_of_lookup. exists i. rewrite lookup_zip_with.
    by rewrite Hf, Hx.
Qed.

End columns_by_name.

(** The import reads the columns by their names.  For a header whose names
    differ after trimming and lower-casing and a row with as many fields,
    the cell found under a name is the trimmed field of that column; so
    the date, the account and the amount of the row are read from the
    columns named date, accountname and balance wherever they stand, and
    the other columns play no part. *)
Theorem import_reads_columns_by_name (fieldnames row : list string)
    (i j k : nat) (f1 f2 f3 x n v : string) :
  List.length row = List.length fieldnames →
  NoDup ((fun f => Str.lower (Str.strip f)) <$> fieldnames) →
  fieldnames !! i = Some f1 → Str.lower (Str.strip f1) = "date" →
  fieldnames !! j = Some f2 → Str.lower (Str.strip f2) = "accountname" →
  fieldnames !! k = Some f3 → Str.lower (Str.strip f3) = "balance" →
  row !! i = Some x → row !! j = Some n → row !! k = Some v →
  ∃ r,
    Importer.norm_row (row_dict fieldnames row) = OK r
    ∧ Importer.getitem r "date" = OK (Field (Str.strip x))
    ∧ Importer.getitem r "accountname" = OK (Field (Str.strip n))
    ∧ Importer.getitem r "balance" = OK (Field (Str.strip v))
    ∧ Importer.parse_row r
      = Importer.parse_row
          [("date", Field (Str.strip x)); ("accountname", Field (Str.strip n));
           ("balance", Field (Str.strip v))].
Proof.
  intros Hlen Hnd Hi H1 Hj H2 Hk H3 Hx Hn Hv.
  rewrite norm_row_columns by done. eexists. split; [done|].
  pose proof (getitem_column fieldnames row i f1 x Hlen Hnd Hi Hx) as Gd.
  pose proof (getitem_column fieldnames row j f2 n Hlen Hnd Hj Hn) as Gn.
  pose proof (getitem_column fieldnames row k f3 v Hlen Hnd Hk Hv) as Gb.
  rewrite H1 in Gd. rewrite H2 in Gn. rewrite H3 in Gb.
  split_and!; [done|done|done|].
  unfold Importer.parse_row. rewrite Gd, Gn, Gb. reflexivity.
Qed.

Lemma import_reads_columns_by_name_witness :
  ∃ r,
    Importer.norm_row
      (row_dict ["Balance"; "note"; " Date"; "AccountName"]
         ["1,5"; "x"; "05.01.2024"; "C "]) = OK r
    ∧ Importer.parse_row r
      = OK (mkdate 2024 1 5, "C", Finite false 150 (-2)).
Proof.
  destruct (import_reads_columns_by_name
              ["Balance"; "note"; " Date"; "AccountName"]
              ["1,5"; "x"; "05.01.2024"; "C "] 2 3 0
              " Date" "AccountName" "Balance" "05.01.2024" "C " "1,5")
    as (r & Hr & _ & _ & _ & Hparse); try reflexivity.
  - apply (bool_decide_unpack _). vm_compute. exact I.
  - exists r. split; [exact Hr|]. rewrite Hparse. reflexivity.
Defined.

